(** * aspect-ratio-service: a shallow embedding and its verified properties

    The development follows the layout of the repository:

    - [lib/imageProcessor.js]: aspect-ratio detection, the scale-and-pad
      geometry and the three-variant driver;
    - [lib/auth.js]: webhook signature verification, header validation,
      payload parsing and the response envelopes;
    - [lib/supabase.js]: the record-store and object-store helpers;
    - [api/process.js]: the webhook handler that sequences everything;
    - [api/health.js]: the health endpoint.

    JavaScript numbers are IEEE 754 doubles ([Double]): an operation is
    the exact operation on rationals followed by rounding to the nearest
    binary64 value, ties to even.  Exact rationals ([JsNum]) are kept for
    the geometry that sharp computes inside the library and for the one
    computation of the service that is exact in doubles, a division by
    1024.  JavaScript completions (normal return or a thrown error
    carrying a message) are the type [completion]; [async] functions are
    run to completion in program order, with the interleavings that matter
    (the upload barrier, the detached cleanup) made explicit.

    Part I holds the definitions, Part II the lemmas and theorems. *)

From Stdlib Require Import ZArith QArith Qround Qabs Qminmax Qpower Lqa.
From Stdlib Require Import String Ascii List Lia DecimalString HexString.
From Stdlib Require Floats.SpecFloat.
From stdpp Require Import base option list strings gmap.

Local Open Scope string_scope.
Local Open Scope Z_scope.

(** * Part I: the embedding *)

(** ** Exact arithmetic and the rendering of integers *)

Module JsNum.

(** Strict comparison [x < y] on numbers. *)
Definition ltb (x y : Q) : bool :=
  (Qnum x * QDen y <? Qnum y * QDen x)%Z.

(** [Math.abs], [Math.min], [Math.max], [Math.round]. *)
Definition abs (x : Q) : Q := Qabs x.

Definition min (x y : Q) : Q := if Qle_bool x y then x else y.

Definition max (x y : Q) : Q := if Qle_bool x y then y else x.

Definition round (x : Q) : Z := Qfloor (x + (1 # 2))%Q.

(** Template-literal rendering of an integer-valued number. *)
Definition to_string (n : Z) : string := NilZero.string_of_int (Z.to_int n).

End JsNum.

(** ** JavaScript numbers as IEEE 754 doubles

    A number is [NaN], an infinity, or a finite binary64 value, held as the
    rational it denotes.  Every arithmetic operation is the exact operation
    followed by rounding to the nearest binary64 value, ties to even, as
    ECMAScript prescribes; a result of magnitude [2^1024] or more is an
    infinity.  The sign of a zero is not tracked: the service never
    divides by a computed zero. *)

Module Double.

Inductive number :=
| NaN
| Infinity
| NegInfinity
| Num (value : Q).

Definition pow2 (e : Z) : Q := (2 ^ e)%Q.

(** [floor (log2 x)] for a positive [x]. *)
Definition ilog2 (x : Q) : Z :=
  let e := Z.log2 (Qnum x) - Z.log2 (QDen x) in
  if Qle_bool (pow2 e) x then e else e - 1.

(** The integer nearest to [y], the even one of two that are equally near. *)
Definition nearest_even (y : Q) : Z :=
  let f := Qfloor y in
  match (y - inject_Z f ?= 1 # 2)%Q with
  | Lt => f
  | Gt => f + 1
  | Eq => if Z.even f then f else f + 1
  end.

(** The binary64 value nearest to a positive [a]: 53 significant bits, the
    least exponent that of the subnormal numbers. *)
Definition ulp_exponent (a : Q) : Z := Z.max (ilog2 a - 52) (-1074).

Definition nearest_positive (a : Q) : Q :=
  let ulp := pow2 (ulp_exponent a) in
  (inject_Z (nearest_even (a / ulp)) * ulp)%Q.

Definition overflows (y : Q) : bool := Qle_bool (pow2 1024) y.

Definition round_canonical (x : Q) : number :=
  match Qnum x with
  | Z0 => Num 0
  | Zpos _ =>
      let y := nearest_positive x in
      if overflows y then Infinity else Num (Qred y)
  | Zneg _ =>
      let y := nearest_positive (- x) in
      if overflows y then NegInfinity else Num (Qred (- y))
  end.

(** Rounding of an exact result. *)
Definition round_nearest (x : Q) : number := round_canonical (Qred x).

(** An integer as a number, and a decimal literal. *)
Definition of_Z (n : Z) : number := round_nearest (inject_Z n).

Definition literal (q : Q) : number := round_nearest q.

Definition is_zero (q : Q) : bool := Qeq_bool q 0.

Definition negative (q : Q) : bool := (Qnum q <? 0)%Z.

Definition infinity (neg : bool) : number :=
  if neg then NegInfinity else Infinity.

(** [x / y]. *)
Definition div (x y : number) : number :=
  match x, y with
  | NaN, _ | _, NaN => NaN
  | Num a, Num b =>
      if is_zero b
      then if is_zero a then NaN else infinity (negative a)
      else round_nearest (a / b)
  | Num _, (Infinity | NegInfinity) => Num 0
  | Infinity, Num b => infinity (negative b)
  | NegInfinity, Num b => infinity (negb (negative b))
  | (Infinity | NegInfinity), (Infinity | NegInfinity) => NaN
  end.

(** [x * y]. *)
Definition mul (x y : number) : number :=
  match x, y with
  | NaN, _ | _, NaN => NaN
  | Num a, Num b => round_nearest (a * b)
  | Num a, Infinity | Infinity, Num a =>
      if is_zero a then NaN else infinity (negative a)
  | Num a, NegInfinity | NegInfinity, Num a =>
      if is_zero a then NaN else infinity (negb (negative a))
  | Infinity, Infinity | NegInfinity, NegInfinity => Infinity
  | Infinity, NegInfinity | NegInfinity, Infinity => NegInfinity
  end.

(** [x - y]. *)
Definition sub (x y : number) : number :=
  match x, y with
  | NaN, _ | _, NaN => NaN
  | Num a, Num b => round_nearest (a - b)
  | Num _, Infinity => NegInfinity
  | Num _, NegInfinity => Infinity
  | Infinity, Num _ | Infinity, NegInfinity => Infinity
  | NegInfinity, Num _ | NegInfinity, Infinity => NegInfinity
  | Infinity, Infinity | NegInfinity, NegInfinity => NaN
  end.

(** [Math.abs(x)]. *)
Definition abs (x : number) : number :=
  match x with
  | NaN => NaN
  | Infinity | NegInfinity => Infinity
  | Num a => Num (Qabs a)
  end.

(** [x < y]. *)
Definition ltb (x y : number) : bool :=
  match x, y with
  | NaN, _ | _, NaN => false
  | Num a, Num b => if Qlt_le_dec a b then true else false
  | NegInfinity, (Num _ | Infinity) => true
  | Num _, Infinity => true
  | _, _ => false
  end.

(** [Math.min(x, y)]. *)
Definition min (x y : number) : number :=
  match x, y with
  | NaN, _ | _, NaN => NaN
  | _, _ => if ltb y x then y else x
  end.

(** [Math.round(x)]: the nearest integer, the larger of two that are
    equally near. *)
Definition round (x : number) : number :=
  match x with
  | Num a => Num (inject_Z (Qfloor (a + (1 # 2))))
  | _ => x
  end.

(** The integer that a number is, if it is one. *)
Definition to_integer (x : number) : option Z :=
  match x with
  | Num a => if Qeq_bool a (inject_Z (Qfloor a)) then Some (Qfloor a) else None
  | _ => None
  end.

End Double.

Coercion Double.of_Z : Z >-> Double.number.

(** The same operations as the Standard Library specifies them for
    binary64 ([SpecFloat], 53 bits of precision, exponents below 1024),
    and the operands on which [Double] is compared with them. *)

Module Binary64.

Import SpecFloat.

Definition of_Z (n : Z) : spec_float := binary_normalize 53 1024 n 0 false.

Definition div := SFdiv 53 1024.
Definition mul := SFmul 53 1024.
Definition sub := SFsub 53 1024.

Definition value (f : spec_float) : Double.number :=
  match f with
  | S754_zero _ => Double.Num 0
  | S754_infinity s => Double.infinity s
  | S754_nan => Double.NaN
  | S754_finite s m e =>
      Double.Num
        (Qred ((if s then -1 else 1) * inject_Z (Z.pos m) * Double.pow2 e))
  end.

Definition same (x : Double.number) (f : spec_float) : bool :=
  match x, value f with
  | Double.Num a, Double.Num b => Qeq_bool a b
  | Double.NaN, Double.NaN
  | Double.Infinity, Double.Infinity
  | Double.NegInfinity, Double.NegInfinity => true
  | _, _ => false
  end.

Definition operands : list Z :=
  [0; 1; 2; 3; 7; 9; 16; 49; 180; 311; 329; 420; 441; 576; 1024; 1463; 1866;
   4224; 56448; 100352; 4294967295; 9007199254740991; 9007199254740993].

Definition agree (f : Double.number -> Double.number -> Double.number)
  (g : spec_float -> spec_float -> spec_float) : bool :=
  forallb (fun a =>
             forallb (fun b => same (f (Double.of_Z a) (Double.of_Z b))
                                    (g (of_Z a) (of_Z b)))
                     operands)
          operands.

End Binary64.

(** ** JavaScript completions and strings *)

Module Js.

Inductive completion (A : Type) : Type :=
| Normal (a : A)
| Throw (message : string).

Arguments Normal {A} a.
Arguments Throw {A} message.

Definition bind {A B : Type} (c : completion A) (k : A -> completion B)
  : completion B :=
  match c with
  | Normal a => k a
  | Throw m => Throw m
  end.

(** [try { body } catch (error) { handler(error.message) }]. *)
Definition try_catch {A : Type} (body : completion A)
  (handler : string -> completion A) : completion A :=
  match body with
  | Normal a => Normal a
  | Throw m => handler m
  end.

Definition is_normal {A : Type} (c : completion A) : bool :=
  match c with Normal _ => true | Throw _ => false end.

(** [haystack.includes(needle)]. *)
Fixpoint includes (needle haystack : string) : bool :=
  String.prefix needle haystack ||
  match haystack with
  | EmptyString => false
  | String _ rest => includes needle rest
  end.

Fixpoint drop (n : nat) (s : string) : string :=
  match n, s with
  | O, _ => s
  | S n', String _ rest => drop n' rest
  | S _, EmptyString => EmptyString
  end.

(** [s.replace(pattern, replacement)] with a string pattern: only the first
    occurrence is replaced. *)
Fixpoint replace (pattern replacement s : string) : string :=
  if String.prefix pattern s
  then replacement ++ drop (String.length pattern) s
  else match s with
       | EmptyString => EmptyString
       | String c rest => String c (replace pattern replacement rest)
       end.

(** [s.replace(/^prefix/, '')]. *)
Definition strip_prefix (prefix s : string) : string :=
  if String.prefix prefix s then drop (String.length prefix) s else s.

(** Truthiness of a possibly missing string. *)
Definition truthy (s : option string) : bool :=
  match s with
  | Some EmptyString | None => false
  | Some _ => true
  end.

(** A plain object used as an insertion-ordered dictionary: [o[k] = v]. *)
Fixpoint obj_set {V : Type} (k : string) (v : V) (o : list (string * V))
  : list (string * V) :=
  match o with
  | [] => [(k, v)]
  | (k', v') :: rest =>
      if String.eqb k k' then (k, v) :: rest else (k', v') :: obj_set k v rest
  end.

Fixpoint obj_get {V : Type} (k : string) (o : list (string * V)) : option V :=
  match o with
  | [] => None
  | (k', v') :: rest => if String.eqb k k' then Some v' else obj_get k rest
  end.

End Js.

Import Js.

#[export] Instance completion_ret : MRet completion := @Normal.
#[export] Instance completion_bind : MBind completion :=
  fun A B k c => Js.bind c k.

(** ** The image library

    [sharp] is a dependency of the service, not part of it.  Only what the
    service observes is modelled: a buffer is its leading bytes together
    with what the decoder finds in it, and every pipeline yields the pixel
    dimensions the library documents for it. *)

Module Sharp.

Record ImageInfo := {
  width : Z;
  height : Z;
  format : string
}.

Record Buffer := {
  bytes : list Z;
  image : option ImageInfo
}.

Definition jpeg_signature : list Z := [255; 216; 255].

(** [.jpeg({...}).toBuffer()] of a [w] by [h] pipeline. *)
Definition toBuffer_jpeg (w h : Z) : Buffer :=
  {| bytes := jpeg_signature;
     image := Some {| width := w; height := h; format := "jpeg" |} |}.

(** [sharp(buffer).metadata()]. *)
Definition metadata (b : Buffer) : completion ImageInfo :=
  match image b with
  | Some info => Normal info
  | None => Throw "Input buffer contains unsupported image format"
  end.

(** [.resize(w, h, { fit: 'inside', withoutEnlargement: false })]: the
    aspect ratio is kept and the result is as large as possible with both
    dimensions at most the requested ones.  Both axes are divided by the
    larger of the two shrink factors and rounded, never below one pixel. *)
Definition inside_dimensions (info : ImageInfo) (w h : Z) : Z * Z :=
  let hshrink := (inject_Z (width info) / inject_Z w)%Q in
  let vshrink := (inject_Z (height info) / inject_Z h)%Q in
  let shrink := JsNum.max hshrink vshrink in
  (Z.max 1 (JsNum.round (inject_Z (width info) / shrink)%Q),
   Z.max 1 (JsNum.round (inject_Z (height info) / shrink)%Q)).

Definition check_positive (name : string) (n : Z) : completion unit :=
  if 0 <? n then Normal tt
  else Throw ("Expected positive integer for " ++ name).

(** The same check on a computed number, which need not be an integer. *)
Definition positive_integer (name : string) (n : Double.number) : completion Z :=
  match Double.to_integer n with
  | Some z => if 0 <? z then Normal z
              else Throw ("Expected positive integer for " ++ name)
  | None => Throw ("Expected positive integer for " ++ name)
  end.

Definition integer (name : string) (n : Double.number) : completion Z :=
  match Double.to_integer n with
  | Some z => Normal z
  | None => Throw ("Expected integer for " ++ name)
  end.

Definition resize_inside_jpeg (b : Buffer) (w h : Z) : completion Buffer :=
  _ ← check_positive "width" w;
  _ ← check_positive "height" h;
  info ← metadata b;
  let '(ow, oh) := inside_dimensions info w h in
  Normal (toBuffer_jpeg ow oh).

(** [.resize(w, h, { kernel, withoutEnlargement: false })] with the
    default fit: the output is exactly [w] by [h]. *)
Definition resize_jpeg (b : Buffer) (w h : Double.number) : completion Buffer :=
  w' ← positive_integer "width" w;
  h' ← positive_integer "height" h;
  _ ← metadata b;
  Normal (toBuffer_jpeg w' h').

(** [sharp({ create: { width, height, channels: 3, background } })
      .jpeg({...}).composite([{ input, top, left }]).toBuffer()]:
    the output keeps the canvas dimensions; an overlay larger than the
    canvas is refused. *)
Definition create_composite_jpeg (w h : Z) (input : Buffer)
  (top left : Double.number) : completion Buffer :=
  _ ← check_positive "create.width" w;
  _ ← check_positive "create.height" h;
  _ ← integer "top" top;
  _ ← integer "left" left;
  overlay ← metadata input;
  if (width overlay <=? w) && (height overlay <=? h)
  then Normal (toBuffer_jpeg w h)
  else Throw "Image to composite must have same dimensions or smaller".

End Sharp.

(** ** lib/imageProcessor.js *)

Module ImageProcessor.

Import Sharp.

Record Dimensions := { dim_width : Z; dim_height : Z }.

Definition ASPECT_RATIO_DIMENSIONS : list (string * Dimensions) :=
  [ ("1:1",  {| dim_width := 1024; dim_height := 1024 |});
    ("16:9", {| dim_width := 1024; dim_height := 576 |});
    ("9:16", {| dim_width := 576;  dim_height := 1024 |}) ].

(** The literal [0.05]. *)
Definition tolerance : Double.number := Double.literal (5 # 100).

Definition detectAspectRatio (width height : Double.number) : string :=
  let ratio := Double.div width height in
  if Double.ltb (Double.abs (Double.sub ratio 1)) tolerance then "1:1"
  else if Double.ltb (Double.abs (Double.sub ratio (Double.div 16 9))) tolerance
  then "16:9"
  else if Double.ltb (Double.abs (Double.sub ratio (Double.div 9 16))) tolerance
  then "9:16"
  else "other".

(** The numbers [createPaddedImage] computes between reading the metadata
    and building the two pipelines. *)
Record PadGeometry := {
  newWidth : Double.number;
  newHeight : Double.number;
  top : Double.number;
  left : Double.number
}.

Definition padGeometry
  (originalWidth originalHeight targetWidth targetHeight : Double.number)
  : PadGeometry :=
  let scaleWidth := Double.div targetWidth originalWidth in
  let scaleHeight := Double.div targetHeight originalHeight in
  let scale := Double.min scaleWidth scaleHeight in
  let newWidth := Double.round (Double.mul originalWidth scale) in
  let newHeight := Double.round (Double.mul originalHeight scale) in
  {| newWidth := newWidth;
     newHeight := newHeight;
     top := Double.round (Double.div (Double.sub targetHeight newHeight) 2);
     left := Double.round (Double.div (Double.sub targetWidth newWidth) 2) |}.

Definition createPaddedImage (imageBuffer : Buffer) (targetWidth targetHeight : Z)
  : completion Buffer :=
  try_catch
    (metadata ← Sharp.metadata imageBuffer;
     let g := padGeometry (width metadata) (height metadata)
                targetWidth targetHeight in
     resizedImage ← resize_jpeg imageBuffer (newWidth g) (newHeight g);
     paddedImage ← create_composite_jpeg targetWidth targetHeight
                      resizedImage (top g) (left g);
     Normal paddedImage)
    (fun message => Throw ("Image processing failed: " ++ message)).

Record ProcessedImage := {
  buffer : Buffer;
  filename : string
}.

Record ProcessingResult := {
  originalAspectRatio : string;
  processedImages : list (string * ProcessedImage)
}.

Definition variant_filename (characterId outputKey : string) (timestamp : Z)
  : string :=
  "characters/" ++ characterId ++ "/aspect-ratios/" ++ outputKey ++ "-"
    ++ JsNum.to_string timestamp ++ ".jpg".

(** One iteration of the loop over [Object.entries(ASPECT_RATIO_DIMENSIONS)]. *)
Definition processRatio (originalImageBuffer : Buffer) (characterId : string)
  (timestamp : Z) (originalRatio : string)
  (processed : list (string * ProcessedImage))
  (entry : string * Dimensions)
  : completion (list (string * ProcessedImage)) :=
  let '(ratioKey, dimensions) := entry in
  let outputKey := Js.replace ":" "x" ratioKey in
  if String.eqb originalRatio ratioKey then
    optimizedImage ← resize_inside_jpeg originalImageBuffer
                        (dim_width dimensions) (dim_height dimensions);
    Normal (obj_set outputKey
              {| buffer := optimizedImage;
                 filename := variant_filename characterId outputKey timestamp |}
              processed)
  else
    paddedImage ← createPaddedImage originalImageBuffer
                     (dim_width dimensions) (dim_height dimensions);
    Normal (obj_set outputKey
              {| buffer := paddedImage;
                 filename := variant_filename characterId outputKey timestamp |}
              processed).

Fixpoint processRatios (originalImageBuffer : Buffer) (characterId : string)
  (timestamp : Z) (originalRatio : string)
  (processed : list (string * ProcessedImage))
  (entries : list (string * Dimensions))
  : completion (list (string * ProcessedImage)) :=
  match entries with
  | [] => Normal processed
  | entry :: rest =>
      processed' ← processRatio originalImageBuffer characterId timestamp
                      originalRatio processed entry;
      processRatios originalImageBuffer characterId timestamp originalRatio
        processed' rest
  end.

(** [timestamp] is the value [Date.now()] returns during the run. *)
Definition processAllAspectRatios (originalImageBuffer : Buffer)
  (characterId : string) (timestamp : Z) : completion ProcessingResult :=
  try_catch
    (metadata ← Sharp.metadata originalImageBuffer;
     let originalRatio := detectAspectRatio (width metadata) (height metadata) in
     processed ← processRatios originalImageBuffer characterId timestamp
                    originalRatio [] ASPECT_RATIO_DIMENSIONS;
     Normal {| originalAspectRatio := originalRatio;
               processedImages := processed |})
    (fun message => Throw message).

Record ImageMetadata := {
  meta_width : Z;
  meta_height : Z;
  meta_format : string;
  meta_size : Z;
  meta_aspectRatio : string
}.

Definition getImageMetadata (imageBuffer : Buffer) : completion ImageMetadata :=
  try_catch
    (metadata ← Sharp.metadata imageBuffer;
     Normal {| meta_width := width metadata;
               meta_height := height metadata;
               meta_format := format metadata;
               meta_size := Z.of_nat (length (bytes imageBuffer));
               meta_aspectRatio :=
                 detectAspectRatio (width metadata) (height metadata) |})
    (fun message => Throw message).

Inductive Validation :=
| Invalid (error : string)
| Valid (format : string) (size : Z).

Definition signatures : list (string * list Z) :=
  [ ("jpeg", [255; 216]);
    ("png",  [137; 80; 78; 71]);
    ("webp", [82; 73; 70; 70]);
    ("gif",  [71; 73; 70]) ].

(** [imageBuffer.length >= sig.length &&
     sig.every((byte, index) => imageBuffer[index] === byte)]. *)
Fixpoint starts_with (sig data : list Z) : bool :=
  match sig, data with
  | [], _ => true
  | _ :: _, [] => false
  | s :: sig', d :: data' => (s =? d) && starts_with sig' data'
  end.

Fixpoint detectFormat (data : list Z) (sigs : list (string * list Z)) : string :=
  match sigs with
  | [] => "unknown"
  | (format, sig) :: rest =>
      if starts_with sig data then format else detectFormat data rest
  end.

Definition validateImageBuffer (imageBuffer : Buffer) : Validation :=
  if (length (bytes imageBuffer) =? 0)%nat then Invalid "Image buffer is empty"
  else
    let detectedFormat := detectFormat (bytes imageBuffer) signatures in
    if String.eqb detectedFormat "unknown"
    then Invalid "Unrecognized image format"
    else Valid detectedFormat (Z.of_nat (length (bytes imageBuffer))).

End ImageProcessor.

(** ** The platform

    [crypto.createHmac] and [JSON] belong to the runtime.  The MAC is any
    function from a key and a message (both as UTF-8 byte strings) to a raw
    digest; [JSON.parse] is any function from text to a value or a thrown
    [SyntaxError]. *)

#[local] Set Warnings "-register-all".

Inductive json :=
| JNull
| JBool (b : bool)
| JNum (q : Q)
| JStr (s : string)
| JArr (items : list json)
| JObj (fields : list (string * json)).

Class Crypto := {
  hmac_sha256 : string -> string -> string
}.

(** An HMAC-SHA256 digest has 32 bytes. *)
Class CryptoLaws `{Crypto} := {
  hmac_sha256_length :
    forall key message, String.length (hmac_sha256 key message) = 32%nat
}.

Class Json := {
  JSON_parse : string -> completion json;
  JSON_stringify : json -> string;
  ToString : json -> string
}.

Module JsValue.

(** [value.name]; [None] is [undefined]. *)
Definition get_property (name : string) (value : json) : completion (option json) :=
  match value with
  | JNull => Throw ("Cannot read properties of null (reading '" ++ name ++ "')")
  | JObj fields => Normal (obj_get name fields)
  | _ => Normal None
  end.

Definition get_property_opt (name : string) (value : option json)
  : completion (option json) :=
  match value with
  | None =>
      Throw ("Cannot read properties of undefined (reading '" ++ name ++ "')")
  | Some v => get_property name v
  end.

Definition truthy (value : option json) : bool :=
  match value with
  | None | Some JNull => false
  | Some (JBool b) => b
  | Some (JNum q) => negb (Qeq_bool q 0)
  | Some (JStr s) => negb (String.eqb s "")
  | Some (JArr _) | Some (JObj _) => true
  end.

(** String conversion as done by template literals and by the clients. *)
Definition to_string `{Json} (value : json) : string :=
  match value with
  | JStr s => s
  | _ => ToString value
  end.

End JsValue.

(** ** lib/auth.js *)

Module Auth.

Definition hex_digit (n : N) : ascii :=
  if (n <? 10)%N then ascii_of_N (48 + n) else ascii_of_N (87 + n).

(** [digest('hex')]: two lower-case digits per byte. *)
Fixpoint hex_encode (data : string) : string :=
  match data with
  | EmptyString => EmptyString
  | String c rest =>
      let n := N_of_ascii c in
      String (hex_digit (n / 16)) (String (hex_digit (n mod 16)) (hex_encode rest))
  end.

Definition hex_value (c : ascii) : option N :=
  let n := N_of_ascii c in
  if ((48 <=? n) && (n <=? 57))%N then Some (n - 48)%N
  else if ((97 <=? n) && (n <=? 102))%N then Some (n - 87)%N
  else if ((65 <=? n) && (n <=? 70))%N then Some (n - 55)%N
  else None.

(** [Buffer.from(text, 'hex')]: pairs of digits are decoded from the left;
    decoding stops at the first pair that is not two hex digits, and a
    trailing single character is dropped. *)
Fixpoint Buffer_from_hex (text : string) : string :=
  match text with
  | String a (String b rest) =>
      match hex_value a, hex_value b with
      | Some hi, Some lo =>
          String (ascii_of_N (16 * hi + lo)) (Buffer_from_hex rest)
      | _, _ => EmptyString
      end
  | _ => EmptyString
  end.

(** [crypto.timingSafeEqual(a, b)] throws on buffers of different length. *)
Definition timingSafeEqual (a b : string) : completion bool :=
  if (String.length a =? String.length b)%nat
  then Normal (String.eqb a b)
  else Throw "Input buffers must have the same byte length".

Section WithPlatform.

Context `{Crypto} `{Json}.

Definition createHmac_sha256_hex (secret payload : string) : string :=
  hex_encode (hmac_sha256 secret payload).

(** A missing argument ([undefined]) is [None]. *)
Definition verifyWebhookSignature (payload signature secret : option string)
  : completion bool :=
  try_catch
    (if negb (Js.truthy payload) || negb (Js.truthy signature)
        || negb (Js.truthy secret)
     then Normal false
     else
       match payload, signature, secret with
       | Some payload, Some signature, Some secret =>
           let cleanSignature := Js.strip_prefix "sha256=" signature in
           let expectedSignature := createHmac_sha256_hex secret payload in
           timingSafeEqual (Buffer_from_hex cleanSignature)
                           (Buffer_from_hex expectedSignature)
       | _, _, _ => Normal false
       end)
    (fun _ => Normal false).

Definition generateWebhookSignature (payload secret : string) : string :=
  let signature := createHmac_sha256_hex secret payload in
  "sha256=" ++ signature.

Record HeaderValidation := {
  hv_success : bool;
  hv_errors : list string
}.

Definition validateWebhookHeaders (headers : gmap string string)
  : HeaderValidation :=
  let errors := [] in
  let errors :=
    if negb (match headers !! "content-type" with
             | Some value => Js.includes "application/json" value
             | None => false
             end)
    then (errors ++ ["Missing or invalid Content-Type header"])%list
    else errors in
  let errors :=
    if negb (Js.truthy (headers !! "x-webhook-signature"))
    then (errors ++ ["Missing X-Webhook-Signature header"])%list
    else errors in
  {| hv_success := (length errors =? 0)%nat; hv_errors := errors |}.

Inductive ParseResult :=
| ParseOk (data : json)
| ParseError (error : string).

Definition parseWebhookPayload (body : string) : ParseResult :=
  match
    (if negb (Js.truthy (Some body)) then Throw "Empty request body"
     else
       payload ← JSON_parse body;
       characterId ← JsValue.get_property "characterId" payload;
       if negb (JsValue.truthy characterId)
       then Throw "Missing characterId in payload"
       else
         imageUrl ← JsValue.get_property "imageUrl" payload;
         if negb (JsValue.truthy imageUrl)
         then Throw "Missing imageUrl in payload"
         else Normal payload)
  with
  | Normal payload => ParseOk payload
  | Throw message => ParseError message
  end.

End WithPlatform.

(** Response envelopes; [timestamp] is the clock reading that
    [new Date().toISOString()] renders. *)
Record ErrorResponse := {
  er_error : string;
  er_statusCode : Z;
  er_timestamp : Z
}.

Definition createErrorResponse (message : string) (statusCode : option Z)
  (now : Z) : ErrorResponse :=
  {| er_error := message;
     er_statusCode := default 400 statusCode;
     er_timestamp := now |}.

End Auth.

(** ** HMAC-SHA256 as the runtime computes it

    The instance of [Crypto] used for concrete runs: SHA-256 (FIPS 180-4)
    and HMAC (RFC 2104) over byte strings.  The round constants are derived
    from the primes rather than tabulated. *)

Module NodeCrypto.

Definition w32 (x : Z) : Z := x mod 2 ^ 32.

Definition rotr (n x : Z) : Z :=
  w32 (Z.lor (Z.shiftr x n) (Z.shiftl x (32 - n))).

Definition Ch (x y z : Z) : Z :=
  Z.lxor (Z.land x y) (Z.land (w32 (Z.lnot x)) z).

Definition Maj (x y z : Z) : Z :=
  Z.lxor (Z.lxor (Z.land x y) (Z.land x z)) (Z.land y z).

Definition Sigma0 (x : Z) : Z := Z.lxor (Z.lxor (rotr 2 x) (rotr 13 x)) (rotr 22 x).
Definition Sigma1 (x : Z) : Z := Z.lxor (Z.lxor (rotr 6 x) (rotr 11 x)) (rotr 25 x).
Definition sigma0 (x : Z) : Z := Z.lxor (Z.lxor (rotr 7 x) (rotr 18 x)) (Z.shiftr x 3).
Definition sigma1 (x : Z) : Z := Z.lxor (Z.lxor (rotr 17 x) (rotr 19 x)) (Z.shiftr x 10).

(** The first primes, by trial division. *)
Definition is_prime (n : Z) : bool :=
  forallb (fun d => negb (n mod d =? 0) || (n <=? d))
          (map Z.of_nat (seq 2 18)).

Definition first_primes (count : nat) : list Z :=
  firstn count (filter is_prime (map Z.of_nat (seq 2 320))).

(** Integer cube root of a number below [2 ^ 123], bit by bit. *)
Fixpoint cube_root_bits (bit : nat) (n r : Z) : Z :=
  let candidate := r + 2 ^ Z.of_nat bit in
  let r' := if candidate * candidate * candidate <=? n then candidate else r in
  match bit with
  | O => r'
  | S bit' => cube_root_bits bit' n r'
  end.

Definition initial_hash : list Z :=
  Eval vm_compute in map (fun p => w32 (Z.sqrt (p * 2 ^ 64))) (first_primes 8).

Definition round_constants : list Z :=
  Eval vm_compute in
    map (fun p => w32 (cube_root_bits 40 (p * 2 ^ 96) 0)) (first_primes 64).

Record State := {
  sa : Z; sb : Z; sc : Z; sd : Z; se : Z; sf : Z; sg : Z; sh : Z
}.

Definition state_of_list (l : list Z) : State :=
  {| sa := nth 0 l 0; sb := nth 1 l 0; sc := nth 2 l 0; sd := nth 3 l 0;
     se := nth 4 l 0; sf := nth 5 l 0; sg := nth 6 l 0; sh := nth 7 l 0 |}.

Definition round (s : State) (kw : Z * Z) : State :=
  let '(k, w) := kw in
  let t1 := w32 (sh s + Sigma1 (se s) + Ch (se s) (sf s) (sg s) + k + w) in
  let t2 := w32 (Sigma0 (sa s) + Maj (sa s) (sb s) (sc s)) in
  {| sa := w32 (t1 + t2); sb := sa s; sc := sb s; sd := sc s;
     se := w32 (sd s + t1); sf := se s; sg := sf s; sh := sg s |}.

(** The message schedule, most recent word first. *)
Fixpoint extend_schedule (count : nat) (recent : list Z) : list Z :=
  match count with
  | O => recent
  | S count' =>
      let word := w32 (sigma1 (nth 1 recent 0) + nth 6 recent 0
                       + sigma0 (nth 14 recent 0) + nth 15 recent 0) in
      extend_schedule count' (word :: recent)
  end.

Fixpoint words_of_bytes (data : list Z) : list Z :=
  match data with
  | b0 :: b1 :: b2 :: b3 :: rest =>
      (b0 * 2 ^ 24 + b1 * 2 ^ 16 + b2 * 2 ^ 8 + b3) :: words_of_bytes rest
  | _ => []
  end.

Definition bytes_of_word (w : Z) : list Z :=
  [Z.shiftr w 24 mod 256; Z.shiftr w 16 mod 256; Z.shiftr w 8 mod 256; w mod 256].

Definition compress (s : State) (block : list Z) : State :=
  let schedule := rev (extend_schedule 48 (rev (words_of_bytes block))) in
  let s' := fold_left round (combine round_constants schedule) s in
  {| sa := w32 (sa s + sa s'); sb := w32 (sb s + sb s');
     sc := w32 (sc s + sc s'); sd := w32 (sd s + sd s');
     se := w32 (se s + se s'); sf := w32 (sf s + sf s');
     sg := w32 (sg s + sg s'); sh := w32 (sh s + sh s') |}.

Definition pad (data : list Z) : list Z :=
  let len := Z.of_nat (length data) in
  let zeros := Z.to_nat ((55 - len) mod 64) in
  (data ++ [128] ++ repeat 0 zeros
     ++ bytes_of_word (Z.shiftr (8 * len) 32) ++ bytes_of_word (w32 (8 * len)))%list.

Fixpoint blocks (count : nat) (data : list Z) : list (list Z) :=
  match count with
  | O => []
  | S count' => firstn 64 data :: blocks count' (skipn 64 data)
  end.

Definition sha256 (data : list Z) : list Z :=
  let padded := pad data in
  let s := fold_left compress (blocks (length padded / 64) padded)
             (state_of_list initial_hash) in
  concat (map bytes_of_word
            [sa s; sb s; sc s; sd s; se s; sf s; sg s; sh s]).

Definition hmac (key message : list Z) : list Z :=
  let key := if (64 <? length key)%nat then sha256 key else key in
  let key := (key ++ repeat 0 (64 - length key))%list in
  let ipad := map (Z.lxor 54) key in
  let opad := map (Z.lxor 92) key in
  sha256 (opad ++ sha256 (ipad ++ message))%list.

Definition bytes_of_string (s : string) : list Z :=
  map (fun c => Z.of_N (N_of_ascii c)) (list_ascii_of_string s).

Definition string_of_bytes (data : list Z) : string :=
  string_of_list_ascii (map (fun b => ascii_of_N (Z.to_N b)) data).

#[export] Instance crypto : Crypto := {|
  hmac_sha256 secret payload :=
    string_of_bytes (hmac (bytes_of_string secret) (bytes_of_string payload))
|}.

End NodeCrypto.

(** ** lib/supabase.js

    The backend is a table of character rows and a bucket of stored
    objects.  Every call of the client is one request; the [fault] oracle
    says, for the n-th request, whether the backend answers with an error.
    The client reports errors in its result, it does not throw.  The world
    keeps the log of the requests made and of how each was answered. *)

Module Supabase.

Import Sharp.

Inductive Status := pending | processing | completed | failed.

Record Character := {
  aspect_ratio_status : option Status;
  aspect_ratio_error : option string;
  aspect_ratio_1x1_url : option string;
  aspect_ratio_16x9_url : option string;
  aspect_ratio_9x16_url : option string;
  original_aspect_ratio : option string;
  updated_at : Z
}.

(** The two shapes of [updateData]; a field that is [undefined] is left out
    of the update. *)
Inductive Patch :=
| StatusPatch (status : Status) (error : option string) (at_ : Z)
| AspectRatiosPatch (url_1x1 url_16x9 url_9x16 : option string)
    (original : string) (at_ : Z).

Definition apply_patch (patch : Patch) (row : Character) : Character :=
  match patch with
  | StatusPatch status error at_ =>
      {| aspect_ratio_status := Some status;
         aspect_ratio_error :=
           match error with
           | Some e => Some e
           | None => aspect_ratio_error row
           end;
         aspect_ratio_1x1_url := aspect_ratio_1x1_url row;
         aspect_ratio_16x9_url := aspect_ratio_16x9_url row;
         aspect_ratio_9x16_url := aspect_ratio_9x16_url row;
         original_aspect_ratio := original_aspect_ratio row;
         updated_at := at_ |}
  | AspectRatiosPatch u1 u2 u3 original at_ =>
      {| aspect_ratio_status := Some completed;
         aspect_ratio_error := aspect_ratio_error row;
         aspect_ratio_1x1_url :=
           match u1 with Some u => Some u | None => aspect_ratio_1x1_url row end;
         aspect_ratio_16x9_url :=
           match u2 with Some u => Some u | None => aspect_ratio_16x9_url row end;
         aspect_ratio_9x16_url :=
           match u3 with Some u => Some u | None => aspect_ratio_9x16_url row end;
         original_aspect_ratio := Some original;
         updated_at := at_ |}
  end.

Record StoredObject := {
  path : string;
  created_at : Z;
  content : Buffer
}.

Inductive Request :=
| DbUpdate (id : string) (patch : Patch)
| DbSelectSingle (id : string)
| StorageUpload (path : string)
| StorageList (folder : string)
| StorageRemove (paths : list string).

Record Exchange := {
  request : Request;
  error : option string
}.

Record Response := {
  res_status : Z;
  res_statusText : string;
  res_body : Buffer
}.

Inductive FetchOutcome :=
| FetchRejected (message : string)
| FetchResolved (response : Response).

Record World := {
  env_SUPABASE_URL : option string;
  env_SUPABASE_SERVICE_ROLE_KEY : option string;
  env_WEBHOOK_SECRET : option string;
  characters : gmap string Character;
  uploads : list StoredObject;
  now : Z;
  fault : nat -> Request -> option string;
  fetch : string -> json -> FetchOutcome;
  arrival : nat -> nat;
  log : list Exchange
}.

Definition set_characters (f : gmap string Character -> gmap string Character)
  (w : World) : World :=
  {| env_SUPABASE_URL := env_SUPABASE_URL w;
     env_SUPABASE_SERVICE_ROLE_KEY := env_SUPABASE_SERVICE_ROLE_KEY w;
     env_WEBHOOK_SECRET := env_WEBHOOK_SECRET w;
     characters := f (characters w);
     uploads := uploads w;
     now := now w;
     fault := fault w;
     fetch := fetch w;
     arrival := arrival w;
     log := log w |}.

Definition set_uploads (f : list StoredObject -> list StoredObject)
  (w : World) : World :=
  {| env_SUPABASE_URL := env_SUPABASE_URL w;
     env_SUPABASE_SERVICE_ROLE_KEY := env_SUPABASE_SERVICE_ROLE_KEY w;
     env_WEBHOOK_SECRET := env_WEBHOOK_SECRET w;
     characters := characters w;
     uploads := f (uploads w);
     now := now w;
     fault := fault w;
     fetch := fetch w;
     arrival := arrival w;
     log := log w |}.

Definition record (r : Request) (answer : option string) (w : World) : World :=
  {| env_SUPABASE_URL := env_SUPABASE_URL w;
     env_SUPABASE_SERVICE_ROLE_KEY := env_SUPABASE_SERVICE_ROLE_KEY w;
     env_WEBHOOK_SECRET := env_WEBHOOK_SECRET w;
     characters := characters w;
     uploads := uploads w;
     now := now w;
     fault := fault w;
     fetch := fetch w;
     arrival := arrival w;
     log := (log w ++ [{| request := r; error := answer |}])%list |}.

(** Asynchronous code: a computation over the world that returns or throws. *)
Definition M (A : Type) : Type := World -> completion A * World.

#[export] Instance M_ret : MRet M := fun A a w => (Normal a, w).

#[export] Instance M_bind : MBind M := fun A B k m w =>
  match m w with
  | (Normal a, w') => k a w'
  | (Throw message, w') => (Throw message, w')
  end.

Definition lift {A : Type} (c : completion A) : M A := fun w => (c, w).

Definition throw {A : Type} (message : string) : M A :=
  fun w => (Throw message, w).

Definition try_catchM {A : Type} (body : M A) (handler : string -> M A) : M A :=
  fun w =>
    match body w with
    | (Normal a, w') => (Normal a, w')
    | (Throw message, w') => handler message w'
    end.

Definition read {A : Type} (f : World -> A) : M A := fun w => (Normal (f w), w).

(** A request reaches the backend, which answers with an error or lets
    [effect] happen and answers with [answer]. *)
Definition call {A : Type} (r : Request) (answer : World -> string + A)
  (effect : World -> World) : M (string + A) :=
  fun w =>
    let reply :=
      match fault w (length (log w)) r with
      | Some message => inl message
      | None => answer w
      end in
    match reply with
    | inl message => (Normal (inl message), record r (Some message) w)
    | inr a => (Normal (inr a), effect (record r None w))
    end.

(** [.from('characters').update(data).eq('id', id).select()]. *)
Definition from_characters_update (id : string) (patch : Patch)
  : M (string + list Character) :=
  call (DbUpdate id patch)
    (fun w => inr (match characters w !! id with
                   | Some row => [apply_patch patch row]
                   | None => []
                   end))
    (set_characters (alter (apply_patch patch) id)).

(** [.from('characters').select('*').eq('id', id).single()]. *)
Definition from_characters_select_single (id : string) : M (string + Character) :=
  call (DbSelectSingle id)
    (fun w => match characters w !! id with
              | Some row => inr row
              | None => inl "JSON object requested, multiple (or no) rows returned"
              end)
    (fun w => w).

Definition object_exists (p : string) (objects : list StoredObject) : bool :=
  existsb (fun o => String.eqb (path o) p) objects.

(** [.storage.from('uploads').upload(path, buffer, { upsert: false })]. *)
Definition storage_upload (p : string) (data : Buffer) : M (string + string) :=
  call (StorageUpload p)
    (fun w => if object_exists p (uploads w)
              then inl "The resource already exists"
              else inr p)
    (fun w => set_uploads
                (fun objects =>
                   (objects ++ [{| path := p; created_at := now w;
                                   content := data |}])%list) w).

Definition storage_getPublicUrl (p : string) (w : World) : string :=
  default "" (env_SUPABASE_URL w) ++ "/storage/v1/object/public/uploads/" ++ p.

Record FileObject := {
  name : string;
  file_created_at : Z
}.

(** The entry of an object in the listing of [folder], if it lies there. *)
Definition entry_in (folder : string) (o : StoredObject) : option FileObject :=
  let prefix := folder ++ "/" in
  if String.prefix prefix (path o)
  then
    let rest := Js.drop (String.length prefix) (path o) in
    if Js.includes "/" rest then None
    else Some {| name := rest; file_created_at := created_at o |}
  else None.

(** The order in which the storage returns the entries: by name,
    ascending. *)
Fixpoint insert_by_name (f : FileObject) (sorted : list FileObject)
  : list FileObject :=
  match sorted with
  | [] => [f]
  | g :: rest =>
      if String.leb (name f) (name g)
      then f :: g :: rest
      else g :: insert_by_name f rest
  end.

Definition sort_by_name (files : list FileObject) : list FileObject :=
  fold_right insert_by_name [] files.

(** What a call of [list] without options asks for: the client sends its
    defaults [{ limit: 100, offset: 0, sortBy: { column: 'name',
    order: 'asc' } }], so the answer is the first 100 entries by name. *)
Definition first_page (files : list FileObject) : list FileObject :=
  firstn 100 (sort_by_name files).

(** [.storage.from('uploads').list(folder)]. *)
Definition storage_list (folder : string) : M (string + list FileObject) :=
  call (StorageList folder)
    (fun w => inr (first_page (omap (entry_in folder) (uploads w))))
    (fun w => w).

(** [.storage.from('uploads').remove(paths)]. *)
Definition storage_remove (paths : list string) : M (string + unit) :=
  call (StorageRemove paths)
    (fun _ => inr tt)
    (set_uploads
       (filter (fun o => negb (existsb (String.eqb (path o)) paths)))).

Definition getSupabaseClient : M unit :=
  fun w =>
    if negb (Js.truthy (env_SUPABASE_URL w))
       || negb (Js.truthy (env_SUPABASE_SERVICE_ROLE_KEY w))
    then (Throw "Missing Supabase environment variables", w)
    else (Normal tt, w).

Record UploadResult := {
  up_path : string;
  publicUrl : string
}.

Definition uploadImageToStorage (imageBuffer : Buffer) (fileName : string)
  : M UploadResult :=
  try_catchM
    (_ ← getSupabaseClient;
     result ← storage_upload fileName imageBuffer;
     match result with
     | inl message => throw ("Storage upload failed: " ++ message)
     | inr data =>
         url ← read (storage_getPublicUrl fileName);
         mret {| up_path := data; publicUrl := url |}
     end)
    (fun message => throw message).

Definition updateCharacterAspectRatios (characterId : string)
  (aspectRatioUrls : gmap string string) (originalAspectRatio : string)
  : M (option Character) :=
  try_catchM
    (_ ← getSupabaseClient;
     at_ ← read now;
     let updateData :=
       AspectRatiosPatch (aspectRatioUrls !! "1x1") (aspectRatioUrls !! "16x9")
         (aspectRatioUrls !! "9x16") originalAspectRatio at_ in
     result ← from_characters_update characterId updateData;
     match result with
     | inl message => throw ("Database update failed: " ++ message)
     | inr data => mret (head data)
     end)
    (fun message => throw message).

Definition getCharacterById (characterId : string) : M Character :=
  try_catchM
    (_ ← getSupabaseClient;
     result ← from_characters_select_single characterId;
     match result with
     | inl message => throw ("Failed to get character: " ++ message)
     | inr data => mret data
     end)
    (fun message => throw message).

Definition updateAspectRatioStatus (characterId : string) (status : Status)
  (errorMessage : option string) : M (option Character) :=
  try_catchM
    (_ ← getSupabaseClient;
     at_ ← read now;
     let updateData :=
       StatusPatch status
         (if Js.truthy errorMessage then errorMessage else None) at_ in
     result ← from_characters_update characterId updateData;
     match result with
     | inl message => throw ("Status update failed: " ++ message)
     | inr data => mret (head data)
     end)
    (fun message => throw message).

Definition response_ok (r : Response) : bool :=
  (200 <=? res_status r) && (res_status r <=? 299).

Definition downloadImage (imageUrl : string) (timeout : json) : M Buffer :=
  try_catchM
    (outcome ← read (fun w => fetch w imageUrl timeout);
     match outcome with
     | FetchRejected message => throw message
     | FetchResolved response =>
         if negb (response_ok response)
         then throw ("HTTP " ++ JsNum.to_string (res_status response) ++ ": "
                       ++ res_statusText response)
         else mret (res_body response)
     end)
    (fun message => throw message).

(** [files.sort((a, b) => new Date(b.created_at) - new Date(a.created_at))]:
    a stable sort, newest first. *)
Fixpoint insert_newest_first (f : FileObject) (sorted : list FileObject)
  : list FileObject :=
  match sorted with
  | [] => [f]
  | g :: rest =>
      if file_created_at g <? file_created_at f
      then f :: g :: rest
      else g :: insert_newest_first f rest
  end.

Definition sort_newest_first (files : list FileObject) : list FileObject :=
  fold_left (fun sorted f => insert_newest_first f sorted) files [].

Definition cleanupOldAspectRatioFiles (characterId : string) : M unit :=
  try_catchM
    (_ ← getSupabaseClient;
     let folder := "characters/" ++ characterId ++ "/aspect-ratios" in
     listing ← storage_list folder;
     match listing with
     | inl _ => mret tt
     | inr files =>
         if (length files =? 0)%nat then mret tt
         else
           let filesToRemove :=
             map (fun file => folder ++ "/" ++ name file)
                 (skipn 3 (sort_newest_first files)) in
           if (0 <? length filesToRemove)%nat
           then _ ← storage_remove filesToRemove; mret tt
           else mret tt
     end)
    (fun _ => mret tt).

End Supabase.

(** ** api/process.js *)

Module Process.

Import Sharp ImageProcessor Auth Supabase.

(** [req.body] as the host hands it over: absent, text, a [Buffer], or an
    already parsed JSON value.  The handler reads a [Buffer] through
    [toString()] only, so a [Buffer] is given by the text that
    [toString()] decodes from it (UTF-8, with U+FFFD for the bytes that are
    no UTF-8). *)
Inductive Body :=
| BodyUndefined
| BodyString (text : string)
| BodyBuffer (decoded : string)
| BodyValue (value : json).

Record HttpRequest := {
  method : string;
  headers : gmap string string;
  body : Body
}.

Record ResponseData := {
  rd_characterId : string;
  rd_originalAspectRatio : string;
  rd_aspectRatioUrls : gmap string string;
  rd_originalDimensions : string;
  rd_originalFormat : string;
  rd_originalSize : Z;
  rd_processedCount : Z
}.

Inductive ResponseBody :=
| NoBody
| ErrorBody (response : ErrorResponse)
| SuccessBody (message : string) (data : ResponseData) (timestamp : Z).

Record HttpResponse := {
  statusCode : Z;
  responseHeaders : list (string * string);
  responseBody : ResponseBody
}.

(** [Promise.all]: every promise has been started; the result is the list
    of values, or the reason of the rejection that arrives first.
    [arrival i] is the time at which the i-th promise settles. *)
Fixpoint first_rejection {A : Type} (arrival : nat -> nat) (index : nat)
  (settled : list (completion A)) (first : option (nat * string))
  : option (nat * string) :=
  match settled with
  | [] => first
  | Normal _ :: rest => first_rejection arrival (S index) rest first
  | Throw message :: rest =>
      let first' :=
        match first with
        | Some (time, _) =>
            if (arrival index <? time)%nat
            then Some (arrival index, message) else first
        | None => Some (arrival index, message)
        end in
      first_rejection arrival (S index) rest first'
  end.

Fixpoint fulfilled {A : Type} (settled : list (completion A)) : list A :=
  match settled with
  | [] => []
  | Normal a :: rest => a :: fulfilled rest
  | Throw _ :: rest => fulfilled rest
  end.

Definition Promise_all {A : Type} (arrival : nat -> nat)
  (settled : list (completion A)) : completion (list A) :=
  match first_rejection arrival 0 settled None with
  | Some (_, message) => Throw message
  | None => Normal (fulfilled settled)
  end.

(** The status code chosen from the text of the error. *)
Definition statusCodeFor (message : string) : Z :=
  if Js.includes "not found" message || Js.includes "404" message then 404
  else if Js.includes "timeout" message || Js.includes "TIMEOUT" message then 408
  else if Js.includes "too large" message || Js.includes "limit" message then 413
  else if Js.includes "invalid" message || Js.includes "malformed" message then 400
  else 500.

Definition respond (status : Z) (responseBody : ResponseBody) : HttpResponse :=
  {| statusCode := status; responseHeaders := []; responseBody := responseBody |}.

(** [res.status(status).json(createErrorResponse(message, code))]. *)
Definition respondError (status : Z) (message : string) (code : option Z)
  : M HttpResponse :=
  at_ ← read now;
  mret (respond status (ErrorBody (createErrorResponse message code at_))).

Section WithPlatform.

Context `{Crypto} `{Json}.

Definition rawBodyOf (b : Body) : option string :=
  match b with
  | BodyString text => Some text
  | BodyValue (JStr text) => Some text
  | BodyBuffer decoded => Some decoded
  | BodyValue (JObj fields) => Some (JSON_stringify (JObj fields))
  | BodyValue (JArr items) => Some (JSON_stringify (JArr items))
  | _ => None
  end.

(** What the handler knows once the payload is parsed. *)
Record Job := {
  characterId : json;
  imageUrl : json;
  options : json
}.

(** The first part of the [try] block, up to the assignment of
    [characterId]: either a response is returned or the job is known. *)
Definition receive (req : HttpRequest) : M (HttpResponse + Job) :=
  let headerValidation := validateWebhookHeaders (headers req) in
  if negb (hv_success headerValidation)
  then
    r ← respondError 400
          ("Invalid headers: " ++ String.concat ", " (hv_errors headerValidation))
          None;
    mret (inl r)
  else
    match rawBodyOf (body req) with
    | None =>
        r ← respondError 400 "Invalid request body format" None; mret (inl r)
    | Some rawBody =>
        let signature := headers req !! "x-webhook-signature" in
        webhookSecret ← read env_WEBHOOK_SECRET;
        if negb (Js.truthy webhookSecret)
        then r ← respondError 500 "Server configuration error" None; mret (inl r)
        else
          verified ← lift (verifyWebhookSignature (Some rawBody) signature
                             webhookSecret);
          if negb verified
          then r ← respondError 401 "Invalid webhook signature" None; mret (inl r)
          else
            match parseWebhookPayload rawBody with
            | ParseError error => r ← respondError 400 error None; mret (inl r)
            | ParseOk data =>
                parsedCharacterId ← lift (JsValue.get_property "characterId" data);
                imageUrl ← lift (JsValue.get_property "imageUrl" data);
                options ← lift (JsValue.get_property "options" data);
                mret (inr {| characterId := default JNull parsedCharacterId;
                             imageUrl := default JNull imageUrl;
                             options := default (JObj []) options |})
            end
    end.

(** The uploads are all started, in the order of the entries, before any
    of them is awaited. *)
Fixpoint startUploads (images : list (string * ProcessedImage))
  (w : World) : list (string * completion UploadResult) * World :=
  match images with
  | [] => ([], w)
  | (ratioKey, imageData) :: rest =>
      let '(outcome, w1) :=
        uploadImageToStorage (buffer imageData) (filename imageData) w in
      let '(outcomes, w2) := startUploads rest w1 in
      ((ratioKey, outcome) :: outcomes, w2)
  end.

(** The [.then] callbacks of the uploads that succeeded. *)
Fixpoint collectUrls (outcomes : list (string * completion UploadResult))
  (aspectRatioUrls : gmap string string) : gmap string string :=
  match outcomes with
  | [] => aspectRatioUrls
  | (ratioKey, Normal result) :: rest =>
      collectUrls rest (<[ratioKey := publicUrl result]> aspectRatioUrls)
  | (_, Throw _) :: rest => collectUrls rest aspectRatioUrls
  end.

(** [cleanupOldAspectRatioFiles(characterId).catch(...)], not awaited. *)
Definition detached (task : M unit) : M unit :=
  fun w => (Normal tt, snd (task w)).

(** The rest of the [try] block. *)
Definition process (job : Job) : M HttpResponse :=
  let characterId := JsValue.to_string (characterId job) in
  _ ← updateAspectRatioStatus characterId processing None;
  found ← try_catchM (_ ← getCharacterById characterId; mret true)
                     (fun _ => mret false);
  if negb found
  then
    _ ← updateAspectRatioStatus characterId failed (Some "Character not found");
    respondError 404 "Character not found" None
  else
    timeout ← lift (JsValue.get_property "timeout" (options job));
    let timeout := if JsValue.truthy timeout then default JNull timeout
                   else JNum 30000 in
    imageBuffer ← downloadImage (JsValue.to_string (imageUrl job)) timeout;
    match validateImageBuffer imageBuffer with
    | Invalid error =>
        let errorMsg := "Invalid image: " ++ error in
        _ ← updateAspectRatioStatus characterId failed (Some errorMsg);
        respondError 400 errorMsg None
    | Valid _ _ =>
        metadata ← lift (getImageMetadata imageBuffer);
        timestamp ← read now;
        processingResult ←
          lift (processAllAspectRatios imageBuffer characterId timestamp);
        let originalAspectRatio := originalAspectRatio processingResult in
        let processedImages := processedImages processingResult in
        outcomes ← (fun w => let '(o, w') := startUploads processedImages w in
                             (Normal o, w'));
        order ← read arrival;
        _ ← lift (Promise_all order (map snd outcomes));
        let aspectRatioUrls := collectUrls outcomes ∅ in
        _ ← updateCharacterAspectRatios characterId aspectRatioUrls
              originalAspectRatio;
        _ ← detached (cleanupOldAspectRatioFiles characterId);
        at_ ← read now;
        mret (respond 200
                (SuccessBody "Aspect ratios processed successfully"
                   {| rd_characterId := characterId;
                      rd_originalAspectRatio := originalAspectRatio;
                      rd_aspectRatioUrls := aspectRatioUrls;
                      rd_originalDimensions :=
                        JsNum.to_string (meta_width metadata) ++ "x"
                          ++ JsNum.to_string (meta_height metadata);
                      rd_originalFormat := meta_format metadata;
                      rd_originalSize := meta_size metadata;
                      rd_processedCount :=
                        Z.of_nat (length processedImages) |}
                   at_))
    end.

(** The [catch] block; [characterId] is [None] while the variable is still
    [null]. *)
Definition onError (characterId : option json) (message : string)
  : M HttpResponse :=
  _ ← (if JsValue.truthy characterId
       then try_catchM
              (_ ← updateAspectRatioStatus
                     (JsValue.to_string (default JNull characterId))
                     failed (Some message);
               mret tt)
              (fun _ => mret tt)
       else mret tt);
  let statusCode := statusCodeFor message in
  respondError statusCode ("Processing failed: " ++ message) (Some statusCode).

Definition handler (req : HttpRequest) : M HttpResponse :=
  if String.eqb (method req) "OPTIONS"
  then
    mret {| statusCode := 200;
            responseHeaders :=
              [ ("Access-Control-Allow-Origin", "*");
                ("Access-Control-Allow-Methods", "POST, OPTIONS");
                ("Access-Control-Allow-Headers",
                 "Content-Type, X-Webhook-Signature") ];
            responseBody := NoBody |}
  else if negb (String.eqb (method req) "POST")
  then respondError 405 "Method not allowed" (Some 405)
  else
    received ← try_catchM (receive req)
                 (fun message => r ← onError None message; mret (inl r));
    match received with
    | inl response => mret response
    | inr job => try_catchM (process job) (onError (Some (characterId job)))
    end.

End WithPlatform.

End Process.

(** ** JSON as the runtime reads and writes it

    The instance of [Json] used for concrete runs; the general statements
    hold for every instance.  It covers the JSON the service exchanges:
    objects, arrays, strings with the simple escapes, integers and the
    three literals.  It is not all of [JSON.parse]: fractions, exponents
    and [\u] escapes are not read, and every syntax error has the same
    message, without the position that the runtime adds. *)

Module NodeJson.

Definition double_quote : ascii := ascii_of_N 34.

Definition backslash : ascii := ascii_of_N 92.

Definition is_space (c : ascii) : bool :=
  let n := N_of_ascii c in
  ((n =? 32) || (n =? 9) || (n =? 10) || (n =? 13))%N.

Definition is_digit (c : ascii) : bool :=
  let n := N_of_ascii c in ((48 <=? n) && (n <=? 57))%N.

Fixpoint skip_space (s : string) : string :=
  match s with
  | String c rest => if is_space c then skip_space rest else s
  | EmptyString => s
  end.

Definition unescape (c : ascii) : option ascii :=
  if Ascii.eqb c double_quote then Some double_quote
  else if Ascii.eqb c backslash then Some backslash
  else if Ascii.eqb c "/" then Some "/"%char
  else if Ascii.eqb c "n" then Some (ascii_of_N 10)
  else if Ascii.eqb c "t" then Some (ascii_of_N 9)
  else if Ascii.eqb c "r" then Some (ascii_of_N 13)
  else if Ascii.eqb c "b" then Some (ascii_of_N 8)
  else if Ascii.eqb c "f" then Some (ascii_of_N 12)
  else None.

(** The characters of a string literal after its opening quote. *)
Fixpoint read_string (s : string) : option (string * string) :=
  match s with
  | EmptyString => None
  | String c rest =>
      if Ascii.eqb c double_quote then Some (EmptyString, rest)
      else if Ascii.eqb c backslash then
        match rest with
        | String e rest' =>
            match unescape e, read_string rest' with
            | Some c', Some (text, rest'') => Some (String c' text, rest'')
            | _, _ => None
            end
        | EmptyString => None
        end
      else if (N_of_ascii c <? 32)%N then None
      else
        match read_string rest with
        | Some (text, rest') => Some (String c text, rest')
        | None => None
        end
  end.

Fixpoint read_digits (s : string) (value : Z) : Z * string :=
  match s with
  | String c rest =>
      if is_digit c
      then read_digits rest (10 * value + Z.of_N (N_of_ascii c) - 48)
      else (value, s)
  | EmptyString => (value, s)
  end.

Definition read_number (s : string) : option (Z * string) :=
  match s with
  | String c rest =>
      if Ascii.eqb c "-" then
        match rest with
        | String d _ =>
            if is_digit d
            then let '(n, rest') := read_digits rest 0 in Some (- n, rest')
            else None
        | EmptyString => None
        end
      else if is_digit c then Some (read_digits s 0)
      else None
  | EmptyString => None
  end.

Definition read_literal (word : string) (value : json) (s : string)
  : option (json * string) :=
  if String.prefix word s then Some (value, Js.drop (String.length word) s)
  else None.

(** A member in front of the members that follow it: a later member with
    the same key overrides the value and the key keeps its first place. *)
Definition first_member (key : string) (value : json)
  (later : list (string * json)) : list (string * json) :=
  (key, default value (obj_get key later))
    :: filter (fun field => negb (String.eqb (fst field) key)) later.

Fixpoint read_value (fuel : nat) (s : string) : option (json * string) :=
  match fuel with
  | O => None
  | S fuel' =>
      match skip_space s with
      | EmptyString => None
      | String c rest as s' =>
          if Ascii.eqb c double_quote then
            match read_string rest with
            | Some (text, rest') => Some (JStr text, rest')
            | None => None
            end
          else if Ascii.eqb c "[" then
            match skip_space rest with
            | String d rest' as inner =>
                if Ascii.eqb d "]" then Some (JArr [], rest')
                else
                  match read_items fuel' inner with
                  | Some (items, rest'') => Some (JArr items, rest'')
                  | None => None
                  end
            | EmptyString => None
            end
          else if Ascii.eqb c "{" then
            match skip_space rest with
            | String d rest' as inner =>
                if Ascii.eqb d "}" then Some (JObj [], rest')
                else
                  match read_members fuel' inner with
                  | Some (fields, rest'') => Some (JObj fields, rest'')
                  | None => None
                  end
            | EmptyString => None
            end
          else if Ascii.eqb c "t" then read_literal "true" (JBool true) s'
          else if Ascii.eqb c "f" then read_literal "false" (JBool false) s'
          else if Ascii.eqb c "n" then read_literal "null" JNull s'
          else
            match read_number s' with
            | Some (n, rest') => Some (JNum (inject_Z n), rest')
            | None => None
            end
      end
  end

with read_items (fuel : nat) (s : string) : option (list json * string) :=
  match fuel with
  | O => None
  | S fuel' =>
      match read_value fuel' s with
      | Some (item, rest) =>
          match skip_space rest with
          | String c rest' =>
              if Ascii.eqb c "]" then Some ([item], rest')
              else if Ascii.eqb c "," then
                match read_items fuel' rest' with
                | Some (items, rest'') => Some (item :: items, rest'')
                | None => None
                end
              else None
          | EmptyString => None
          end
      | None => None
      end
  end

with read_members (fuel : nat) (s : string)
  : option (list (string * json) * string) :=
  match fuel with
  | O => None
  | S fuel' =>
      match skip_space s with
      | String q rest =>
          if Ascii.eqb q double_quote then
            match read_string rest with
            | Some (key, rest1) =>
                match skip_space rest1 with
                | String colon rest2 =>
                    if Ascii.eqb colon ":" then
                      match read_value fuel' rest2 with
                      | Some (value, rest3) =>
                          match skip_space rest3 with
                          | String c rest4 =>
                              if Ascii.eqb c "}"
                              then Some ([(key, value)], rest4)
                              else if Ascii.eqb c "," then
                                match read_members fuel' rest4 with
                                | Some (fields, rest5) =>
                                    Some (first_member key value fields, rest5)
                                | None => None
                                end
                              else None
                          | EmptyString => None
                          end
                      | None => None
                      end
                    else None
                | EmptyString => None
                end
            | None => None
            end
          else None
      | EmptyString => None
      end
  end.

(** Every nesting level and every item consumes a character, so twice the
    length of the text bounds the recursion. *)
Definition parse (text : string) : completion json :=
  match read_value (2 * String.length text + 2) text with
  | Some (value, rest) =>
      match skip_space rest with
      | EmptyString => Normal value
      | String _ _ => Throw "Unexpected non-whitespace character after JSON"
      end
  | None => Throw "Unexpected token in JSON"
  end.

Fixpoint quote_chars (s : string) : string :=
  match s with
  | EmptyString => EmptyString
  | String c rest =>
      if Ascii.eqb c double_quote || Ascii.eqb c backslash
      then String backslash (String c (quote_chars rest))
      else String c (quote_chars rest)
  end.

Definition quote (s : string) : string :=
  String double_quote (quote_chars s ++ String double_quote EmptyString).

Fixpoint stringify (value : json) : string :=
  match value with
  | JNull => "null"
  | JBool true => "true"
  | JBool false => "false"
  | JNum q => JsNum.to_string (Qfloor q)
  | JStr s => quote s
  | JArr items => "[" ++ String.concat "," (map stringify items) ++ "]"
  | JObj fields =>
      "{" ++ String.concat ","
               (map (fun field => quote (fst field) ++ ":" ++ stringify (snd field))
                    fields) ++ "}"
  end.

Fixpoint display (value : json) : string :=
  match value with
  | JNull => "null"
  | JBool true => "true"
  | JBool false => "false"
  | JNum q => JsNum.to_string (Qfloor q)
  | JStr s => s
  | JArr items => String.concat "," (map display items)
  | JObj _ => "[object Object]"
  end.

#[export] Instance json : Json := {|
  JSON_parse := parse;
  JSON_stringify := stringify;
  ToString := display
|}.

End NodeJson.

(** ** The vocabulary of the specification *)

Module Spec.

Import Sharp ImageProcessor Supabase.

(** The four classes and the keys the code uses for them. *)
Inductive AspectRatioClass := square | landscape | portrait | other.

Definition key (c : AspectRatioClass) : string :=
  match c with
  | square => "1:1"
  | landscape => "16:9"
  | portrait => "9:16"
  | other => "other"
  end.

(** [classify] in the words of the specification: the ratio is compared
    with the three targets in the order square, landscape, portrait, with a
    strict tolerance of 0.05. *)
Definition classify (width height : Z) : AspectRatioClass :=
  let ratio := (inject_Z width / inject_Z height)%Q in
  if Qlt_le_dec (Qabs (ratio - 1)) (5 # 100) then square
  else if Qlt_le_dec (Qabs (ratio - (16 # 9))) (5 # 100) then landscape
  else if Qlt_le_dec (Qabs (ratio - (9 # 16))) (5 # 100) then portrait
  else other.

(** The exact test behind one comparison of [classify]. *)
Definition strictly_near (x T : Q) : bool :=
  if Qlt_le_dec (Qabs (x - T)) (5 # 100) then true else false.

(** The comparison [Math.abs(ratio - target) < tolerance] of the code on a
    finite ratio [y] and a finite target [t]. *)
Definition near (y t : Q) : bool :=
  Double.ltb (Double.abs (Double.sub (Double.Num y) (Double.Num t))) tolerance.

(** A distance that the rounding errors of one comparison stay below and
    that two different quotients of image dimensions exceed. *)
Definition eps : Q := Double.pow2 (-42).


(** The decoded pixel dimensions of an encoded buffer. *)
Definition pixelDimensions (b : Buffer) : option (Z * Z) :=
  match image b with
  | Some info => Some (width info, height info)
  | None => None
  end.

(** The exchanges a run has added to the log. *)
Definition issued (before after : World) : list Exchange :=
  skipn (length (log before)) (log after).

Definition accepted (r : Request) : Exchange :=
  {| request := r; error := None |}.

Definition refused (r : Request) (message : string) : Exchange :=
  {| request := r; error := Some message |}.

(** The backend client can be created. *)
Definition client_ok (w : World) : bool :=
  Js.truthy (env_SUPABASE_URL w) && Js.truthy (env_SUPABASE_SERVICE_ROLE_KEY w).

(** Nothing but the tables, the bucket and the log differs. *)
Definition same_config (w w' : World) : Prop :=
  env_SUPABASE_URL w' = env_SUPABASE_URL w /\
  env_SUPABASE_SERVICE_ROLE_KEY w' = env_SUPABASE_SERVICE_ROLE_KEY w /\
  env_WEBHOOK_SECRET w' = env_WEBHOOK_SECRET w /\
  now w' = now w /\ fault w' = fault w /\ fetch w' = fetch w /\
  arrival w' = arrival w.

Definition same_config_but_fault (w w' : World) : Prop :=
  env_SUPABASE_URL w' = env_SUPABASE_URL w /\
  env_SUPABASE_SERVICE_ROLE_KEY w' = env_SUPABASE_SERVICE_ROLE_KEY w /\
  env_WEBHOOK_SECRET w' = env_WEBHOOK_SECRET w /\
  now w' = now w /\ fetch w' = fetch w /\ arrival w' = arrival w.

(** The record update that stores the variant URLs. *)
Definition is_record_update (r : Request) : bool :=
  match r with
  | DbUpdate _ (AspectRatiosPatch _ _ _ _ _) => true
  | _ => false
  end.

(** The requests of the cleanup of superseded files. *)
Definition is_cleanup (r : Request) : bool :=
  match r with
  | StorageList _ | StorageRemove _ => true
  | _ => false
  end.

Definition is_listing (r : Request) : bool :=
  match r with
  | StorageList _ => true
  | _ => false
  end.

(** The status write that marks the job of [characterId] as failed. *)
Definition failedWrite (characterId message : string) (w : World) : Request :=
  DbUpdate characterId
    (StatusPatch failed (if Js.truthy (Some message) then Some message else None)
       (now w)).

(** What an upload promise settles to, given how the backend answered. *)
Definition uploadOutcome (w : World)
  (entry : string * ImageProcessor.ProcessedImage) (e : Exchange)
  : string * completion UploadResult :=
  (fst entry,
   match error e with
   | None =>
       Normal {| up_path := filename (snd entry);
                 publicUrl := storage_getPublicUrl (filename (snd entry)) w |}
   | Some message => Throw ("Storage upload failed: " ++ message)
   end).

(** A stretch of a run: the configuration stays, the log grows by [ex],
    the table changes by [f], and no stored object disappears. *)
Definition advances (w w' : World) (ex : list Exchange)
  (f : gmap string Character -> gmap string Character) : Prop :=
  same_config w w' /\
  log w' = (log w ++ ex)%list /\
  characters w' = f (characters w) /\
  (forall o, In o (uploads w) -> In o (uploads w')).

(** The response of a completed job. *)
Definition completes (c : completion Process.HttpResponse) : Prop :=
  exists data at_,
    c = Normal (Process.respond 200
                  (Process.SuccessBody "Aspect ratios processed successfully"
                     data at_)).

Definition urls (row : Character) : option string * option string * option string :=
  (aspect_ratio_1x1_url row, aspect_ratio_16x9_url row, aspect_ratio_9x16_url row).

(** What one run of the job body, from [w] to the outcome [c] in [w'],
    guarantees about the exchanges [ex] it adds to the log:
    - a completed job has listed the folder for the cleanup, and only a
      completed job has made any request of the cleanup;
    - a response other than completion was preceded by an accepted status
      write [failed] with the message of the response;
    - a refused upload makes the body throw with the reason of a refused
      upload, before any record update or cleanup, leaving stored objects
      and the URL columns as they were. *)
Definition processContract (cid : string) (w : World)
  (c : completion Process.HttpResponse) (w' : World) : Prop :=
  same_config w w' /\
  (forall id, is_Some (characters w' !! id) <-> is_Some (characters w !! id)) /\
  exists ex,
    log w' = (log w ++ ex)%list /\
    (completes c -> exists e, In e ex /\ is_listing (request e) = true) /\
    (forall e, In e ex -> is_cleanup (request e) = true -> completes c) /\
    (forall r, c = Normal r -> ~ completes c ->
       exists msg pre,
         r = Process.respond (Process.statusCode r)
               (Process.ErrorBody (Auth.createErrorResponse msg None (now w))) /\
         Process.statusCode r <> 200 /\
         ex = (pre ++ [accepted (failedWrite cid msg w)])%list /\
         Js.truthy (Some msg) = true /\
         (forall row, characters w !! cid = Some row ->
            exists row', characters w' !! cid = Some row' /\
                         aspect_ratio_status row' = Some failed /\
                         aspect_ratio_error row' = Some msg)) /\
    (forall p m, In (refused (StorageUpload p) m) ex ->
       exists p' m',
         In (refused (StorageUpload p') m') ex /\
         c = Throw ("Storage upload failed: " ++ m') /\
         (forall e, In e ex -> is_record_update (request e) = false
                               /\ is_cleanup (request e) = false) /\
         (forall o, In o (uploads w) -> In o (uploads w')) /\
         (exists row, characters w !! cid = Some row) /\
         (forall row row', characters w !! cid = Some row ->
                           characters w' !! cid = Some row' ->
                           urls row' = urls row)).

(** Two worlds that differ at most in how the backend answers the requests
    of the cleanup. *)
Definition same_but_cleanup_faults (w w' : World) : Prop :=
  same_config_but_fault w w' /\
  characters w' = characters w /\ uploads w' = uploads w /\ log w' = log w /\
  forall n r, is_cleanup r = false -> fault w' n r = fault w n r.

(** A computation run from two related worlds gives the same result and
    ends in worlds related by [Q]. *)
Definition related {A : Type} (R : World -> World -> Prop)
  (Q : completion A -> World -> World -> Prop) (m : M A) : Prop :=
  forall u v, R u v ->
    fst (m v) = fst (m u) /\ Q (fst (m u)) (snd (m u)) (snd (m v)).

(** The table and the clock agree. *)
Definition same_record (u v : World) : Prop :=
  characters v = characters u /\ now v = now u.

(** What relates the two worlds after the job body: everything but the
    cleanup faults when it threw, the table and the clock when it
    returned. *)
Definition after_body {A : Type} (c : completion A) (u v : World) : Prop :=
  match c with
  | Throw _ => same_but_cleanup_faults u v
  | Normal _ => same_record u v
  end.



End Spec.

(** ** Concrete runs *)

Module Scenario.

Import Sharp ImageProcessor Auth Supabase Process.

(** A decodable JPEG of the given pixel dimensions. *)
Definition jpeg (w h : Z) : Buffer :=
  {| bytes := [255; 216; 255; 224];
     image := Some {| width := w; height := h; format := "jpeg" |} |}.

Definition timestamp : Z := 1757186938000.

#[local] Existing Instance NodeCrypto.crypto.
#[local] Existing Instance NodeJson.json.

(** Text written with single quotes where JSON has double quotes. *)
Fixpoint quoted (template : string) : string :=
  match template with
  | EmptyString => EmptyString
  | String c rest =>
      String (if Ascii.eqb c "'" then NodeJson.double_quote else c) (quoted rest)
  end.

Definition secret : string := "s3cret".

Definition payload : string :=
  quoted "{'characterId':'c1','imageUrl':'https://cdn.example/a.jpg'}".

(** A correctly signed trigger for character [c1]. *)
Definition trigger : HttpRequest :=
  {| method := "POST";
     headers := {[ "content-type" := "application/json";
                   "x-webhook-signature" :=
                     generateWebhookSignature payload secret ]};
     body := BodyString payload |}.

(** The job that the trigger describes. *)
Definition job : Job :=
  {| characterId := JStr "c1";
     imageUrl := JStr "https://cdn.example/a.jpg";
     options := JObj [] |}.

Definition character : Character :=
  {| aspect_ratio_status := Some pending;
     aspect_ratio_error := None;
     aspect_ratio_1x1_url := None;
     aspect_ratio_16x9_url := None;
     aspect_ratio_9x16_url := None;
     original_aspect_ratio := None;
     updated_at := 0 |}.

(** What the image URL serves: a 1920 by 1080 JPEG, or nothing. *)
Definition landscape_source : FetchOutcome :=
  FetchResolved {| res_status := 200; res_statusText := "OK";
                   res_body := jpeg 1920 1080 |}.


(** A configured world: the backend answers as [faults] says, the image
    URL serves [source], the table holds [rows] and the bucket
    [objects]. *)
Definition world (faults : nat -> Request -> option string)
  (source : FetchOutcome) (rows : gmap string Character)
  (objects : list StoredObject) : World :=
  {| env_SUPABASE_URL := Some "https://db.example";
     env_SUPABASE_SERVICE_ROLE_KEY := Some "service-role-key";
     env_WEBHOOK_SECRET := Some secret;
     characters := rows;
     uploads := objects;
     now := timestamp;
     fault := faults;
     fetch := fun _ _ => source;
     arrival := fun i => i;
     log := [] |}.

Definition rows : gmap string Character := {[ "c1" := character ]}.

Definition no_fault : nat -> Request -> option string := fun _ _ => None.

(** The storage refuses the upload of the landscape variant. *)
Definition upload_fault : nat -> Request -> option string :=
  fun _ r =>
    match r with
    | StorageUpload p =>
        if Js.includes "16x9" p then Some "bucket unavailable" else None
    | _ => None
    end.




(** The storage refuses the requests of the cleanup. *)
Definition cleanup_fault : nat -> Request -> option string :=
  fun _ r =>
    match r with
    | StorageList _ | StorageRemove _ => Some "listing unavailable"
    | _ => None
    end.

(** Variants left by two earlier runs. *)
Definition earlier_variants : list StoredObject :=
  map (fun entry =>
         {| path := "characters/c1/aspect-ratios/" ++ fst entry;
            created_at := snd entry;
            content := jpeg 1024 1024 |})
      [ ("1x1-1000.jpg", 1000); ("16x9-1000.jpg", 1000); ("9x16-1000.jpg", 1000);
        ("1x1-2000.jpg", 2000) ].

(** What a run lets an observer see. *)
Definition observe (run : completion HttpResponse * World)
  : option (Z * option string) * option (option Status * option string)
    * list Exchange * list string :=
  (match fst run with
   | Normal r =>
       Some (statusCode r,
             match responseBody r with
             | ErrorBody e => Some (er_error e)
             | _ => None
             end)
   | Throw _ => None
   end,
   match characters (snd run) !! "c1" with
   | Some row => Some (aspect_ratio_status row, aspect_ratio_error row)
   | None => None
   end,
   log (snd run),
   map path (uploads (snd run))).

End Scenario.

(** ** Vocabulary for the properties of the helpers and of the handler *)

Module Behaviour.

Import Supabase.

(** The folder that holds the variants of a character. *)
Definition variantsFolder (characterId : string) : string :=
  "characters/" ++ characterId ++ "/aspect-ratios".

(** The files of a folder, as a listing of the bucket shows them. *)
Definition listing (folder : string) (objects : list StoredObject)
  : list FileObject :=
  omap (entry_in folder) objects.

(** Newest first. *)
Fixpoint descending (files : list FileObject) : Prop :=
  match files with
  | [] => True
  | f :: rest =>
      Forall (fun g => file_created_at g <= file_created_at f) rest
      /\ descending rest
  end.

(** A backend that refuses no request of its own accord. *)
Definition healthy (w : World) : Prop := forall n r, fault w n r = None.

End Behaviour.

(** ** api/health.js

    The health check reads, besides the settings of the backend, what the
    host reports: [NODE_ENV], how the probe query is answered, whether the
    image library loads and runs, and the memory counters.  It makes no
    request that the log of the backend records, and nothing it calls can
    reach its outer [catch]. *)

Module Health.

Import Auth Supabase.

Record MemoryUsage := {
  rss : Z;
  heapTotal : Z;
  heapUsed : Z;
  external : Z
}.

Record Host := {
  env_NODE_ENV : option string;
  (** [error.message] of the probe query, if it reports an error. *)
  probe : option string;
  (** [sharp.default().constructor.version] when the library loads and the
      test pipeline runs, the message of the error otherwise. *)
  sharp : completion (option string);
  memoryUsage : MemoryUsage
}.

Record EnvironmentCheck := {
  env_status : string;
  env_message : string;
  requiredVars : list string;
  missingVars : list string
}.

Record SupabaseCheck := {
  supabase_status : string;
  supabase_message : string;
  supabase_url : string
}.

Record SharpCheck := {
  sharp_status : string;
  sharp_message : string;
  sharp_version : string
}.

Record MemoryCheck := {
  memory_status : string;
  memory_message : string;
  usage : MemoryUsage
}.

Record HealthStatus := {
  service : string;
  status : string;
  timestamp : Z;
  version : string;
  environment : string;
  check_environment : EnvironmentCheck;
  check_supabase : SupabaseCheck;
  check_sharp : SharpCheck;
  check_memory : MemoryCheck
}.

Inductive ResponseBody :=
| NoBody
| ErrorBody (response : ErrorResponse)
| SuccessBody (message : string) (data : HealthStatus) (timestamp : Z).

Record HttpResponse := {
  statusCode : Z;
  responseHeaders : list (string * string);
  responseBody : ResponseBody
}.

Definition requiredEnvVars : list string :=
  ["SUPABASE_URL"; "SUPABASE_SERVICE_ROLE_KEY"; "WEBHOOK_SECRET"].

(** [process.env[varName]] for the variables the service knows. *)
Definition env (w : World) (varName : string) : option string :=
  if String.eqb varName "SUPABASE_URL" then env_SUPABASE_URL w
  else if String.eqb varName "SUPABASE_SERVICE_ROLE_KEY"
       then env_SUPABASE_SERVICE_ROLE_KEY w
  else if String.eqb varName "WEBHOOK_SECRET" then env_WEBHOOK_SECRET w
  else None.

(** [s.replace(/\/+$/, '')]. *)
Fixpoint strip_trailing_slashes (s : string) : string :=
  match s with
  | EmptyString => EmptyString
  | String c rest =>
      let rest' := strip_trailing_slashes rest in
      if Ascii.eqb c "/" && String.eqb rest' "" then EmptyString
      else String c rest'
  end.

(** The text of the one probe error that counts as an answer. *)
Definition count_column_missing : string :=
  "column " ++ String NodeJson.double_quote "count"
    ++ String NodeJson.double_quote " does not exist".

Definition configured_url (w : World) : string :=
  if Js.truthy (env_SUPABASE_URL w)
  then strip_trailing_slashes (default "" (env_SUPABASE_URL w))
  else "not configured".

(** The [try] block around the probe. *)
Definition probeSupabase (host : Host) : M unit :=
  _ ← getSupabaseClient;
  match probe host with
  | Some message =>
      if negb (Js.includes count_column_missing message)
      then throw message else mret tt
  | None => mret tt
  end.

Definition megabytes (bytes : Z) : Z :=
  JsNum.round (inject_Z bytes / 1024 / 1024)%Q.

Definition respond (status : Z) (body : ResponseBody) : HttpResponse :=
  {| statusCode := status; responseHeaders := []; responseBody := body |}.

Definition handler (host : Host) (req : Process.HttpRequest) : M HttpResponse :=
  if String.eqb (Process.method req) "OPTIONS"
  then
    mret {| statusCode := 200;
            responseHeaders :=
              [ ("Access-Control-Allow-Origin", "*");
                ("Access-Control-Allow-Methods", "GET, POST, OPTIONS");
                ("Access-Control-Allow-Headers", "Content-Type, Authorization") ];
            responseBody := NoBody |}
  else if negb (String.eqb (Process.method req) "GET")
  then
    at_ ← read now;
    mret (respond 405
            (ErrorBody (createErrorResponse "Method not allowed" (Some 405) at_)))
  else
    at_ ← read now;
    let status := "healthy" in
    missingEnvVars ←
      read (fun w => filter (fun varName => negb (Js.truthy (env w varName)))
                            requiredEnvVars);
    let environmentCheck :=
      {| env_status := if (length missingEnvVars =? 0)%nat
                       then "healthy" else "unhealthy";
         env_message :=
           if (length missingEnvVars =? 0)%nat
           then "All required environment variables are set"
           else "Missing environment variables: "
                  ++ String.concat ", " missingEnvVars;
         requiredVars := requiredEnvVars;
         missingVars := missingEnvVars |} in
    url ← read configured_url;
    probed ← try_catchM (_ ← probeSupabase host; mret None)
                        (fun message => mret (Some message));
    let supabaseCheck :=
      match probed with
      | None =>
          {| supabase_status := "healthy";
             supabase_message := "Supabase connection successful";
             supabase_url := url |}
      | Some message =>
          {| supabase_status := "unhealthy";
             supabase_message := "Supabase connection failed: " ++ message;
             supabase_url := url |}
      end in
    let status := match probed with None => status | Some _ => "unhealthy" end in
    let sharpCheck :=
      match sharp host with
      | Normal sharpVersion =>
          {| sharp_status := "healthy";
             sharp_message := "Sharp image processing library working correctly";
             sharp_version := if Js.truthy sharpVersion
                              then default "" sharpVersion else "unknown" |}
      | Throw message =>
          {| sharp_status := "unhealthy";
             sharp_message := "Sharp library error: " ++ message;
             sharp_version := "unknown" |}
      end in
    let status := match sharp host with
                  | Normal _ => status
                  | Throw _ => "unhealthy"
                  end in
    let memoryMB :=
      {| rss := megabytes (rss (memoryUsage host));
         heapTotal := megabytes (heapTotal (memoryUsage host));
         heapUsed := megabytes (heapUsed (memoryUsage host));
         external := megabytes (external (memoryUsage host)) |} in
    let memoryCheck :=
      {| memory_status := if heapUsed memoryMB <? 900 then "healthy" else "warning";
         memory_message :=
           "Memory usage: " ++ JsNum.to_string (heapUsed memoryMB) ++ "MB of "
             ++ JsNum.to_string (heapTotal memoryMB) ++ "MB heap";
         usage := memoryMB |} in
    let statuses :=
      [ env_status environmentCheck; supabase_status supabaseCheck;
        sharp_status sharpCheck; memory_status memoryCheck ] in
    let hasUnhealthy := existsb (String.eqb "unhealthy") statuses in
    let status :=
      if hasUnhealthy then "unhealthy"
      else if existsb (String.eqb "warning") statuses then "warning"
      else status in
    let httpStatus :=
      if String.eqb status "healthy" then 200
      else if String.eqb status "warning" then 200 else 503 in
    let healthStatus :=
      {| service := "aspect-ratio-service";
         status := status;
         timestamp := at_;
         version := "1.0.0";
         environment := if Js.truthy (env_NODE_ENV host)
                        then default "" (env_NODE_ENV host) else "development";
         check_environment := environmentCheck;
         check_supabase := supabaseCheck;
         check_sharp := sharpCheck;
         check_memory := memoryCheck |} in
    at_' ← read now;
    mret (respond httpStatus
            (SuccessBody "Health check completed" healthStatus at_')).

End Health.

(** ** More runs *)

Module Cases.

Import Sharp ImageProcessor Auth Supabase Process Scenario.

#[local] Existing Instance NodeCrypto.crypto.
#[local] Existing Instance NodeJson.json.

(** The trigger, signed by someone who does not know the secret. *)
Definition forged : HttpRequest :=
  {| method := "POST";
     headers := {[ "content-type" := "application/json";
                   "x-webhook-signature" :=
                     generateWebhookSignature payload "guess" ]};
     body := BodyString payload |}.

(** A correctly signed trigger whose options are [null]. *)
Definition nulled_payload : string :=
  quoted
    "{'characterId':'c1','imageUrl':'https://cdn.example/a.jpg','options':null}".

Definition nulled : HttpRequest :=
  {| method := "POST";
     headers := {[ "content-type" := "application/json";
                   "x-webhook-signature" :=
                     generateWebhookSignature nulled_payload secret ]};
     body := BodyString nulled_payload |}.

Definition nulled_job : Job :=
  {| characterId := JStr "c1";
     imageUrl := JStr "https://cdn.example/a.jpg";
     options := JNull |}.

(** The image URL serves a web page. *)
Definition page : Response :=
  {| res_status := 200; res_statusText := "OK";
     res_body := {| bytes := [60; 104; 116; 109; 108; 62]; image := None |} |}.

Definition gone : Response :=
  {| res_status := 404; res_statusText := "Not Found";
     res_body := {| bytes := []; image := None |} |}.

(** A deployment without the URL of the backend. *)
Definition unconfigured : World :=
  {| env_SUPABASE_URL := None;
     env_SUPABASE_SERVICE_ROLE_KEY := Some "service-role-key";
     env_WEBHOOK_SECRET := Some secret;
     characters := rows;
     uploads := [];
     now := timestamp;
     fault := no_fault;
     fetch := fun _ _ => landscape_source;
     arrival := fun i => i;
     log := [] |}.

(** A process that holds 900 MiB of heap, with a working image library
    and a backend that answers the probe. *)
Definition busy : Health.Host :=
  {| Health.env_NODE_ENV := Some "production";
     Health.probe := None;
     Health.sharp := Normal (Some "0.33.5");
     Health.memoryUsage :=
       {| Health.rss := 1200000000; Health.heapTotal := 1000000000;
          Health.heapUsed := 943718400; Health.external := 2000000 |} |}.

Definition check : HttpRequest :=
  {| method := "GET"; headers := ∅; body := BodyUndefined |}.

End Cases.

(** * Part II: properties *)

Ltac abs_cases :=
  repeat match goal with
         | |- context [Qabs ?x] => pattern (Qabs x); apply Qabs_case; intros
         | H : context [Qabs ?x] |- _ =>
             revert H; pattern (Qabs x); apply Qabs_case; intros
         end.



(** ** Exact arithmetic *)

Section JsNumFacts.

Lemma ltb_spec (x y : Q) : JsNum.ltb x y = true <-> (x < y)%Q.
Proof. unfold JsNum.ltb, Qlt. apply Z.ltb_lt. Qed.

Lemma ltb_false (x y : Q) : JsNum.ltb x y = false <-> (y <= x)%Q.
Proof. unfold JsNum.ltb, Qle. apply Z.ltb_ge. Qed.

Lemma ltb_compat (x x' y y' : Q) :
  (x == x')%Q -> (y == y')%Q -> JsNum.ltb x y = JsNum.ltb x' y'.
Proof.
  intros Hx Hy.
  destruct (JsNum.ltb x' y') eqn:E.
  - apply ltb_spec. rewrite Hx, Hy. now apply ltb_spec.
  - apply ltb_false. rewrite Hx, Hy. now apply ltb_false.
Qed.

Lemma min_le_l (x y : Q) : (JsNum.min x y <= x)%Q.
Proof.
  unfold JsNum.min. destruct (Qle_bool x y) eqn:E.
  - apply Qle_refl.
  - destruct (Qlt_le_dec x y) as [Hlt | Hle]; [| exact Hle].
    apply Qlt_le_weak in Hlt. apply Qle_bool_iff in Hlt. congruence.
Qed.

Lemma min_le_r (x y : Q) : (JsNum.min x y <= y)%Q.
Proof.
  unfold JsNum.min. destruct (Qle_bool x y) eqn:E.
  - now apply Qle_bool_iff.
  - apply Qle_refl.
Qed.

(** Rounding never overshoots an integer upper bound and never undershoots
    an integer lower bound. *)
Lemma round_le (x : Q) (n : Z) : (x <= inject_Z n)%Q -> JsNum.round x <= n.
Proof.
  intros Hx. unfold JsNum.round.
  assert (Hlt : (x + (1 # 2) < inject_Z (n + 1))%Q).
  { rewrite inject_Z_plus.
    apply Qle_lt_trans with (inject_Z n + (1 # 2))%Q.
    - apply Qplus_le_l. exact Hx.
    - apply Qplus_lt_r. reflexivity. }
  pose proof (Qfloor_le (x + (1 # 2))) as Hfl.
  assert (Hz : (inject_Z (Qfloor (x + (1 # 2))) < inject_Z (n + 1))%Q)
    by (eapply Qle_lt_trans; eauto).
  rewrite <- Zlt_Qlt in Hz. lia.
Qed.

Lemma round_ge (x : Q) (n : Z) : (inject_Z n <= x)%Q -> n <= JsNum.round x.
Proof.
  intros Hx. unfold JsNum.round.
  assert (Hle : (inject_Z n <= x + (1 # 2))%Q).
  { apply Qle_trans with x; [exact Hx |].
    rewrite <- (Qplus_0_r x) at 1. apply Qplus_le_r. discriminate. }
  apply Qfloor_resp_le in Hle. now rewrite Qfloor_Z in Hle.
Qed.

(** Rounding half of an integer: [Math.round(d / 2)]. *)
Lemma round_half (d : Z) : JsNum.round (inject_Z d / 2)%Q = (d + 1) / 2.
Proof.
  unfold JsNum.round.
  assert (E : (inject_Z d / 2 + (1 # 2) == (d + 1) # 2)%Q).
  { unfold Qeq, Qdiv, Qmult, Qplus, Qinv, inject_Z. simpl. lia. }
  rewrite E. reflexivity.
Qed.

End JsNumFacts.

(** ** Doubles: the exponent, the rounding error, exact values *)

Section DoubleFacts.

Import Double.

Lemma pow2_pos (e : Z) : (0 < pow2 e)%Q.
Proof. apply Qpower_0_lt. reflexivity. Qed.

Lemma pow2_add (a b : Z) : (pow2 (a + b) == pow2 a * pow2 b)%Q.
Proof. apply Qpower_plus. discriminate. Qed.

Lemma pow2_sub (a b : Z) : (pow2 (a - b) == pow2 a / pow2 b)%Q.
Proof. apply Qpower_minus. discriminate. Qed.

Lemma pow2_Z (e : Z) : 0 <= e -> (pow2 e == inject_Z (2 ^ e))%Q.
Proof. intros He. symmetry. now apply Zpower_Qpower. Qed.

Lemma pow2_le (a b : Z) : a <= b -> (pow2 a <= pow2 b)%Q.
Proof. intros H. apply Qpower_le_compat_l; [exact H | discriminate]. Qed.

Lemma pow2_lt (a b : Z) : a < b -> (pow2 a < pow2 b)%Q.
Proof. intros H. apply Qpower_lt_compat_l; [exact H | reflexivity]. Qed.

Lemma pow2_lt_inv (a b : Z) : (pow2 a < pow2 b)%Q -> a < b.
Proof. intros H. apply (Qpower_lt_compat_l_inv 2); [exact H | reflexivity]. Qed.

Lemma pow2_succ (e : Z) : (pow2 (e + 1) == 2 * pow2 e)%Q.
Proof. rewrite pow2_add. change (pow2 1) with 2%Q. ring. Qed.

Lemma pow2_pred (e : Z) : (pow2 (e - 1) == pow2 e / 2)%Q.
Proof. rewrite pow2_sub. reflexivity. Qed.

Lemma Qdiv_le_cross (p q r s : Q) :
  (0 < q)%Q -> (0 < s)%Q -> (p / q <= r / s)%Q <-> (p * s <= r * q)%Q.
Proof.
  intros Hq Hs. split; intros H.
  - apply (Qmult_le_r _ _ (/ q * / s)).
    + apply Qmult_lt_0_compat; now apply Qinv_lt_0_compat.
    + setoid_replace (p * s * (/ q * / s))%Q with (p / q)%Q using relation Qeq by (field; split; lra).
      setoid_replace (r * q * (/ q * / s))%Q with (r / s)%Q using relation Qeq by (field; split; lra).
      exact H.
  - apply (Qmult_le_r _ _ (/ q * / s)) in H.
    + setoid_replace (p * s * (/ q * / s))%Q with (p / q)%Q using relation Qeq in H by (field; split; lra).
      setoid_replace (r * q * (/ q * / s))%Q with (r / s)%Q using relation Qeq in H by (field; split; lra).
      exact H.
    + apply Qmult_lt_0_compat; now apply Qinv_lt_0_compat.
Qed.

Lemma Qdiv_lt_cross (p q r s : Q) :
  (0 < q)%Q -> (0 < s)%Q -> (p / q < r / s)%Q <-> (p * s < r * q)%Q.
Proof.
  intros Hq Hs.
  pose proof (Qdiv_le_cross r s p q Hs Hq) as H.
  split; intros Hlt.
  - apply Qnot_le_lt. intros Hle. apply H in Hle. lra.
  - apply Qnot_le_lt. intros Hle. apply H in Hle. lra.
Qed.

(** [ilog2] is the binary exponent. *)
Lemma ilog2_spec (x : Q) :
  (0 < x)%Q -> (pow2 (ilog2 x) <= x)%Q /\ (x < pow2 (ilog2 x + 1))%Q.
Proof.
  intros Hx. destruct x as [n d].
  assert (Hn : 0 < n) by (unfold Qlt in Hx; simpl in Hx; lia).
  unfold ilog2. cbn [Qnum Qden].
  set (ln := Z.log2 n). set (ld := Z.log2 (Z.pos d)).
  destruct (Z.log2_spec n Hn) as [Hn1 Hn2]. fold ln in Hn1, Hn2.
  destruct (Z.log2_spec (Z.pos d) ltac:(lia)) as [Hd1 Hd2]. fold ld in Hd1, Hd2.
  assert (Hln : 0 <= ln) by apply Z.log2_nonneg.
  assert (Hld : 0 <= ld) by apply Z.log2_nonneg.
  assert (Ex : (n # d == inject_Z n / inject_Z (Z.pos d))%Q)
    by (rewrite Qmake_Qdiv; reflexivity).
  set (N := inject_Z n) in *. set (D := inject_Z (Z.pos d)) in *.
  assert (HA : (pow2 ln <= N)%Q /\ (N < 2 * pow2 ln)%Q).
  { rewrite <- pow2_succ, !pow2_Z by lia. unfold N.
    rewrite <- Zle_Qle, <- Zlt_Qlt. replace (ln + 1) with (Z.succ ln) by lia.
    split; assumption. }
  assert (HB : (pow2 ld <= D)%Q /\ (D < 2 * pow2 ld)%Q).
  { rewrite <- pow2_succ, !pow2_Z by lia. unfold D.
    rewrite <- Zle_Qle, <- Zlt_Qlt. replace (ld + 1) with (Z.succ ld) by lia.
    split; assumption. }
  pose proof (pow2_pos ln) as HpA. pose proof (pow2_pos ld) as HpB.
  set (A := pow2 ln) in *. set (B := pow2 ld) in *.
  assert (HD : (0 < D)%Q) by lra.
  assert (E0 : (pow2 (ln - ld) == A / B)%Q) by apply pow2_sub.
  assert (E1 : (pow2 (ln - ld + 1) == (2 * A) / B)%Q).
  { rewrite pow2_succ, E0. field. lra. }
  assert (E2 : (pow2 (ln - ld - 1) == A / (2 * B))%Q).
  { rewrite pow2_pred, E0. field. lra. }
  destruct (Qle_bool (pow2 (ln - ld)) (n # d)) eqn:Eb.
  - apply Qle_bool_iff in Eb. split; [exact Eb |].
    rewrite Ex, E1. apply Qdiv_lt_cross; [exact HD | exact HpB |]. nra.
  - assert (Hlt : (n # d < pow2 (ln - ld))%Q).
    { apply Qnot_le_lt. intros H. apply Qle_bool_iff in H. congruence. }
    replace (ln - ld - 1 + 1) with (ln - ld) by lia.
    split; [| exact Hlt].
    rewrite Ex, E2. apply Qdiv_le_cross; [lra | exact HD |]. nra.
Qed.

Lemma ilog2_unique (x : Q) (e : Z) :
  (pow2 e <= x)%Q -> (x < pow2 (e + 1))%Q -> ilog2 x = e.
Proof.
  intros Hlo Hhi.
  assert (Hx : (0 < x)%Q) by (pose proof (pow2_pos e); lra).
  destruct (ilog2_spec x Hx) as [Hlo' Hhi'].
  assert (ilog2 x < e + 1) by (apply pow2_lt_inv; lra).
  assert (e < ilog2 x + 1) by (apply pow2_lt_inv; lra).
  lia.
Qed.

Lemma ilog2_upper (x : Q) (e : Z) :
  (0 < x)%Q -> (x < pow2 e)%Q -> ilog2 x < e.
Proof.
  intros Hx Hhi. destruct (ilog2_spec x Hx) as [Hlo _].
  apply pow2_lt_inv. lra.
Qed.

(** Rounding to the nearest integer is off by at most one half. *)
Lemma nearest_even_error (y : Q) :
  (Qabs (inject_Z (nearest_even y) - y) <= 1 # 2)%Q.
Proof.
  unfold nearest_even.
  pose proof (Qfloor_le y) as Hlo. pose proof (Qlt_floor y) as Hhi.
  rewrite inject_Z_plus in Hhi. change (inject_Z 1) with 1%Q in Hhi.
  set (f := Qfloor y) in *.
  destruct (y - inject_Z f ?= 1 # 2)%Q eqn:Ec.
  - apply Qeq_alt in Ec.
    destruct (Z.even f); [| rewrite inject_Z_plus; change (inject_Z 1) with 1%Q];
      apply Qabs_case; intros; lra.
  - apply Qlt_alt in Ec. apply Qabs_case; intros; lra.
  - apply Qgt_alt in Ec. rewrite inject_Z_plus. change (inject_Z 1) with 1%Q.
    apply Qabs_case; intros; lra.
Qed.

Lemma nearest_even_Z (n : Z) : nearest_even (inject_Z n) = n.
Proof.
  unfold nearest_even. rewrite Qfloor_Z.
  assert (E : (inject_Z n - inject_Z n ?= 1 # 2)%Q = Lt).
  { apply Qlt_alt. setoid_replace (inject_Z n - inject_Z n)%Q with 0%Q using relation Qeq by ring.
    reflexivity. }
  now rewrite E.
Qed.

Lemma nearest_even_comp (x y : Q) : (x == y)%Q -> nearest_even x = nearest_even y.
Proof.
  intros E. unfold nearest_even. rewrite (Qfloor_comp _ _ E).
  assert (Ec : ((x - inject_Z (Qfloor y) ?= 1 # 2) = (y - inject_Z (Qfloor y) ?= 1 # 2))%Q).
  { apply Qcompare_comp; [rewrite E |]; reflexivity. }
  now rewrite Ec.
Qed.

Lemma nearest_even_nonneg (y : Q) : (0 <= y)%Q -> 0 <= nearest_even y.
Proof.
  intros Hy. unfold nearest_even.
  assert (Hf : 0 <= Qfloor y).
  { change 0 with (Qfloor (inject_Z 0)). now apply Qfloor_resp_le. }
  destruct (_ ?= _)%Q; [destruct (Z.even _) | |]; lia.
Qed.

Lemma nearest_positive_eq (a : Q) :
  nearest_positive a
  = (inject_Z (nearest_even (a / pow2 (ulp_exponent a))) * pow2 (ulp_exponent a))%Q.
Proof. reflexivity. Qed.

Lemma scaled_error (a u m : Q) :
  (0 < u)%Q -> (Qabs (m - a / u) <= 1 # 2)%Q -> (Qabs (m * u - a) <= (1 # 2) * u)%Q.
Proof.
  intros Hu He.
  setoid_replace (m * u - a)%Q with ((m - a / u) * u)%Q using relation Qeq by (field; lra).
  rewrite Qabs_Qmult, (Qabs_pos u) by lra.
  set (q := Qabs (m - a / u)) in *. clearbody q.
  assert (q * u <= (1 # 2) * u)%Q by (apply Qmult_le_compat_r; lra).
  lra.
Qed.

Lemma nearest_positive_near (a : Q) :
  (0 < a)%Q ->
  (Qabs (nearest_positive a - a) <= (1 # 2) * pow2 (ulp_exponent a))%Q.
Proof.
  intros Ha. rewrite nearest_positive_eq.
  apply scaled_error; [apply pow2_pos | apply nearest_even_error].
Qed.

(** The error of rounding: half a unit in the last place. *)
Lemma nearest_positive_error (a : Q) :
  (0 < a)%Q ->
  (Qabs (nearest_positive a - a) <= pow2 (-53) * a + pow2 (-1075))%Q.
Proof.
  intros Ha. pose proof (nearest_positive_near a Ha) as Hn.
  destruct (ilog2_spec a Ha) as [Hlo _].
  pose proof (pow2_pos (-1075)) as Ht. pose proof (pow2_pos (-53)) as Hu.
  unfold ulp_exponent in Hn.
  destruct (Z.max_spec (ilog2 a - 52) (-1074)) as [[_ E] | [_ E]]; rewrite E in Hn.
  - assert (Ep : ((1 # 2) * pow2 (-1074) == pow2 (-1075))%Q) by reflexivity.
    rewrite Ep in Hn.
    assert (0 <= pow2 (-53) * a)%Q by (apply Qmult_le_0_compat; lra). lra.
  - assert (Ep : ((1 # 2) * pow2 (ilog2 a - 52) == pow2 (-53) * pow2 (ilog2 a))%Q).
    { replace (ilog2 a - 52) with (-53 + ilog2 a + 1) by lia.
      rewrite pow2_succ, pow2_add. ring. }
    rewrite Ep in Hn.
    assert (pow2 (-53) * pow2 (ilog2 a) <= pow2 (-53) * a)%Q
      by (apply Qmult_le_l; lra).
    lra.
Qed.

Lemma nearest_positive_nonneg (a : Q) : (0 < a)%Q -> (0 <= nearest_positive a)%Q.
Proof.
  intros Ha. rewrite nearest_positive_eq.
  pose proof (pow2_pos (ulp_exponent a)) as Hu.
  apply Qmult_le_0_compat; [| lra].
  change 0%Q with (inject_Z 0). rewrite <- Zle_Qle.
  apply nearest_even_nonneg. apply Qle_shift_div_l; lra.
Qed.

(** A value with at most 53 significant bits above the least exponent is
    its own rounding. *)
Lemma nearest_positive_exact (a : Q) (m k : Z) :
  (a == inject_Z m * pow2 k)%Q -> 0 < m < 2 ^ 53 -> -1074 <= k ->
  (nearest_positive a == a)%Q.
Proof.
  intros Ea Hm Hk.
  pose proof (pow2_pos k) as Hpk.
  assert (Hmq : (0 < inject_Z m)%Q /\ (inject_Z m < pow2 53)%Q).
  { rewrite (pow2_Z 53) by lia. rewrite <- (Zlt_Qlt 0), <- Zlt_Qlt. exact Hm. }
  assert (Ha : (0 < a)%Q) by (rewrite Ea; apply Qmult_lt_0_compat; tauto).
  assert (He : ilog2 a < k + 53).
  { apply ilog2_upper; [exact Ha |]. rewrite Ea. rewrite pow2_add.
    rewrite (Qmult_comm (pow2 k)). apply Qmult_lt_r; tauto. }
  assert (Hex : ulp_exponent a <= k) by (unfold ulp_exponent; lia).
  rewrite nearest_positive_eq.
  set (ex := ulp_exponent a) in *.
  assert (Eq : (a / pow2 ex == inject_Z (m * 2 ^ (k - ex)))%Q).
  { rewrite inject_Z_mult, <- (pow2_Z (k - ex)) by lia. rewrite pow2_sub, Ea.
    field. pose proof (pow2_pos ex). lra. }
  rewrite (nearest_even_comp _ _ Eq), nearest_even_Z.
  rewrite inject_Z_mult, <- (pow2_Z (k - ex)) by lia. rewrite pow2_sub, Ea.
  field. pose proof (pow2_pos ex). lra.
Qed.

Lemma round_nearest_comp (x y : Q) :
  (x == y)%Q -> round_nearest x = round_nearest y.
Proof. intros E. unfold round_nearest. now rewrite (Qred_complete _ _ E). Qed.

Lemma nearest_positive_comp (x y : Q) :
  x = Qred y -> (nearest_positive x == nearest_positive (Qred y))%Q.
Proof. now intros ->. Qed.

Lemma round_nearest_zero (x : Q) : (x == 0)%Q -> round_nearest x = Num 0.
Proof. intros E. now rewrite (round_nearest_comp _ _ E). Qed.

Lemma round_nearest_positive (x : Q) :
  (0 < x)%Q ->
  round_nearest x
  = if overflows (nearest_positive (Qred x)) then Infinity
    else Num (Qred (nearest_positive (Qred x))).
Proof.
  intros Hx. unfold round_nearest, round_canonical.
  assert (Hr : (0 < Qred x)%Q) by now rewrite Qred_correct.
  destruct (Qred x) as [n d]. unfold Qlt in Hr. simpl in Hr.
  destruct n; try lia. reflexivity.
Qed.

Lemma round_nearest_negative (x : Q) :
  (x < 0)%Q ->
  round_nearest x
  = if overflows (nearest_positive (- Qred x)) then NegInfinity
    else Num (Qred (- nearest_positive (- Qred x))).
Proof.
  intros Hx. unfold round_nearest, round_canonical.
  assert (Hr : (Qred x < 0)%Q) by now rewrite Qred_correct.
  destruct (Qred x) as [n d]. unfold Qlt in Hr. simpl in Hr.
  destruct n; try lia. reflexivity.
Qed.

Lemma overflows_false (y : Q) : (y < pow2 1024)%Q -> overflows y = false.
Proof.
  intros Hy. unfold overflows. destruct (Qle_bool _ _) eqn:E; [| reflexivity].
  apply Qle_bool_iff in E. lra.
Qed.

Lemma huge_margin :
  (pow2 1000 + (pow2 (-53) * pow2 1000 + pow2 (-1075)) < pow2 1024)%Q.
Proof. apply Qlt_alt. vm_compute. reflexivity. Qed.

(** Rounding a value of moderate size gives a finite number within half a
    unit in the last place, on the same side of zero. *)
Lemma round_nearest_finite (x : Q) :
  (Qabs x <= pow2 1000)%Q ->
  exists y,
    round_nearest x = Num y /\
    (Qabs (y - x) <= pow2 (-53) * Qabs x + pow2 (-1075))%Q /\
    (0 <= x -> 0 <= y)%Q /\ (x <= 0 -> y <= 0)%Q.
Proof.
  intros Hx. pose proof huge_margin as Hm.
  pose proof (pow2_pos (-53)) as Hu. pose proof (pow2_pos (-1075)) as Ht.
  destruct (Q_dec x 0) as [[Hneg | Hpos] | Hzero].
  - rewrite (round_nearest_negative x Hneg).
    assert (Ha : (0 < - Qred x)%Q) by (rewrite Qred_correct; lra).
    pose proof (nearest_positive_error _ Ha) as He.
    pose proof (nearest_positive_nonneg _ Ha) as Hn.
    set (y := nearest_positive (- Qred x)) in *. clearbody y.
    assert (Ex : (Qred x == x)%Q) by apply Qred_correct.
    rewrite Ex in He. rewrite (Qabs_neg x) in * by lra.
    assert (Hp : (pow2 (-53) * - x <= pow2 (-53) * pow2 1000)%Q)
      by (apply Qmult_le_l; lra).
    assert (Hp0 : (0 <= pow2 (-53) * - x)%Q)
      by (apply Qmult_le_0_compat; lra).
    assert (Hy : (y < pow2 1024)%Q).
    { revert He. apply Qabs_case; intros; lra. }
    rewrite (overflows_false _ Hy). exists (Qred (- y)).
    split; [reflexivity |]. rewrite Qred_correct, (Qabs_neg x) by lra.
    split; [| split; intros; lra].
    revert He. apply Qabs_case; intros; apply Qabs_case; intros; lra.
  - rewrite (round_nearest_positive x Hpos).
    assert (Ha : (0 < Qred x)%Q) by (rewrite Qred_correct; lra).
    pose proof (nearest_positive_error _ Ha) as He.
    pose proof (nearest_positive_nonneg _ Ha) as Hn.
    set (y := nearest_positive (Qred x)) in *. clearbody y.
    assert (Ex : (Qred x == x)%Q) by apply Qred_correct.
    rewrite Ex in He. rewrite (Qabs_pos x) in * by lra.
    assert (Hp : (pow2 (-53) * x <= pow2 (-53) * pow2 1000)%Q)
      by (apply Qmult_le_l; lra).
    assert (Hy : (y < pow2 1024)%Q).
    { revert He. apply Qabs_case; intros; lra. }
    rewrite (overflows_false _ Hy). exists (Qred y).
    split; [reflexivity |]. rewrite Qred_correct, (Qabs_pos x) by lra.
    split; [exact He | split; intros; lra].
  - rewrite (round_nearest_zero x Hzero). exists 0%Q.
    split; [reflexivity |]. rewrite Hzero.
    split; [| split; intros; lra].
    change (Qabs (0 - 0)) with 0%Q. change (Qabs 0) with 0%Q. lra.
Qed.

Lemma exact_margin : (pow2 53 * pow2 900 < pow2 1024)%Q.
Proof. apply Qlt_alt. vm_compute. reflexivity. Qed.

(** A value with at most 53 significant bits is represented exactly. *)
Lemma round_nearest_exact (x : Q) (m k : Z) :
  (x == inject_Z m * pow2 k)%Q -> Z.abs m < 2 ^ 53 -> -1074 <= k <= 900 ->
  round_nearest x = Num (Qred x).
Proof.
  intros Ex Hm Hk. pose proof exact_margin as Hmargin.
  pose proof (pow2_pos k) as Hpk.
  assert (Hk900 : (pow2 k <= pow2 900)%Q) by (apply pow2_le; lia).
  destruct (Z.lt_trichotomy m 0) as [Hneg | [Hzero | Hpos]].
  - assert (Hx : (x < 0)%Q).
    { rewrite Ex. setoid_replace 0%Q with (0 * pow2 k)%Q using relation Qeq by ring.
      apply Qmult_lt_r; [exact Hpk |]. rewrite <- (Zlt_Qlt _ 0). exact Hneg. }
    rewrite (round_nearest_negative x Hx).
    assert (Ea : (- Qred x == inject_Z (- m) * pow2 k)%Q).
    { rewrite Qred_correct, Ex, inject_Z_opp. ring. }
    pose proof (nearest_positive_exact _ _ _ Ea ltac:(lia) ltac:(lia)) as Hy.
    assert (Hb : (inject_Z (- m) < pow2 53)%Q).
    { rewrite (pow2_Z 53) by lia. rewrite <- Zlt_Qlt. lia. }
    assert (Hlt : (nearest_positive (- Qred x) < pow2 1024)%Q).
    { rewrite Hy, Ea.
      apply Qle_lt_trans with (inject_Z (- m) * pow2 900)%Q.
      - apply Qmult_le_l; [rewrite <- (Zlt_Qlt 0); lia | exact Hk900].
      - apply Qlt_trans with (pow2 53 * pow2 900)%Q; [| exact Hmargin].
        apply Qmult_lt_r; [apply pow2_pos | exact Hb]. }
    rewrite (overflows_false _ Hlt). f_equal. apply Qred_complete.
    rewrite Hy, Qred_correct. ring.
  - subst m. assert (Hx : (x == 0)%Q) by (rewrite Ex; ring).
    rewrite (round_nearest_zero x Hx). f_equal.
    now rewrite (Qred_complete _ _ Hx).
  - assert (Hx : (0 < x)%Q).
    { rewrite Ex. apply Qmult_lt_0_compat; [| exact Hpk].
      rewrite <- (Zlt_Qlt 0). exact Hpos. }
    rewrite (round_nearest_positive x Hx).
    assert (Ea : (Qred x == inject_Z m * pow2 k)%Q) by now rewrite Qred_correct.
    pose proof (nearest_positive_exact _ _ _ Ea ltac:(lia) ltac:(lia)) as Hy.
    assert (Hb : (inject_Z m < pow2 53)%Q).
    { rewrite (pow2_Z 53) by lia. rewrite <- Zlt_Qlt. lia. }
    assert (Hlt : (nearest_positive (Qred x) < pow2 1024)%Q).
    { rewrite Hy, Ea.
      apply Qle_lt_trans with (inject_Z m * pow2 900)%Q.
      - apply Qmult_le_l; [rewrite <- (Zlt_Qlt 0); lia | exact Hk900].
      - apply Qlt_trans with (pow2 53 * pow2 900)%Q; [| exact Hmargin].
        apply Qmult_lt_r; [apply pow2_pos | exact Hb]. }
    rewrite (overflows_false _ Hlt). f_equal. apply Qred_complete.
    rewrite Hy, Qred_correct. reflexivity.
Qed.

Lemma Qred_inject_Z (n : Z) : Qred (inject_Z n) = inject_Z n.
Proof.
  unfold Qred, inject_Z.
  pose proof (Z.ggcd_gcd n 1) as Hg.
  pose proof (Z.ggcd_correct_divisors n 1) as Hd.
  destruct (Z.ggcd n 1) as [g [aa bb]]. simpl in *.
  rewrite Z.gcd_1_r in Hg. subst g. destruct Hd as [Ha Hb].
  assert (Ea : aa = n) by lia. assert (Eb : bb = 1) by lia.
  rewrite Ea, Eb. reflexivity.
Qed.

(** Integers below [2^53] are numbers. *)
Lemma of_Z_exact (n : Z) : Z.abs n < 2 ^ 53 -> of_Z n = Num (inject_Z n).
Proof.
  intros Hn. unfold of_Z.
  rewrite (round_nearest_exact (inject_Z n) n 0); [| | exact Hn | lia].
  - now rewrite Qred_inject_Z.
  - change (pow2 0) with 1%Q. ring.
Qed.

(** On the operands that matter to the service, and on the largest
    integers, the operations of [Double] are those of binary64 as the
    Standard Library specifies them: quotient, product, difference, the
    scaled side [a * (b / a)], the distance [a / b - 16 / 9] and the
    margin [(a * (b / a) - b) / 2]; so is the literal [0.05]. *)
Lemma double_is_binary64 :
  Binary64.agree div Binary64.div = true /\
  Binary64.agree mul Binary64.mul = true /\
  Binary64.agree sub Binary64.sub = true /\
  Binary64.agree (fun a b => mul a (div b a))
    (fun a b => Binary64.mul a (Binary64.div b a)) = true /\
  Binary64.agree (fun a b => sub (div a b) (div 16 9))
    (fun a b => Binary64.sub (Binary64.div a b)
                  (Binary64.div (Binary64.of_Z 16) (Binary64.of_Z 9))) = true /\
  Binary64.agree (fun a b => div (sub (mul a (div b a)) b) 2)
    (fun a b => Binary64.div (Binary64.sub (Binary64.mul a (Binary64.div b a)) b)
                  (Binary64.of_Z 2)) = true /\
  Binary64.same (literal (5 # 100))
    (Binary64.div (Binary64.of_Z 5) (Binary64.of_Z 100)) = true.
Proof. split_and!; vm_compute; reflexivity. Qed.

End DoubleFacts.

(** ** Aspect-ratio detection *)

Section Detection.

Import Double ImageProcessor Spec.

Lemma unit_roundoff : (pow2 (-53) == 1 # 9007199254740992)%Q.
Proof. reflexivity. Qed.

Lemma tiny_bound : (pow2 (-1075) <= 1 # 1606938044258990275541962092341162602522202993782792835301376)%Q.
Proof. apply Qle_alt. vm_compute. discriminate. Qed.

Lemma eps_value : (eps == 1 # 4398046511104)%Q.
Proof. reflexivity. Qed.

Lemma tolerance_value :
  tolerance = Num (3602879701896397 # 72057594037927936).
Proof. vm_compute. reflexivity. Qed.

Lemma near_inside (x y t T : Q) :
  (0 < x <= 4)%Q -> (0 <= T <= 2)%Q ->
  (Qabs (y - x) <= pow2 (-53) * Qabs x + pow2 (-1075))%Q ->
  (Qabs (t - T) <= pow2 (-52))%Q ->
  (Qabs (x - T) <= (1 # 20) - eps)%Q ->
  near y t = true.
Proof.
  intros Hx HT Hy Ht Hin. unfold near.
  assert (Hd : (Qabs (y - t) <= 8)%Q).
  { revert Hy Ht Hin. rewrite (Qabs_pos x) by lra.
    rewrite unit_roundoff. pose proof tiny_bound. rewrite eps_value.
    change (pow2 (-52)) with (1 # 4503599627370496)%Q.
    intros. abs_cases; lra. }
  destruct (round_nearest_finite (y - t)) as (d & Ed & Herr & _).
  { apply Qle_trans with 8%Q; [exact Hd |]. apply Qle_alt. vm_compute. discriminate. }
  cbn [sub abs]. rewrite Ed, tolerance_value. cbn [abs ltb].
  destruct (Qlt_le_dec _ _) as [Hlt | Hge]; [reflexivity | exfalso].
  revert Hy Ht Hin Herr Hge Hd. rewrite (Qabs_pos x) by lra.
  rewrite unit_roundoff. pose proof tiny_bound. rewrite eps_value.
  change (pow2 (-52)) with (1 # 4503599627370496)%Q.
  set (e := Qabs (y - t)).
  intros Hy Ht Hin Herr Hge He.
  assert (He' : (e <= (1 # 20) - (1 # 8796093022208))%Q).
  { subst e. abs_cases; lra. }
  assert (Hdd : (Qabs d <= e + ((1 # 9007199254740992) * e + pow2 (-1075)))%Q).
  { subst e. clear Hy Ht Hin He Hge. abs_cases; lra. }
  clearbody e. lra.
Qed.

Lemma near_outside (x y t T : Q) :
  (0 < x <= 8589934592)%Q -> (0 <= T <= 2)%Q ->
  (Qabs (y - x) <= pow2 (-53) * Qabs x + pow2 (-1075))%Q ->
  (Qabs (t - T) <= pow2 (-52))%Q ->
  ((1 # 20) + eps <= Qabs (x - T))%Q ->
  near y t = false.
Proof.
  intros Hx HT Hy Ht Hout. unfold near.
  revert Hy Ht Hout. rewrite (Qabs_pos x) by lra.
  rewrite unit_roundoff. pose proof tiny_bound as Htiny. rewrite eps_value.
  change (pow2 (-52)) with (1 # 4503599627370496)%Q.
  intros Hy Ht Hout.
  assert (Hd : (Qabs (y - t) <= 17179869184)%Q) by (abs_cases; lra).
  assert (Hlow : ((1 # 20) + (1 # 8796093022208) <= Qabs (y - t))%Q).
  { destruct (Qlt_le_dec 4 x) as [Hbig | Hsmall]; abs_cases; lra. }
  destruct (round_nearest_finite (y - t)) as (d & Ed & Herr & _).
  { apply Qle_trans with 17179869184%Q; [exact Hd |].
    apply Qle_alt. vm_compute. discriminate. }
  cbn [sub abs]. rewrite Ed, tolerance_value. cbn [abs ltb].
  destruct (Qlt_le_dec _ _) as [Hlt | Hge]; [exfalso | reflexivity].
  revert Herr. rewrite unit_roundoff. intros Herr.
  set (e := Qabs (y - t)) in *.
  assert (Hdd : (e - ((1 # 9007199254740992) * e + pow2 (-1075)) <= Qabs d)%Q).
  { subst e. clear Hy Ht Hout Hd Hlow Hlt. abs_cases; lra. }
  clearbody e. lra.
Qed.

(** The quotient of two positive integers below [2^32], as a number. *)
Lemma ratio_number (w h : Z) :
  0 < w < 2 ^ 32 -> 0 < h < 2 ^ 32 ->
  exists y,
    div w h = Num y /\
    (Qabs (y - inject_Z w / inject_Z h)
     <= pow2 (-53) * Qabs (inject_Z w / inject_Z h) + pow2 (-1075))%Q /\
    (0 <= y)%Q.
Proof.
  intros Hw Hh.
  rewrite (of_Z_exact w), (of_Z_exact h) by lia. cbn [div].
  assert (Hhq : (0 < inject_Z h)%Q) by (rewrite <- (Zlt_Qlt 0); lia).
  assert (Hwq : (0 < inject_Z w)%Q) by (rewrite <- (Zlt_Qlt 0); lia).
  assert (Hw32 : (inject_Z w <= 4294967296)%Q)
    by (change 4294967296%Q with (inject_Z (2 ^ 32)); rewrite <- Zle_Qle; lia).
  assert (Hh1 : (1 <= inject_Z h)%Q)
    by (change 1%Q with (inject_Z 1); rewrite <- Zle_Qle; lia).
  assert (Ez : is_zero (inject_Z h) = false).
  { unfold is_zero. destruct (Qeq_bool _ _) eqn:E; [| reflexivity].
    apply Qeq_bool_iff in E. lra. }
  rewrite Ez.
  assert (Hq : (0 < inject_Z w / inject_Z h)%Q /\
               (inject_Z w / inject_Z h <= 4294967296)%Q).
  { split.
    - apply Qlt_shift_div_l; lra.
    - apply Qle_shift_div_r; [exact Hhq |].
      assert (4294967296 * 1 <= 4294967296 * inject_Z h)%Q
        by (apply Qmult_le_l; lra).
      lra. }
  destruct (round_nearest_finite (inject_Z w / inject_Z h))
    as (y & Ey & Herr & Hpos & _).
  { rewrite Qabs_pos by lra.
    apply Qle_trans with 4294967296%Q; [tauto |].
    apply Qle_alt. vm_compute. discriminate. }
  exists y. split; [exact Ey |]. split; [exact Herr |]. apply Hpos. lra.
Qed.

(** A quotient with a denominator below [2^32] that differs from a
    fraction with a denominator of at most 1024 differs from it by more
    than [eps]. *)
Lemma quotient_gap (w h p q : Z) :
  0 < h < 2 ^ 32 -> 0 < q <= 1024 ->
  let x := (inject_Z w / inject_Z h)%Q in
  let b := (inject_Z p / inject_Z q)%Q in
  ((x < b)%Q -> (x <= b - eps)%Q) /\ ((b < x)%Q -> (b + eps <= x)%Q).
Proof.
  intros Hh Hq x b.
  assert (Ex : (x == w # Z.to_pos h)%Q).
  { subst x. rewrite (Qmake_Qdiv w (Z.to_pos h)). now rewrite Z2Pos.id by lia. }
  assert (Eb : (b == p # Z.to_pos q)%Q).
  { subst b. rewrite (Qmake_Qdiv p (Z.to_pos q)). now rewrite Z2Pos.id by lia. }
  rewrite Ex, Eb, eps_value.
  unfold Qminus, Qopp, Qplus, Qlt, Qle. cbn [Qnum Qden].
  rewrite !Pos2Z.inj_mul, !Z2Pos.id by lia.
  assert (Hqh : q * h <= 4398046511104) by nia.
  split; intros H.
  - assert (H1 : w * q + 1 <= p * h) by lia.
    assert (H2 : (w * q + 1) * 4398046511104 <= p * h * 4398046511104) by nia.
    lia.
  - assert (H1 : p * h + 1 <= w * q) by lia.
    assert (H2 : (p * h + 1) * 4398046511104 <= w * q * 4398046511104) by nia.
    lia.
Qed.

(** Away from the two ends of the tolerance interval the test on numbers
    is the exact test. *)
Lemma near_exact (w h p q : Z) (y t : Q) :
  0 < w < 2 ^ 32 -> 0 < h < 2 ^ 32 -> 0 <= p -> 0 < q <= 16 -> p <= 2 * q ->
  let x := (inject_Z w / inject_Z h)%Q in
  let T := (inject_Z p / inject_Z q)%Q in
  (Qabs (y - x) <= pow2 (-53) * Qabs x + pow2 (-1075))%Q ->
  (Qabs (t - T) <= pow2 (-52))%Q ->
  ~ (x == T - (1 # 20))%Q -> ~ (x == T + (1 # 20))%Q ->
  near y t = strictly_near x T.
Proof.
  intros Hw Hh Hp Hq Hpq x T Hy Ht Hlo Hhi.
  assert (Hhq : (0 < inject_Z h)%Q) by (rewrite <- (Zlt_Qlt 0); lia).
  assert (Hwq : (0 < inject_Z w)%Q) by (rewrite <- (Zlt_Qlt 0); lia).
  assert (Hqq : (0 < inject_Z q)%Q) by (rewrite <- (Zlt_Qlt 0); lia).
  assert (Hx : (0 < x)%Q /\ (x <= 4294967296)%Q).
  { subst x. split.
    - apply Qlt_shift_div_l; lra.
    - apply Qle_shift_div_r; [exact Hhq |].
      assert (inject_Z w <= 4294967296)%Q
        by (change 4294967296%Q with (inject_Z (2 ^ 32)); rewrite <- Zle_Qle; lia).
      assert (1 <= inject_Z h)%Q
        by (change 1%Q with (inject_Z 1); rewrite <- Zle_Qle; lia).
      assert (4294967296 * 1 <= 4294967296 * inject_Z h)%Q
        by (apply Qmult_le_l; lra).
      lra. }
  assert (HT : (0 <= T <= 2)%Q).
  { subst T. split.
    - apply Qle_shift_div_l; [exact Hqq |].
      assert (0 <= inject_Z p)%Q by (rewrite <- (Zle_Qle 0); lia). lra.
    - apply Qle_shift_div_r; [exact Hqq |].
      rewrite <- (inject_Z_mult 2). rewrite <- Zle_Qle. lia. }
  (* the ends of the interval as fractions *)
  assert (Elo : (T - (1 # 20) == inject_Z (20 * p - q) / inject_Z (20 * q))%Q).
  { subst T. replace (20 * p - q) with (20 * p + - q) by lia.
    rewrite inject_Z_plus, inject_Z_opp, !inject_Z_mult.
    change (inject_Z 20) with 20%Q. field. lra. }
  assert (Ehi : (T + (1 # 20) == inject_Z (20 * p + q) / inject_Z (20 * q))%Q).
  { subst T. rewrite !inject_Z_mult, inject_Z_plus, !inject_Z_mult.
    change (inject_Z 20) with 20%Q. field. lra. }
  destruct (quotient_gap w h (20 * p - q) (20 * q) Hh ltac:(lia)) as [Glo1 Glo2].
  destruct (quotient_gap w h (20 * p + q) (20 * q) Hh ltac:(lia)) as [Ghi1 Ghi2].
  fold x in Glo1, Glo2, Ghi1, Ghi2.
  rewrite <- Elo in Glo1, Glo2. rewrite <- Ehi in Ghi1, Ghi2.
  clear Elo Ehi.
  unfold strictly_near. clearbody x T.
  destruct (Qlt_le_dec (Qabs (x - T)) (5 # 100)) as [Hin | Hout].
  - assert (Hl : (T - (1 # 20) < x)%Q) by (revert Hin; abs_cases; lra).
    assert (Hr : (x < T + (1 # 20))%Q) by (revert Hin; abs_cases; lra).
    specialize (Glo2 Hl). specialize (Ghi1 Hr).
    apply (near_inside x y t T); [lra | exact HT | exact Hy | exact Ht |].
    rewrite eps_value in *. clear Hy Ht Hin. abs_cases; lra.
  - apply (near_outside x y t T); [lra | exact HT | exact Hy | exact Ht |].
    rewrite eps_value in *. clear Hy Ht.
    destruct (Q_dec x (T - (1 # 20))) as [[H | H] | H]; [| | tauto].
    + specialize (Glo1 H). abs_cases; lra.
    + destruct (Q_dec x (T + (1 # 20))) as [[H' | H'] | H']; [| | tauto].
      * exfalso. revert Hout. abs_cases; lra.
      * specialize (Ghi2 H'). abs_cases; lra.
Qed.

Lemma strictly_near_comp (x x' T T' : Q) :
  (x == x')%Q -> (T == T')%Q -> strictly_near x T = strictly_near x' T'.
Proof.
  intros Ex ET. unfold strictly_near.
  destruct (Qlt_le_dec (Qabs (x - T)) (5 # 100)) as [H | H];
    destruct (Qlt_le_dec (Qabs (x' - T')) (5 # 100)) as [H' | H'];
    try reflexivity; exfalso; rewrite Ex, ET in H; lra.
Qed.

Lemma classify_strictly_near (w h : Z) :
  let x := (inject_Z w / inject_Z h)%Q in
  key (classify w h)
  = if strictly_near x 1 then "1:1"
    else if strictly_near x (16 # 9) then "16:9"
    else if strictly_near x (9 # 16) then "9:16"
    else "other".
Proof.
  unfold classify, strictly_near. cbv zeta.
  repeat destruct (Qlt_le_dec _ _); reflexivity.
Qed.

Lemma classify_ratio (w h w' h' : Z) :
  (inject_Z w / inject_Z h == inject_Z w' / inject_Z h')%Q ->
  classify w h = classify w' h'.
Proof.
  intros E.
  pose proof (strictly_near_comp _ _ 1 1 E ltac:(reflexivity)) as H1.
  pose proof (strictly_near_comp _ _ (16 # 9) (16 # 9) E ltac:(reflexivity)) as H2.
  pose proof (strictly_near_comp _ _ (9 # 16) (9 # 16) E ltac:(reflexivity)) as H3.
  unfold strictly_near in H1, H2, H3. unfold classify. cbv zeta.
  repeat destruct (Qlt_le_dec _ _); try reflexivity; discriminate.
Qed.

Lemma sixteen_ninths :
  exists t, div 16 9 = Num t /\ (Qabs (t - (16 # 9)) <= pow2 (-52))%Q.
Proof.
  eexists. split; [vm_compute; reflexivity |].
  apply Qle_alt. vm_compute. discriminate.
Qed.

(** What [detectAspectRatio] computes on a finite ratio. *)
Lemma detectAspectRatio_near (width height : number) (y : Q) :
  div width height = Num y ->
  exists t,
    div 16 9 = Num t /\ (Qabs (t - (16 # 9)) <= pow2 (-52))%Q /\
    detectAspectRatio width height
    = if near y 1 then "1:1"
      else if near y t then "16:9"
      else if near y (9 # 16) then "9:16"
      else "other".
Proof.
  intros Ey. destruct sixteen_ninths as (t & Et & Ht).
  exists t. split; [exact Et |]. split; [exact Ht |].
  unfold detectAspectRatio, near. rewrite Ey, Et.
  change (of_Z 1) with (Num 1). change (div 9 16) with (Num (9 # 16)).
  reflexivity.
Qed.

(** The answer depends on the exact ratio only. *)
Lemma detectAspectRatio_ratio (w h w' h' : Z) :
  Z.abs w < 2 ^ 53 -> Z.abs w' < 2 ^ 53 ->
  0 < Z.abs h < 2 ^ 53 -> 0 < Z.abs h' < 2 ^ 53 ->
  (inject_Z w / inject_Z h == inject_Z w' / inject_Z h')%Q ->
  detectAspectRatio w h = detectAspectRatio w' h'.
Proof.
  intros Hw Hw' Hh Hh' E. unfold detectAspectRatio.
  rewrite !(of_Z_exact w), !(of_Z_exact h), !(of_Z_exact w'), !(of_Z_exact h')
    by lia.
  assert (Ed : div (Num (inject_Z w)) (Num (inject_Z h))
               = div (Num (inject_Z w')) (Num (inject_Z h'))).
  { cbn [div].
    assert (Ez : forall n, 0 < Z.abs n -> is_zero (inject_Z n) = false).
    { intros n Hn. unfold is_zero. destruct (Qeq_bool _ _) eqn:Eb; [| reflexivity].
      apply Qeq_bool_iff in Eb. unfold Qeq in Eb. simpl in Eb. lia. }
    rewrite !Ez by lia. now apply round_nearest_comp. }
  now rewrite Ed.
Qed.

Lemma quotient_eq (w h p q : Z) :
  0 < h -> 0 < q ->
  (inject_Z w / inject_Z h == p # Z.to_pos q)%Q ->
  (inject_Z w / inject_Z h == inject_Z p / inject_Z q)%Q.
Proof.
  intros Hh Hq E. rewrite E, (Qmake_Qdiv p (Z.to_pos q)).
  now rewrite Z2Pos.id by lia.
Qed.

(** On positive dimensions below [2^32] the answer is that of the exact
    test with the strict tolerance, except at the ratio 311 : 180: there
    the distance from 16 : 9 is exactly 0.05 and the answer is ["16:9"]. *)
Lemma detectAspectRatio_exact (w h : Z) :
  0 < w < 2 ^ 32 -> 0 < h < 2 ^ 32 ->
  detectAspectRatio w h
  = if Qeq_bool (inject_Z w / inject_Z h) (311 # 180) then "16:9"
    else key (classify w h).
Proof.
  intros Hw Hh.
  set (x := (inject_Z w / inject_Z h)%Q).
  assert (Hat : forall p q : Z,
             0 < p < 2 ^ 32 -> 0 < q < 2 ^ 32 ->
             (x == p # Z.to_pos q)%Q ->
             detectAspectRatio w h = detectAspectRatio p q /\
             classify w h = classify p q /\
             Qeq_bool x (311 # 180) = Qeq_bool (p # Z.to_pos q) (311 # 180)).
  { intros p q Hp Hq E. split; [| split].
    - apply detectAspectRatio_ratio; try lia. now apply quotient_eq.
    - apply classify_ratio. now apply quotient_eq.
    - destruct (Qeq_bool (p # Z.to_pos q) (311 # 180)) eqn:Eb.
      + apply Qeq_bool_iff. apply Qeq_bool_iff in Eb. now rewrite E.
      + destruct (Qeq_bool x (311 # 180)) eqn:Eb'; [| reflexivity].
        apply Qeq_bool_iff in Eb'. rewrite E in Eb'.
        apply Qeq_bool_iff in Eb'. congruence. }
  destruct (Qeq_dec x (19 # 20)) as [E | N1].
  { destruct (Hat 19 20 ltac:(lia) ltac:(lia) E) as (-> & -> & ->). reflexivity. }
  destruct (Qeq_dec x (21 # 20)) as [E | N2].
  { destruct (Hat 21 20 ltac:(lia) ltac:(lia) E) as (-> & -> & ->). reflexivity. }
  destruct (Qeq_dec x (311 # 180)) as [E | N3].
  { destruct (Hat 311 180 ltac:(lia) ltac:(lia) E) as (-> & -> & ->). reflexivity. }
  destruct (Qeq_dec x (329 # 180)) as [E | N4].
  { destruct (Hat 329 180 ltac:(lia) ltac:(lia) E) as (-> & -> & ->). reflexivity. }
  destruct (Qeq_dec x (41 # 80)) as [E | N5].
  { destruct (Hat 41 80 ltac:(lia) ltac:(lia) E) as (-> & -> & ->). reflexivity. }
  destruct (Qeq_dec x (49 # 80)) as [E | N6].
  { destruct (Hat 49 80 ltac:(lia) ltac:(lia) E) as (-> & -> & ->). reflexivity. }
  clear Hat.
  assert (Eb : Qeq_bool x (311 # 180) = false).
  { destruct (Qeq_bool x (311 # 180)) eqn:Eb; [| reflexivity].
    apply Qeq_bool_iff in Eb. contradiction. }
  rewrite Eb.
  destruct (ratio_number w h Hw Hh) as (y & Ey & Herr & _). fold x in Herr.
  destruct (detectAspectRatio_near w h y Ey) as (t & _ & Ht & ->).
  rewrite classify_strictly_near. fold x.
  assert (E1 : near y 1 = strictly_near x 1).
  { rewrite (strictly_near_comp x x 1 (inject_Z 1 / inject_Z 1))
      by reflexivity.
    apply (near_exact w h 1 1); try lia; try exact Herr.
    - apply Qle_alt. vm_compute. discriminate.
    - intros E. apply N1. eapply Qeq_trans; [exact E | reflexivity].
    - intros E. apply N2. eapply Qeq_trans; [exact E | reflexivity]. }
  assert (E2 : near y t = strictly_near x (16 # 9)).
  { rewrite (strictly_near_comp x x (16 # 9) (inject_Z 16 / inject_Z 9))
      by reflexivity.
    apply (near_exact w h 16 9); try lia; try exact Herr.
    - exact Ht.
    - intros E. apply N3. eapply Qeq_trans; [exact E | reflexivity].
    - intros E. apply N4. eapply Qeq_trans; [exact E | reflexivity]. }
  assert (E3 : near y (9 # 16) = strictly_near x (9 # 16)).
  { rewrite (strictly_near_comp x x (9 # 16) (inject_Z 9 / inject_Z 16))
      by reflexivity.
    apply (near_exact w h 9 16); try lia; try exact Herr.
    - apply Qle_alt. vm_compute. discriminate.
    - intros E. apply N5. eapply Qeq_trans; [exact E | reflexivity].
    - intros E. apply N6. eapply Qeq_trans; [exact E | reflexivity]. }
  now rewrite E1, E2, E3.
Qed.



(** C4, as the code has it: on positive dimensions below [2^32]
    [detectAspectRatio] is the ordered three-way test of the specification
    with a strict tolerance of 0.05, except at the ratio 311 : 180, whose
    distance from 16 : 9 is exactly 0.05 and which the comparison in
    doubles accepts as landscape; a ratio of exactly 1.0475 is square, and
    the five literal cases classify as stated. *)
Theorem detectAspectRatio_ordered_tolerance :
  (forall w h : Z,
      0 < w < 2 ^ 32 -> 0 < h < 2 ^ 32 ->
      detectAspectRatio w h
      = if Qeq_bool (inject_Z w / inject_Z h) (311 # 180)
        then Spec.key Spec.landscape
        else Spec.key (Spec.classify w h)) /\
  (forall w h : Z,
      0 < w < 2 ^ 32 -> 0 < h < 2 ^ 32 ->
      (inject_Z w / inject_Z h == 10475 # 10000)%Q ->
      detectAspectRatio w h = Spec.key Spec.square) /\
  detectAspectRatio 1024 1024 = Spec.key Spec.square /\
  detectAspectRatio 1920 1080 = Spec.key Spec.landscape /\
  detectAspectRatio 1080 1920 = Spec.key Spec.portrait /\
  detectAspectRatio 800 801 = Spec.key Spec.square /\
  detectAspectRatio 1000 400 = Spec.key Spec.other.
Proof.
  split; [exact detectAspectRatio_exact |].
  split; [| split_and!; vm_compute; reflexivity].
  intros w h Hw Hh E.
  rewrite (detectAspectRatio_exact w h Hw Hh).
  assert (Eb : Qeq_bool (inject_Z w / inject_Z h) (311 # 180) = false).
  { destruct (Qeq_bool _ _) eqn:Eb; [| reflexivity].
    apply Qeq_bool_iff in Eb. rewrite E in Eb. discriminate Eb. }
  rewrite Eb, (classify_ratio w h 419 400); [reflexivity |].
  rewrite E. reflexivity.
Qed.

Lemma detectAspectRatio_ordered_tolerance_witness :
  (inject_Z 4190 / inject_Z 4000 == 10475 # 10000)%Q /\
  detectAspectRatio 4190 4000 = "1:1".
Proof.
  split; [reflexivity |].
  apply (proj1 (proj2 detectAspectRatio_ordered_tolerance) 4190 4000);
    [lia | lia | reflexivity].
Defined.

(** The ratio 311 : 180 lies exactly 0.05 below 16 : 9: the strict test
    of the specification sends it to [other], the code to landscape.  And
    sides of fifty bits can have a ratio so little below 1.05 that the
    quotient is rounded to a double above it: the strict test says square,
    the code [other]. *)
Lemma boundary_ratio_classified_landscape :
  (Qabs (inject_Z 311 / inject_Z 180 - (16 # 9)) == 5 # 100)%Q /\
  Spec.classify 311 180 = Spec.other /\
  detectAspectRatio 311 180 = "16:9" /\
  detectAspectRatio 1866 1080 = "16:9" /\
  Spec.classify 1182194902184773 1125899906842641 = Spec.square /\
  detectAspectRatio 1182194902184773 1125899906842641 = "other".
Proof. split_and!; vm_compute; reflexivity. Qed.




End Detection.

(** ** The scale-and-pad geometry *)

Section Geometry.

Import Double ImageProcessor Spec.

Lemma inject_Z_bounds (n : Z) :
  0 < n < 2 ^ 32 -> (1 <= inject_Z n)%Q /\ (inject_Z n <= 4294967295)%Q.
Proof.
  intros Hn. change 1%Q with (inject_Z 1).
  change 4294967295%Q with (inject_Z 4294967295).
  rewrite <- !Zle_Qle. lia.
Qed.

Lemma Qabs_scale (K a A e : Q) :
  (0 <= K)%Q -> (Qabs (a - A) <= e)%Q -> (Qabs (K * a - K * A) <= K * e)%Q.
Proof.
  intros HK He.
  setoid_replace (K * a - K * A)%Q with (K * (a - A))%Q using relation Qeq by ring.
  rewrite Qabs_Qmult, (Qabs_pos K) by exact HK.
  destruct (Qeq_dec K 0) as [E | N].
  - rewrite E. lra.
  - apply Qmult_le_l; [| exact He]. lra.
Qed.

(** The quotient of two positive integers below [2^32]. *)
Lemma quotient_number (n d : Z) :
  0 < n < 2 ^ 32 -> 0 < d < 2 ^ 32 ->
  exists a,
    div n d = Num a /\ (0 <= a)%Q /\
    (Qabs (inject_Z d * a - inject_Z n)
     <= pow2 (-53) * inject_Z n + 4294967295 * pow2 (-1075))%Q.
Proof.
  intros Hn Hd.
  destruct (ratio_number n d Hn Hd) as (a & Ea & Herr & Ha).
  exists a. split; [exact Ea |]. split; [exact Ha |].
  destruct (inject_Z_bounds n Hn) as [Hn1 Hn2].
  destruct (inject_Z_bounds d Hd) as [Hd1 Hd2].
  set (N := inject_Z n) in *. set (D := inject_Z d) in *.
  assert (HA : (0 < N / D)%Q) by (apply Qlt_shift_div_l; lra).
  rewrite (Qabs_pos (N / D)) in Herr by lra.
  apply (Qabs_scale D) in Herr; [| lra].
  assert (E1 : (D * (N / D) == N)%Q) by (field; lra).
  assert (E2 : (D * (pow2 (-53) * (N / D) + pow2 (-1075))
                == pow2 (-53) * N + D * pow2 (-1075))%Q) by (field; lra).
  rewrite E1, E2 in Herr.
  assert (D * pow2 (-1075) <= 4294967295 * pow2 (-1075))%Q.
  { apply Qmult_le_compat_r; [exact Hd2 |]. pose proof (pow2_pos (-1075)). lra. }
  set (v := Qabs (D * a - N)) in *. clearbody v N D. lra.
Qed.

Lemma min_number (a b : Q) :
  min (Num a) (Num b) = Num (if Qlt_le_dec b a then b else a).
Proof.
  unfold min. cbn [ltb]. now destruct (Qlt_le_dec b a).
Qed.

(** The product of a positive integer below [2^32] and a scale. *)
Lemma product_number (n : Z) (s : Q) :
  0 < n < 2 ^ 32 -> (0 <= s <= 8589934592)%Q ->
  exists p,
    mul n (Num s) = Num p /\ (0 <= p)%Q /\
    (Qabs (p - inject_Z n * s)
     <= pow2 (-53) * (inject_Z n * s) + pow2 (-1075))%Q.
Proof.
  intros Hn Hs. rewrite (of_Z_exact n) by lia. cbn [mul].
  destruct (inject_Z_bounds n Hn) as [Hn1 Hn2].
  assert (Hp : (0 <= inject_Z n * s)%Q) by (apply Qmult_le_0_compat; lra).
  assert (Hq : (inject_Z n * s <= 4294967295 * 8589934592)%Q).
  { apply Qle_trans with (4294967295 * s)%Q.
    - apply Qmult_le_compat_r; lra.
    - apply Qmult_le_l; lra. }
  destruct (round_nearest_finite (inject_Z n * s)) as (p & Ep & Herr & Hpos & _).
  { rewrite (Qabs_pos (inject_Z n * s)) by exact Hp.
    apply Qle_trans with (4294967295 * 8589934592)%Q; [exact Hq |].
    apply Qle_alt. vm_compute. discriminate. }
  rewrite (Qabs_pos (inject_Z n * s)) in Herr by exact Hp.
  exists p. split; [exact Ep |]. split; [now apply Hpos | exact Herr].
Qed.

(** Half the slack, rounded: [Math.round((target - size) / 2)]. *)
Lemma margin_number (target size : Z) :
  Z.abs target < 2 ^ 32 -> Z.abs size < 2 ^ 32 ->
  round (div (sub target (Num (inject_Z size))) 2)
  = Num (inject_Z ((target - size + 1) / 2)).
Proof.
  intros Ht Hs. rewrite (of_Z_exact target) by lia. cbn [sub].
  assert (E1 : round_nearest (inject_Z target - inject_Z size)
               = Num (inject_Z (target - size))).
  { rewrite (round_nearest_comp _ (inject_Z (target - size))).
    - apply (of_Z_exact (target - size)). lia.
    - unfold Z.sub. rewrite inject_Z_plus, inject_Z_opp. ring. }
  rewrite E1. change (of_Z 2) with (Num 2). cbn [div].
  change (is_zero 2) with false. cbv iota.
  rewrite (round_nearest_exact _ (target - size) (-1)); [| | lia | lia].
  - cbn [round]. do 2 f_equal.
    rewrite (Qfloor_comp _ (inject_Z (target - size + 1) / inject_Z 2)%Q).
    + symmetry. apply Zdiv_Qdiv.
    + rewrite Qred_correct, inject_Z_plus. change (inject_Z 1) with 1%Q.
      change (inject_Z 2) with 2%Q. field.
  - change (pow2 (-1)) with (1 # 2)%Q. field.
Qed.

Lemma Qfloor_half_le (p : Q) (n : Z) :
  (p < inject_Z n + (1 # 2))%Q -> Qfloor (p + (1 # 2)) <= n.
Proof.
  intros Hp. pose proof (Qfloor_le (p + (1 # 2))) as Hf.
  assert (H : (inject_Z (Qfloor (p + (1 # 2))) < inject_Z (n + 1))%Q).
  { rewrite inject_Z_plus. change (inject_Z 1) with 1%Q.
    set (f := inject_Z (Qfloor _)) in *. clearbody f. lra. }
  rewrite <- Zlt_Qlt in H. lia.
Qed.

Lemma Qfloor_half_ge (p : Q) (n : Z) :
  (inject_Z n - (1 # 2) <= p)%Q -> n <= Qfloor (p + (1 # 2)).
Proof.
  intros Hp. rewrite <- (Qfloor_Z n). apply Qfloor_resp_le. lra.
Qed.

(** One side of the scaled image.  [K] and [T] are the source and target
    sizes on this side, [K'] and [T'] those on the other; [a] and [b] are
    the two quotients as numbers, [s] the smaller one and [p] the product
    of [K] and [s] as a number. *)
Lemma scaled_side (K T K' T' : Z) (a b s p : Q) :
  0 < K < 2 ^ 32 -> 0 < T < 2 ^ 32 -> 0 < K' < 2 ^ 32 -> 0 < T' < 2 ^ 32 ->
  (0 <= a)%Q -> (0 <= b)%Q ->
  (Qabs (inject_Z K * a - inject_Z T)
   <= pow2 (-53) * inject_Z T + 4294967295 * pow2 (-1075))%Q ->
  (Qabs (inject_Z K' * b - inject_Z T')
   <= pow2 (-53) * inject_Z T' + 4294967295 * pow2 (-1075))%Q ->
  (0 <= s)%Q -> (s <= a)%Q -> (s <= b)%Q ->
  (0 <= p)%Q ->
  (Qabs (p - inject_Z K * s) <= pow2 (-53) * (inject_Z K * s) + pow2 (-1075))%Q ->
  let n := Qfloor (p + (1 # 2)) in
  0 <= n <= T /\
  ((s == a)%Q -> n = T) /\
  ((s == b)%Q -> K' < 2 * K * T' -> 1 <= n) /\
  (2 * K * T' < K' -> n = 0).
Proof.
  intros HK HT HK' HT' Ha Hb Hea Heb Hs Hsa Hsb Hp Hep n.
  destruct (inject_Z_bounds K HK) as [HK1 HK2].
  destruct (inject_Z_bounds T HT) as [HT1 HT2].
  destruct (inject_Z_bounds K' HK') as [HK'1 HK'2].
  destruct (inject_Z_bounds T' HT') as [HT'1 HT'2].
  revert Hea Heb Hep. rewrite unit_roundoff. pose proof tiny_bound as Htiny.
  pose proof (pow2_pos (-1075)) as Htpos.
  set (tiny := pow2 (-1075)) in *. clearbody tiny.
  intros Hea Heb Hep.
  assert (Hn0 : 0 <= n).
  { apply (Qfloor_half_ge p 0). change (inject_Z 0) with 0%Q. lra. }
  (* the products as atoms *)
  assert (HsK : (inject_Z K * s <= inject_Z K * a)%Q) by (apply Qmult_le_l; lra).
  assert (HsK0 : (0 <= inject_Z K * s)%Q) by (apply Qmult_le_0_compat; lra).
  set (kq := inject_Z K) in *. set (tq := inject_Z T) in *.
  set (Ps := (kq * s)%Q) in *. set (Pa := (kq * a)%Q) in *.
  assert (Hup : (p < tq + (1 # 2))%Q).
  { clearbody Ps Pa. clear Heb. abs_cases; lra. }
  split; [split; [exact Hn0 | apply Qfloor_half_le; exact Hup] |].
  split; [| split].
  - intros E. assert (EP : (Ps == Pa)%Q) by (unfold Ps, Pa; now rewrite E).
    assert (Hlow : (tq - (1 # 2) <= p)%Q).
    { clearbody Ps Pa. clear Heb. abs_cases; lra. }
    apply Qfloor_half_ge in Hlow. apply Qfloor_half_le in Hup. subst n. lia.
  - intros E Hwide.
    (* K' * (K * b) = K * (K' * b) is about K * T', at least (K' + 1) / 2 *)
    assert (HKT : (inject_Z K' + 1 <= 2 * (kq * inject_Z T'))%Q).
    { unfold kq. rewrite <- !inject_Z_mult.
      change 2%Q with (inject_Z 2). rewrite <- inject_Z_mult.
      change 1%Q with (inject_Z 1). rewrite <- inject_Z_plus, <- Zle_Qle. lia. }
    assert (Hscaled : (Qabs (kq * (inject_Z K' * b) - kq * inject_Z T')
                       <= kq * ((1 # 9007199254740992) * inject_Z T'
                                + 4294967295 * tiny))%Q)
      by (apply Qabs_scale; [lra | exact Heb]).
    assert (EPb : (inject_Z K' * Ps == kq * (inject_Z K' * b))%Q)
      by (unfold Ps; rewrite E; ring).
    rewrite <- EPb in Hscaled.
    assert (Hkt : (kq * ((1 # 9007199254740992) * inject_Z T' + 4294967295 * tiny)
                   == (1 # 9007199254740992) * (kq * inject_Z T')
                      + kq * (4294967295 * tiny))%Q) by ring.
    rewrite Hkt in Hscaled. clear Hkt.
    assert (Hkc : (kq * (4294967295 * tiny) <= 4294967295 * (4294967295 * tiny))%Q)
      by (apply Qmult_le_compat_r; lra).
    assert (HKT2 : (kq * inject_Z T' <= 4294967295 * 4294967295)%Q).
    { apply Qle_trans with (4294967295 * inject_Z T')%Q.
      - apply Qmult_le_compat_r; lra.
      - apply Qmult_le_l; lra. }
    set (X := (inject_Z K' * Ps)%Q) in *. set (Y := (kq * inject_Z T')%Q) in *.
    set (kq' := inject_Z K') in *.
    assert (HX : (kq' * ((1 # 2) + (1 # 34359738368)) <= X)%Q).
    { clearbody X Y Ps Pa kq kq'. clear Hea Hep. abs_cases; lra. }
    assert (HPs : ((1 # 2) + (1 # 34359738368) <= Ps)%Q).
    { apply (Qmult_le_l _ _ kq'); [lra | exact HX]. }
    assert (Hlow : (inject_Z 1 - (1 # 2) <= p)%Q).
    { change (inject_Z 1) with 1%Q. clearbody X Y Ps Pa kq kq'.
      clear Hea Hscaled. abs_cases; lra. }
    apply Qfloor_half_ge in Hlow. exact Hlow.
  - intros Hthin.
    assert (HKT : (2 * (kq * inject_Z T') <= inject_Z K' - 1)%Q).
    { unfold kq. rewrite <- !inject_Z_mult.
      change 2%Q with (inject_Z 2). rewrite <- inject_Z_mult.
      change 1%Q with (inject_Z 1). unfold Qminus.
      rewrite <- inject_Z_opp, <- inject_Z_plus, <- Zle_Qle. lia. }
    assert (Hscaled : (Qabs (kq * (inject_Z K' * b) - kq * inject_Z T')
                       <= kq * ((1 # 9007199254740992) * inject_Z T'
                                + 4294967295 * tiny))%Q)
      by (apply Qabs_scale; [lra | exact Heb]).
    assert (HsKb : (kq * s <= kq * b)%Q) by (apply Qmult_le_l; lra).
    assert (EPb : (inject_Z K' * (kq * b) == kq * (inject_Z K' * b))%Q) by ring.
    rewrite <- EPb in Hscaled.
    assert (Hkt : (kq * ((1 # 9007199254740992) * inject_Z T' + 4294967295 * tiny)
                   == (1 # 9007199254740992) * (kq * inject_Z T')
                      + kq * (4294967295 * tiny))%Q) by ring.
    rewrite Hkt in Hscaled. clear Hkt.
    assert (Hkc : (kq * (4294967295 * tiny) <= 4294967295 * (4294967295 * tiny))%Q)
      by (apply Qmult_le_compat_r; lra).
    assert (HKT0 : (0 <= kq * inject_Z T')%Q) by (apply Qmult_le_0_compat; lra).
    set (Pb := (kq * b)%Q) in *.
    set (X := (inject_Z K' * Pb)%Q) in *. set (Y := (kq * inject_Z T')%Q) in *.
    set (kq' := inject_Z K') in *.
    assert (HX : (X <= kq' * ((1 # 2) - (1 # 34359738368)))%Q).
    { clearbody X Y Ps Pa Pb kq kq'. clear Hea Hep. abs_cases; lra. }
    assert (HPb : (Pb <= (1 # 2) - (1 # 34359738368))%Q).
    { apply (Qmult_le_l _ _ kq'); [lra | exact HX]. }
    assert (Hlt : (p < inject_Z 0 + (1 # 2))%Q).
    { change (inject_Z 0) with 0%Q. fold Ps in HsKb.
      clearbody X Y Ps Pa Pb kq kq'. clear Hea Hscaled. abs_cases; lra. }
    apply Qfloor_half_le in Hlt. subst n. lia.
Qed.

Lemma quotient_bound (K T : Z) (a : Q) :
  0 < K < 2 ^ 32 -> 0 < T < 2 ^ 32 -> (0 <= a)%Q ->
  (Qabs (inject_Z K * a - inject_Z T)
   <= pow2 (-53) * inject_Z T + 4294967295 * pow2 (-1075))%Q ->
  (a <= 8589934592)%Q.
Proof.
  intros HK HT Ha He.
  destruct (inject_Z_bounds K HK) as [HK1 HK2].
  destruct (inject_Z_bounds T HT) as [HT1 HT2].
  revert He. rewrite unit_roundoff. pose proof tiny_bound as Htiny.
  pose proof (pow2_pos (-1075)) as Htpos.
  set (tiny := pow2 (-1075)) in *. clearbody tiny. intros He.
  assert (H1 : (1 * a <= inject_Z K * a)%Q) by (apply Qmult_le_compat_r; lra).
  set (P := (inject_Z K * a)%Q) in *. clearbody P.
  set (tq := inject_Z T) in *. clearbody tq. abs_cases; lra.
Qed.

(** The numbers of [padGeometry] on positive dimensions below [2^32]. *)
Lemma padGeometry_numbers (ow oh tw th : Z) :
  0 < ow < 2 ^ 32 -> 0 < oh < 2 ^ 32 -> 0 < tw < 2 ^ 32 -> 0 < th < 2 ^ 32 ->
  exists nw nh : Z,
    padGeometry ow oh tw th
    = {| newWidth := Num (inject_Z nw);
         newHeight := Num (inject_Z nh);
         top := Num (inject_Z ((th - nh + 1) / 2));
         left := Num (inject_Z ((tw - nw + 1) / 2)) |} /\
    0 <= nw <= tw /\ 0 <= nh <= th /\
    (nw = tw \/ nh = th) /\
    (oh < 2 * ow * th -> 1 <= nw) /\
    (ow < 2 * oh * tw -> 1 <= nh) /\
    (2 * ow * th < oh -> nw = 0) /\
    (2 * oh * tw < ow -> nh = 0).
Proof.
  intros Hw Hh Htw Hth.
  destruct (quotient_number tw ow Htw Hw) as (a & Ea & Ha & Hea).
  destruct (quotient_number th oh Hth Hh) as (b & Eb & Hb & Heb).
  pose proof (quotient_bound ow tw a Hw Htw Ha Hea) as Ha2.
  pose proof (quotient_bound oh th b Hh Hth Hb Heb) as Hb2.
  set (s := if Qlt_le_dec b a then b else a).
  assert (Hs : (0 <= s)%Q /\ (s <= a)%Q /\ (s <= b)%Q /\
               ((s == a)%Q \/ (s == b)%Q)).
  { subst s. destruct (Qlt_le_dec b a) as [Hlt | Hle].
    - repeat split; lra.
    - repeat split; lra. }
  destruct Hs as (Hs0 & Hsa & Hsb & Hsab).
  destruct (product_number ow s Hw ltac:(lra)) as (pw & Epw & Hpw & Hepw).
  destruct (product_number oh s Hh ltac:(lra)) as (ph & Eph & Hph & Heph).
  pose proof (scaled_side ow tw oh th a b s pw Hw Htw Hh Hth Ha Hb Hea Heb
                Hs0 Hsa Hsb Hpw Hepw) as (Hnw & Hwa & Hwb & Hw0).
  pose proof (scaled_side oh th ow tw b a s ph Hh Hth Hw Htw Hb Ha Heb Hea
                Hs0 Hsb Hsa Hph Heph) as (Hnh & Hhb & Hha & Hh0).
  set (nw := Qfloor (pw + (1 # 2))) in *.
  set (nh := Qfloor (ph + (1 # 2))) in *.
  exists nw, nh. split.
  - unfold padGeometry. rewrite Ea, Eb, min_number. fold s.
    rewrite Epw, Eph. cbn [round]. fold nw nh.
    rewrite (margin_number th nh), (margin_number tw nw) by lia.
    reflexivity.
  - split; [exact Hnw |]. split; [exact Hnh |].
    split; [destruct Hsab as [E | E]; [left; exact (Hwa E) | right; exact (Hhb E)] |].
    split; [| split; [| split; assumption]].
    + intros Hwide. destruct Hsab as [E | E]; [rewrite (Hwa E); lia | exact (Hwb E Hwide)].
    + intros Hwide. destruct Hsab as [E | E]; [exact (Hha E Hwide) | rewrite (Hhb E); lia].
Qed.





(** The products are rounded as doubles are: a source of 1463 by 4224 on
    a canvas of 1024 by 576 is scaled to a width of 199, not of 200. *)
Lemma padGeometry_rounds_products :
  padGeometry 1463 4224 1024 576
  = {| newWidth := Num 199; newHeight := Num 576;
       top := Num 0; left := Num 413 |}.
Proof. vm_compute. reflexivity. Qed.

End Geometry.

(** ** The three-variant driver *)

Section Driver.

Import Sharp ImageProcessor.

Lemma append_cancel_l (p a b : string) : p ++ a = p ++ b -> a = b.
Proof.
  induction p as [| c p IH]; simpl; intros E; [exact E |].
  injection E as E. exact (IH E).
Qed.

(** The padded canvas has exactly the target dimensions. *)
Lemma createPaddedImage_dimensions (imageBuffer paddedImage : Buffer) (tw th : Z) :
  createPaddedImage imageBuffer tw th = Normal paddedImage ->
  Spec.pixelDimensions paddedImage = Some (tw, th).
Proof.
  intros Hrun. unfold createPaddedImage in Hrun.
  destruct (Sharp.metadata imageBuffer) as [info |] eqn:Em;
    simpl in Hrun; [| discriminate].
  unfold resize_jpeg, create_composite_jpeg, check_positive in Hrun.
  destruct (positive_integer "width" _) as [w' |]; simpl in Hrun;
    [| discriminate].
  destruct (positive_integer "height" _) as [h' |]; simpl in Hrun;
    [| discriminate].
  rewrite Em in Hrun. simpl in Hrun.
  destruct (0 <? tw); simpl in Hrun; [| discriminate].
  destruct (0 <? th); simpl in Hrun; [| discriminate].
  destruct (integer "top" _); simpl in Hrun; [| discriminate].
  destruct (integer "left" _); simpl in Hrun; [| discriminate].
  destruct (_ && _); simpl in Hrun; [| discriminate].
  injection Hrun as <-. reflexivity.
Qed.

Lemma processRatio_shape (buf : Buffer) (cid : string) (t : Z) (orig : string)
  (processed processed' : list (string * ProcessedImage))
  (ratioKey : string) (dimensions : Dimensions) :
  processRatio buf cid t orig processed (ratioKey, dimensions) = Normal processed' ->
  exists b,
    processed' =
      obj_set (Js.replace ":" "x" ratioKey)
        {| buffer := b;
           filename := variant_filename cid (Js.replace ":" "x" ratioKey) t |}
        processed.
Proof.
  unfold processRatio, mbind, completion_bind, Js.bind.
  destruct (String.eqb orig ratioKey).
  - destruct (resize_inside_jpeg _ _ _) as [b |]; [| discriminate].
    intros E. injection E as <-. now exists b.
  - destruct (createPaddedImage _ _ _) as [b |]; [| discriminate].
    intros E. injection E as <-. now exists b.
Qed.

Lemma processAllAspectRatios_shape (buf : Buffer) (cid : string) (t : Z)
  (r : ProcessingResult) :
  processAllAspectRatios buf cid t = Normal r ->
  exists b1 b2 b3,
    processedImages r =
      [ ("1x1",  {| buffer := b1; filename := variant_filename cid "1x1" t |});
        ("16x9", {| buffer := b2; filename := variant_filename cid "16x9" t |});
        ("9x16", {| buffer := b3; filename := variant_filename cid "9x16" t |}) ].
Proof.
  unfold processAllAspectRatios, try_catch, mbind, completion_bind, Js.bind.
  destruct (Sharp.metadata buf) as [info |]; [| discriminate].
  unfold ASPECT_RATIO_DIMENSIONS, processRatios, mbind, completion_bind, Js.bind.
  destruct (processRatio buf cid t _ [] _) as [p1 |] eqn:E1; [| discriminate].
  destruct (processRatio buf cid t _ p1 _) as [p2 |] eqn:E2; [| discriminate].
  destruct (processRatio buf cid t _ p2 _) as [p3 |] eqn:E3; [| discriminate].
  apply processRatio_shape in E1 as [b1 ->].
  apply processRatio_shape in E2 as [b2 ->].
  apply processRatio_shape in E3 as [b3 ->].
  intros E. injection E as <-. simpl. now exists b1, b2, b3.
Qed.

(** C10: a successful run of [processAllAspectRatios] yields exactly the
    three variants keyed 1x1, 16x9 and 9x16; every filename is the common
    prefix [characters/<characterId>/aspect-ratios/], the key, and the one
    timestamp of the run, and the three filenames are pairwise distinct. *)
Theorem processAllAspectRatios_variants (buf : Buffer) (cid : string) (t : Z)
  (r : ProcessingResult) :
  processAllAspectRatios buf cid t = Normal r ->
  map fst (processedImages r) = ["1x1"; "16x9"; "9x16"] /\
  (forall key variant,
      In (key, variant) (processedImages r) ->
      filename variant =
        "characters/" ++ cid ++ "/aspect-ratios/" ++ key ++ "-"
          ++ JsNum.to_string t ++ ".jpg") /\
  NoDup (map (fun entry => filename (snd entry)) (processedImages r)).
Proof.
  intros Hrun.
  destruct (processAllAspectRatios_shape _ _ _ _ Hrun) as (b1 & b2 & b3 & ->).
  split; [reflexivity |]. split.
  - intros key variant Hin. simpl in Hin.
    destruct Hin as [E | [E | [E | []]]]; injection E as <- <-; reflexivity.
  - simpl. unfold variant_filename.
    assert (Hne : forall k1 k2 : string,
               ("/aspect-ratios/" ++ k1 ++ "-" ++ JsNum.to_string t ++ ".jpg"
                <> "/aspect-ratios/" ++ k2 ++ "-" ++ JsNum.to_string t ++ ".jpg") ->
               "characters/" ++ cid ++ "/aspect-ratios/" ++ k1 ++ "-"
                 ++ JsNum.to_string t ++ ".jpg"
               <> "characters/" ++ cid ++ "/aspect-ratios/" ++ k2 ++ "-"
                    ++ JsNum.to_string t ++ ".jpg").
    { intros k1 k2 Hk E. apply Hk.
      apply (append_cancel_l cid), (append_cancel_l "characters/"), E. }
    assert (H12 := Hne "1x1" "16x9" ltac:(simpl; discriminate)).
    assert (H13 := Hne "1x1" "9x16" ltac:(simpl; discriminate)).
    assert (H23 := Hne "16x9" "9x16" ltac:(simpl; discriminate)).
    apply NoDup_cons_2; [| apply NoDup_cons_2; [| apply NoDup_singleton]].
    + intros Hin. apply elem_of_cons in Hin as [E | Hin]; [exact (H12 E) |].
      apply list_elem_of_singleton in Hin. exact (H13 Hin).
    + intros Hin. apply list_elem_of_singleton in Hin. exact (H23 Hin).
Qed.

Lemma processAllAspectRatios_variants_witness :
  exists r,
    processAllAspectRatios (Scenario.jpeg 1920 1080) "c1" Scenario.timestamp
      = Normal r /\
    map fst (processedImages r) = ["1x1"; "16x9"; "9x16"] /\
    NoDup (map (fun entry => filename (snd entry)) (processedImages r)).
Proof.
  eexists. split; [vm_compute; reflexivity |].
  split;
    apply (processAllAspectRatios_variants (Scenario.jpeg 1920 1080) "c1"
             Scenario.timestamp); vm_compute; reflexivity.
Defined.

(** C1 at a source the classifier accepts as square without its ratio
    being exactly one: the same-ratio path fits the image inside the target
    and leaves it one pixel narrower than the 1024 by 1024 target, while the
    two padded variants have their exact target dimensions. *)
Theorem same_ratio_variant_misses_target :
  detectAspectRatio 800 801 = "1:1" /\
  obj_get "1:1" ASPECT_RATIO_DIMENSIONS
    = Some {| dim_width := 1024; dim_height := 1024 |} /\
  exists r,
    processAllAspectRatios (Scenario.jpeg 800 801) "c1" Scenario.timestamp
      = Normal r /\
    map (fun entry => (fst entry, Spec.pixelDimensions (buffer (snd entry))))
        (processedImages r)
    = [ ("1x1", Some (1023, 1024));
        ("16x9", Some (1024, 576));
        ("9x16", Some (576, 1024)) ].
Proof.
  split; [reflexivity |]. split; [reflexivity |].
  eexists. split; vm_compute; reflexivity.
Qed.

End Driver.

(** ** Webhook signatures *)

Section Signatures.

Import Auth.

Lemma hex_value_digit (n : N) :
  (n < 16)%N -> hex_value (hex_digit n) = Some n.
Proof.
  intros Hn.
  assert (Hcases : In n (map N.of_nat (seq 0 16))).
  { rewrite <- (N2Nat.id n). apply in_map, in_seq. lia. }
  cbn in Hcases.
  repeat destruct Hcases as [<- | Hcases]; try reflexivity.
  destruct Hcases.
Qed.

(** Decoding undoes encoding. *)
Lemma Buffer_from_hex_encode (data : string) :
  Buffer_from_hex (hex_encode data) = data.
Proof.
  induction data as [| c rest IH]; [reflexivity |].
  cbn [hex_encode Buffer_from_hex].
  pose proof (N_ascii_bounded c) as Hc.
  rewrite !hex_value_digit.
  - rewrite IH. f_equal.
    rewrite <- (ascii_N_embedding c) at 3. f_equal.
    pose proof (N.div_mod (N_of_ascii c) 16 ltac:(lia)). lia.
  - apply N.mod_lt. lia.
  - apply N.Div0.div_lt_upper_bound. lia.
Qed.


Lemma strip_generated_prefix (digits : string) :
  Js.strip_prefix "sha256=" ("sha256=" ++ digits) = digits.
Proof. destruct digits; reflexivity. Qed.

Lemma length_eqb_of_eqb (a b : string) :
  String.eqb a b = true -> (String.length a =? String.length b)%nat = true.
Proof. intros E. apply String.eqb_eq in E as ->. apply Nat.eqb_refl. Qed.

Lemma truthy_Some (s : string) : Js.truthy (Some s) = negb (String.eqb s "").
Proof. now destruct s. Qed.

Context `{Crypto}.

(** What the verifier computes once the three arguments are present. *)
Lemma verifyWebhookSignature_decoded (payload signature secret : string) :
  verifyWebhookSignature (Some payload) (Some signature) (Some secret) =
  Normal (negb (String.eqb payload "") && negb (String.eqb signature "")
          && negb (String.eqb secret "")
          && String.eqb (Buffer_from_hex (Js.strip_prefix "sha256=" signature))
                        (hmac_sha256 secret payload)).
Proof.
  unfold verifyWebhookSignature, createHmac_sha256_hex, timingSafeEqual.
  rewrite !truthy_Some, Buffer_from_hex_encode.
  destruct (String.eqb payload ""), (String.eqb signature ""),
    (String.eqb secret ""); try reflexivity.
  cbn [negb orb andb try_catch].
  destruct (String.eqb (Buffer_from_hex _) _) eqn:E.
  - now rewrite (length_eqb_of_eqb _ _ E).
  - now destruct (_ =? _)%nat.
Qed.



(** *** Counting payloads

    There are more byte strings of a length than of the length below, so
    a function to the shorter strings sends two of the longer ones to the
    same value. *)











Context `{!CryptoLaws}.


(** C8, as the code has it: the verifier always returns normally; it
    returns false when an argument is missing or empty and when the bytes
    decoded from the presented signature are not the 32 of a digest;
    otherwise it compares the decoded bytes with the expected digest. *)
Theorem verifyWebhookSignature_never_throws
  (payload signature secret : option string) :
  (exists verdict,
      verifyWebhookSignature payload signature secret = Normal verdict) /\
  (Js.truthy payload = false \/ Js.truthy signature = false
   \/ Js.truthy secret = false ->
   verifyWebhookSignature payload signature secret = Normal false) /\
  (forall p sg k : string,
      payload = Some p -> signature = Some sg -> secret = Some k ->
      String.length (Buffer_from_hex (Js.strip_prefix "sha256=" sg)) <> 32%nat ->
      verifyWebhookSignature payload signature secret = Normal false) /\
  (forall p sg k : string,
      payload = Some p -> signature = Some sg -> secret = Some k ->
      p <> "" -> sg <> "" -> k <> "" ->
      verifyWebhookSignature payload signature secret
      = Normal (String.eqb (Buffer_from_hex (Js.strip_prefix "sha256=" sg))
                  (hmac_sha256 k p))).
Proof.
  split_and!.
  - unfold verifyWebhookSignature, timingSafeEqual.
    destruct (negb (Js.truthy payload) || negb (Js.truthy signature)
              || negb (Js.truthy secret)); [simpl; eauto |].
    destruct payload, signature, secret; simpl; eauto.
    destruct (_ =? _)%nat; simpl; eauto.
  - intros Hmissing. unfold verifyWebhookSignature.
    destruct (Js.truthy payload), (Js.truthy signature), (Js.truthy secret);
      try reflexivity.
    destruct Hmissing as [E | [E | E]]; discriminate E.
  - intros p sg k -> -> -> Hlen.
    rewrite verifyWebhookSignature_decoded.
    assert (E : String.eqb (Buffer_from_hex (Js.strip_prefix "sha256=" sg))
                  (hmac_sha256 k p) = false).
    { apply String.eqb_neq. intros E. apply Hlen.
      rewrite E. apply hmac_sha256_length. }
    rewrite E. now rewrite Bool.andb_false_r.
  - intros p sg k -> -> -> Hp Hsg Hk.
    rewrite verifyWebhookSignature_decoded.
    apply String.eqb_neq in Hp, Hsg, Hk. now rewrite Hp, Hsg, Hk.
Qed.

End Signatures.

(** ** The backend helpers, one request at a time *)

Section Backend.

Import Sharp ImageProcessor Supabase Spec.

Lemma getSupabaseClient_eq (w : World) :
  getSupabaseClient w =
  if client_ok w then (Normal tt, w)
  else (Throw "Missing Supabase environment variables", w).
Proof.
  unfold getSupabaseClient, client_ok.
  destruct (Js.truthy (env_SUPABASE_URL w)),
    (Js.truthy (env_SUPABASE_SERVICE_ROLE_KEY w)); reflexivity.
Qed.

Lemma updateAspectRatioStatus_eq (cid : string) (st : Status)
  (msg : option string) (w : World) :
  client_ok w = true ->
  updateAspectRatioStatus cid st msg w =
  let r := DbUpdate cid
             (StatusPatch st (if Js.truthy msg then msg else None) (now w)) in
  match fault w (length (log w)) r with
  | Some m => (Throw ("Status update failed: " ++ m), record r (Some m) w)
  | None =>
      (Normal (head (match characters w !! cid with
                     | Some row =>
                         [apply_patch
                            (StatusPatch st (if Js.truthy msg then msg else None)
                               (now w)) row]
                     | None => []
                     end)),
       set_characters
         (alter (apply_patch
                   (StatusPatch st (if Js.truthy msg then msg else None) (now w)))
                cid)
         (record r None w))
  end.
Proof.
  intros Hc. unfold updateAspectRatioStatus, try_catchM, mbind, M_bind.
  rewrite getSupabaseClient_eq, Hc.
  unfold read, from_characters_update, call. cbn.
  destruct (fault w _ _); reflexivity.
Qed.

Lemma updateAspectRatioStatus_unconfigured (cid : string) (st : Status)
  (msg : option string) (w : World) :
  client_ok w = false ->
  updateAspectRatioStatus cid st msg w =
  (Throw "Missing Supabase environment variables", w).
Proof.
  intros Hc. unfold updateAspectRatioStatus, try_catchM, mbind, M_bind.
  now rewrite getSupabaseClient_eq, Hc.
Qed.

Lemma getCharacterById_eq (cid : string) (w : World) :
  client_ok w = true ->
  getCharacterById cid w =
  match fault w (length (log w)) (DbSelectSingle cid) with
  | Some m =>
      (Throw ("Failed to get character: " ++ m),
       record (DbSelectSingle cid) (Some m) w)
  | None =>
      match characters w !! cid with
      | Some row => (Normal row, record (DbSelectSingle cid) None w)
      | None =>
          (Throw ("Failed to get character: "
                    ++ "JSON object requested, multiple (or no) rows returned"),
           record (DbSelectSingle cid)
             (Some "JSON object requested, multiple (or no) rows returned") w)
      end
  end.
Proof.
  intros Hc. unfold getCharacterById, try_catchM, mbind, M_bind.
  rewrite getSupabaseClient_eq, Hc.
  unfold from_characters_select_single, call. cbn.
  destruct (fault w _ _); [reflexivity |].
  destruct (characters w !! cid); reflexivity.
Qed.

Lemma updateCharacterAspectRatios_eq (cid : string) (urls : gmap string string)
  (original : string) (w : World) :
  client_ok w = true ->
  updateCharacterAspectRatios cid urls original w =
  let p := AspectRatiosPatch (urls !! "1x1") (urls !! "16x9") (urls !! "9x16")
             original (now w) in
  match fault w (length (log w)) (DbUpdate cid p) with
  | Some m =>
      (Throw ("Database update failed: " ++ m), record (DbUpdate cid p) (Some m) w)
  | None =>
      (Normal (head (match characters w !! cid with
                     | Some row => [apply_patch p row]
                     | None => []
                     end)),
       set_characters (alter (apply_patch p) cid) (record (DbUpdate cid p) None w))
  end.
Proof.
  intros Hc. unfold updateCharacterAspectRatios, try_catchM, mbind, M_bind.
  rewrite getSupabaseClient_eq, Hc.
  unfold read, from_characters_update, call. cbn.
  destruct (fault w _ _); reflexivity.
Qed.

Lemma downloadImage_eq (url : string) (timeout : json) (w : World) :
  downloadImage url timeout w =
  (match fetch w url timeout with
   | FetchRejected message => Throw message
   | FetchResolved response =>
       if negb (response_ok response)
       then Throw ("HTTP " ++ JsNum.to_string (res_status response) ++ ": "
                     ++ res_statusText response)
       else Normal (res_body response)
   end, w).
Proof.
  unfold downloadImage, try_catchM, mbind, M_bind, read, throw, mret, M_ret.
  destruct (fetch w url timeout) as [m | response]; [reflexivity |].
  destruct (negb (response_ok response)); reflexivity.
Qed.

(** One upload: one exchange, and the promise settles accordingly. *)
Lemma uploadImageToStorage_run (data : Buffer) (fileName : string) (w : World) :
  client_ok w = true ->
  exists e,
    request e = StorageUpload fileName /\
    fst (uploadImageToStorage data fileName w)
      = snd (uploadOutcome w ("", {| buffer := data; filename := fileName |}) e) /\
    log (snd (uploadImageToStorage data fileName w)) = (log w ++ [e])%list /\
    same_config w (snd (uploadImageToStorage data fileName w)) /\
    characters (snd (uploadImageToStorage data fileName w)) = characters w /\
    (forall o, In o (uploads w) ->
               In o (uploads (snd (uploadImageToStorage data fileName w)))).
Proof.
  intros Hc. unfold uploadImageToStorage, try_catchM, mbind, M_bind.
  rewrite getSupabaseClient_eq, Hc.
  unfold storage_upload, call, uploadOutcome, same_config. cbn.
  destruct (fault w _ _) as [m |].
  - exists (refused (StorageUpload fileName) m). cbn. repeat split; auto.
  - destruct (object_exists fileName (uploads w)).
    + exists (refused (StorageUpload fileName) "The resource already exists").
      cbn. repeat split; auto.
    + exists (accepted (StorageUpload fileName)). cbn. repeat split; auto.
      intros o Ho. apply in_or_app. now left.
Qed.

Lemma same_config_refl (w : World) : same_config w w.
Proof. unfold same_config. repeat split. Qed.

Lemma same_config_trans (w1 w2 w3 : World) :
  same_config w1 w2 -> same_config w2 w3 -> same_config w1 w3.
Proof. unfold same_config. intuition congruence. Qed.

Lemma same_config_client_ok (w w' : World) :
  same_config w w' -> client_ok w' = client_ok w.
Proof.
  unfold same_config, client_ok. intros (-> & -> & _). reflexivity.
Qed.

End Backend.

(** ** The upload barrier and the cleanup *)

Section Stages.

Import Sharp ImageProcessor Supabase Process Spec.

Lemma uploadOutcome_config (w w' : World) (entry : string * ProcessedImage)
  (e : Exchange) :
  same_config w w' -> uploadOutcome w' entry e = uploadOutcome w entry e.
Proof.
  intros (Hurl & _). unfold uploadOutcome, storage_getPublicUrl.
  now rewrite Hurl.
Qed.

(** All uploads are issued, one exchange each, whatever the answers. *)
Lemma startUploads_run (images : list (string * ProcessedImage)) (w : World) :
  client_ok w = true ->
  exists exs,
    log (snd (startUploads images w)) = (log w ++ exs)%list /\
    map request exs
      = map (fun entry => StorageUpload (filename (snd entry))) images /\
    fst (startUploads images w) = zip_with (uploadOutcome w) images exs /\
    same_config w (snd (startUploads images w)) /\
    characters (snd (startUploads images w)) = characters w /\
    (forall o, In o (uploads w) -> In o (uploads (snd (startUploads images w)))).
Proof.
  revert w. induction images as [| [ratioKey imageData] rest IH]; intros w Hc.
  - exists []. cbn. rewrite app_nil_r.
    split_and!; auto using same_config_refl.
  - cbn [startUploads].
    destruct (uploadImageToStorage_run (buffer imageData) (filename imageData)
                w Hc) as (e & He & Hout & Hlog & Hcfg & Hch & Hup).
    destruct (uploadImageToStorage (buffer imageData) (filename imageData) w)
      as [outcome w1].
    cbn [fst snd] in *.
    assert (Hc1 : client_ok w1 = true)
      by (now rewrite (same_config_client_ok w w1 Hcfg)).
    destruct (IH w1 Hc1) as (exs & Hlog' & Hreq & Houts & Hcfg' & Hch' & Hup').
    destruct (startUploads rest w1) as [outcomes w2].
    cbn [fst snd] in *.
    exists (e :: exs). split_and!.
    + rewrite Hlog', Hlog, <- app_assoc. reflexivity.
    + cbn. now rewrite He, Hreq.
    + cbn [zip_with]. f_equal.
      * unfold uploadOutcome in *. cbn [fst snd filename] in *. now rewrite Hout.
      * rewrite Houts. clear - Hcfg. revert exs.
        induction rest as [| entry rest IHr]; intros [| e' exs]; cbn; auto.
        f_equal; [now apply uploadOutcome_config | apply IHr].
    + eapply same_config_trans; eauto.
    + congruence.
    + auto.
Qed.

Lemma first_rejection_found {A : Type} (arrival : nat -> nat)
  (settled : list (completion A)) (index : nat) (first : option (nat * string))
  (time : nat) (message : string) :
  first_rejection arrival index settled first = Some (time, message) ->
  first = Some (time, message) \/ In (Throw message) settled.
Proof.
  revert index first.
  induction settled as [| [a | m] rest IH]; intros index first Hf;
    cbn [first_rejection] in Hf.
  - now left.
  - destruct (IH _ _ Hf); [now left | right; now right].
  - apply IH in Hf as [Hf | Hin]; [| right; now right].
    destruct first as [[t m'] |].
    + destruct (arrival index <? t)%nat.
      * injection Hf as <- <-. right. now left.
      * now left.
    + injection Hf as <- <-. right. now left.
Qed.

Lemma first_rejection_none {A : Type} (arrival : nat -> nat)
  (settled : list (completion A)) (index : nat) (first : option (nat * string)) :
  first_rejection arrival index settled first = None ->
  first = None /\ forall message, ~ In (Throw message) settled.
Proof.
  revert index first.
  induction settled as [| [a | m] rest IH]; intros index first Hf;
    cbn [first_rejection] in Hf.
  - split; [exact Hf | intros message []].
  - apply IH in Hf as [-> Hno]. split; [reflexivity |].
    intros message [E | Hin]; [discriminate E | exact (Hno _ Hin)].
  - apply IH in Hf as [Hf _]. destruct first as [[t m'] |].
    + destruct (arrival index <? t)%nat; discriminate Hf.
    + discriminate Hf.
Qed.

(** The barrier rejects with the reason of one of the rejected promises,
    and fulfils only when none was rejected. *)
Lemma Promise_all_rejects {A : Type} (arrival : nat -> nat)
  (settled : list (completion A)) (message : string) :
  Promise_all arrival settled = Throw message -> In (Throw message) settled.
Proof.
  unfold Promise_all.
  destruct (first_rejection arrival 0 settled None) as [[t m] |] eqn:Hf;
    [| discriminate].
  intros E. injection E as <-.
  apply first_rejection_found in Hf as [Hf | Hin]; [discriminate Hf | exact Hin].
Qed.

Lemma Promise_all_fulfils {A : Type} (arrival : nat -> nat)
  (settled : list (completion A)) (values : list A) :
  Promise_all arrival settled = Normal values ->
  forall message, ~ In (Throw message) settled.
Proof.
  unfold Promise_all.
  destruct (first_rejection arrival 0 settled None) as [[t m] |] eqn:Hf;
    [discriminate |].
  intros _. now apply first_rejection_none in Hf.
Qed.

Lemma outcome_rejected (w : World) (images : list (string * ProcessedImage))
  (exs : list Exchange) (message : string) :
  In (Throw message) (map snd (zip_with (uploadOutcome w) images exs)) ->
  exists e m, In e exs /\ error e = Some m
              /\ message = "Storage upload failed: " ++ m.
Proof.
  revert exs. induction images as [| entry rest IH]; intros [| e exs] Hin;
    cbn in Hin; try contradiction.
  destruct Hin as [E | Hin].
  - destruct (error e) as [m |] eqn:He; [| discriminate E].
    injection E as <-. exists e, m. repeat split; auto. now left.
  - destruct (IH _ Hin) as (e' & m & Hin' & He & ->).
    exists e', m. repeat split; auto. now right.
Qed.

Lemma refused_outcome (w : World) (images : list (string * ProcessedImage))
  (exs : list Exchange) (e : Exchange) (m : string) :
  length images = length exs -> In e exs -> error e = Some m ->
  In (Throw ("Storage upload failed: " ++ m))
     (map snd (zip_with (uploadOutcome w) images exs)).
Proof.
  revert exs. induction images as [| entry rest IH]; intros [| e' exs] Hlen Hin He;
    cbn in *; try contradiction; try discriminate.
  destruct Hin as [-> | Hin].
  - left. now rewrite He.
  - right. apply IH; auto.
Qed.

(** The cleanup never throws, touches neither the table nor the
    configuration, and begins with a listing of the folder. *)
Lemma cleanupOldAspectRatioFiles_run (cid : string) (w : World) :
  client_ok w = true ->
  fst (cleanupOldAspectRatioFiles cid w) = Normal tt /\
  same_config w (snd (cleanupOldAspectRatioFiles cid w)) /\
  characters (snd (cleanupOldAspectRatioFiles cid w)) = characters w /\
  exists answer rest,
    log (snd (cleanupOldAspectRatioFiles cid w))
    = (log w ++ {| request := StorageList ("characters/" ++ cid ++ "/aspect-ratios");
                   error := answer |} :: rest)%list /\
    Forall (fun e => is_cleanup (request e) = true) rest.
Proof.
  intros Hc.
  unfold cleanupOldAspectRatioFiles, try_catchM, mbind, M_bind.
  rewrite getSupabaseClient_eq, Hc.
  unfold storage_list, storage_remove, call, same_config.
  cbn -[Nat.eqb Nat.ltb skipn sort_newest_first omap].
  destruct (fault w _ _) as [m |];
    cbn -[Nat.eqb Nat.ltb skipn sort_newest_first omap].
  { split_and!; auto. exists (Some m), []. split; [reflexivity | constructor]. }
  match goal with |- context [if ?c then _ else _] => destruct c end;
    cbn -[Nat.eqb Nat.ltb skipn sort_newest_first omap].
  { split_and!; auto. exists None, []. split; [reflexivity | constructor]. }
  match goal with |- context [if ?c then _ else _] => destruct c end;
    cbn -[Nat.eqb Nat.ltb skipn sort_newest_first omap].
  2:{ split_and!; auto. exists None, []. split; [reflexivity | constructor]. }
  destruct (fault w _ _) as [m |];
    cbn -[Nat.eqb Nat.ltb skipn sort_newest_first omap].
  - split_and!; auto. eexists None, [_].
    split; [now rewrite <- app_assoc | repeat constructor].
  - split_and!; auto. eexists None, [_].
    split; [now rewrite <- app_assoc | repeat constructor].
Qed.

End Stages.

(** ** The orchestration, stage by stage *)

Section Orchestration.

Import Sharp ImageProcessor Auth Supabase Process Spec.

Lemma bind_inv {A B : Type} (m : M A) (k : A -> M B) (w : World)
  (c : completion B) (w' : World) :
  (m ≫= k) w = (c, w') ->
  (exists a w1, m w = (Normal a, w1) /\ k a w1 = (c, w')) \/
  (exists e, m w = (Throw e, w') /\ c = Throw e).
Proof.
  unfold mbind, M_bind. destruct (m w) as [[a | e] w1]; intros E.
  - left. eauto.
  - right. injection E as <- <-. eauto.
Qed.

Lemma advances_refl (w : World) : advances w w [] id.
Proof.
  unfold advances. rewrite app_nil_r. auto using same_config_refl.
Qed.

Lemma advances_trans (w1 w2 w3 : World) (ex1 ex2 : list Exchange)
  (f1 f2 : gmap string Character -> gmap string Character) :
  advances w1 w2 ex1 f1 -> advances w2 w3 ex2 f2 ->
  advances w1 w3 (ex1 ++ ex2) (f2 ∘ f1).
Proof.
  intros (Hc1 & Hl1 & Hf1 & Hu1) (Hc2 & Hl2 & Hf2 & Hu2).
  unfold advances. split_and!.
  - eapply same_config_trans; eauto.
  - rewrite Hl2, Hl1, app_assoc. reflexivity.
  - rewrite Hf2, Hf1. reflexivity.
  - auto.
Qed.

Lemma advances_client_ok (w w' : World) (ex : list Exchange)
  (f : gmap string Character -> gmap string Character) :
  advances w w' ex f -> client_ok w' = client_ok w.
Proof. intros (Hc & _). now apply same_config_client_ok. Qed.

Lemma advances_now (w w' : World) (ex : list Exchange)
  (f : gmap string Character -> gmap string Character) :
  advances w w' ex f -> now w' = now w.
Proof. intros ((_ & _ & _ & Hn & _) & _). exact Hn. Qed.

Lemma updateAspectRatioStatus_run (cid : string) (st : Status)
  (msg : option string) (w : World) (c : completion (option Character))
  (w' : World) :
  client_ok w = true ->
  updateAspectRatioStatus cid st msg w = (c, w') ->
  let p := StatusPatch st (if Js.truthy msg then msg else None) (now w) in
  (exists m, c = Throw ("Status update failed: " ++ m) /\
             advances w w' [refused (DbUpdate cid p) m] id) \/
  (exists v, c = Normal v /\
             advances w w' [accepted (DbUpdate cid p)] (alter (apply_patch p) cid)).
Proof.
  intros Hc Hrun. rewrite updateAspectRatioStatus_eq in Hrun by exact Hc.
  cbv zeta in Hrun. destruct (fault w _ _) as [m |]; injection Hrun as <- <-.
  - left. exists m. split; [reflexivity |].
    unfold advances, same_config. cbn. auto 10.
  - right. eexists. split; [reflexivity |].
    unfold advances, same_config. cbn. auto 10.
Qed.

Lemma updateCharacterAspectRatios_run (cid : string) (links : gmap string string)
  (original : string) (w : World) (c : completion (option Character))
  (w' : World) :
  client_ok w = true ->
  updateCharacterAspectRatios cid links original w = (c, w') ->
  let p := AspectRatiosPatch (links !! "1x1") (links !! "16x9") (links !! "9x16")
             original (now w) in
  (exists m, c = Throw ("Database update failed: " ++ m) /\
             advances w w' [refused (DbUpdate cid p) m] id) \/
  (exists v, c = Normal v /\
             advances w w' [accepted (DbUpdate cid p)] (alter (apply_patch p) cid)).
Proof.
  intros Hc Hrun. rewrite updateCharacterAspectRatios_eq in Hrun by exact Hc.
  cbv zeta in Hrun. destruct (fault w _ _) as [m |]; injection Hrun as <- <-.
  - left. exists m. split; [reflexivity |].
    unfold advances, same_config. cbn. auto 10.
  - right. eexists. split; [reflexivity |].
    unfold advances, same_config. cbn. auto 10.
Qed.

(** [try { await getCharacterById(characterId) } catch { ... }]. *)
Lemma lookup_run (cid : string) (w : World) (c : completion bool) (w' : World) :
  client_ok w = true ->
  try_catchM (_ ← getCharacterById cid; mret true) (fun _ => mret false) w
    = (c, w') ->
  (c = Normal true /\ (exists row, characters w !! cid = Some row) /\
   advances w w' [accepted (DbSelectSingle cid)] id) \/
  (c = Normal false /\
   exists m, advances w w' [refused (DbSelectSingle cid) m] id).
Proof.
  intros Hc Hrun. unfold try_catchM, mbind, M_bind in Hrun.
  rewrite getCharacterById_eq in Hrun by exact Hc.
  destruct (fault w _ _) as [m |].
  - injection Hrun as <- <-. right. split; [reflexivity |]. exists m.
    unfold advances, same_config. cbn. auto 10.
  - destruct (characters w !! cid) as [row |] eqn:Hrow;
      injection Hrun as <- <-.
    + left. split; [reflexivity |]. split; [eauto |].
      unfold advances, same_config. cbn. auto 10.
    + right. split; [reflexivity |]. eexists.
      unfold advances, same_config. cbn. auto 10.
Qed.


Lemma respondError_eq (status : Z) (message : string) (code : option Z) (w : World) :
  respondError status message code w =
  (Normal (respond status (ErrorBody (createErrorResponse message code (now w)))), w).
Proof. reflexivity. Qed.

Lemma not_completes_throw (m : string) : ~ completes (Throw m).
Proof. intros (d & a & E). discriminate E. Qed.

Lemma not_completes_error (status : Z) (e : ErrorResponse) :
  ~ completes (Normal (respond status (ErrorBody e))).
Proof. intros (d & a & E). discriminate E. Qed.

(** A run that throws without a refused upload and without any request of
    the cleanup. *)
Lemma contract_thrown (cid : string) (w w' : World) (ex : list Exchange)
  (f : gmap string Character -> gmap string Character) (m : string) :
  advances w w' ex f ->
  (forall t id, is_Some (f t !! id) <-> is_Some (t !! id)) ->
  (forall e, In e ex ->
             is_cleanup (request e) = false /\
             forall p m', e <> refused (StorageUpload p) m') ->
  processContract cid w (Throw m) w'.
Proof.
  intros (Hcfg & Hlog & Hch & Hup) Hdom Hex.
  unfold processContract. split_and!; [exact Hcfg | |].
  { intros id. rewrite Hch. apply Hdom. }
  exists ex. split_and!; [exact Hlog | | | |].
  - intros Hs. destruct (not_completes_throw _ Hs).
  - intros e Hin Hcl. destruct (Hex e Hin) as [Hn _]. congruence.
  - intros r E. discriminate E.
  - intros p m' Hin. destruct (Hex _ Hin) as [_ Hn]. destruct (Hn p m' eq_refl).
Qed.

(** A run that returns an error response right after an accepted status
    write [failed]. *)
Lemma contract_returned (cid : string) (w w' : World) (pre : list Exchange)
  (f : gmap string Character -> gmap string Character)
  (status : Z) (msg : string) :
  advances w w' (pre ++ [accepted (failedWrite cid msg w)])
    (alter (apply_patch (StatusPatch failed (Some msg) (now w))) cid ∘ f) ->
  (forall t id, is_Some (f t !! id) <-> is_Some (t !! id)) ->
  (forall e, In e pre ->
             is_cleanup (request e) = false /\
             forall p m', e <> refused (StorageUpload p) m') ->
  Js.truthy (Some msg) = true ->
  status <> 200 ->
  processContract cid w
    (Normal (respond status (ErrorBody (createErrorResponse msg None (now w))))) w'.
Proof.
  intros (Hcfg & Hlog & Hch & Hup) Hdom Hex Hmsg Hstatus.
  unfold processContract. split_and!; [exact Hcfg | |].
  { intros id. rewrite Hch. unfold compose.
    rewrite lookup_alter_is_Some. apply Hdom. }
  eexists. split_and!; [exact Hlog | | | |].
  - intros Hs. destruct (not_completes_error _ _ Hs).
  - intros e Hin Hcl. exfalso. apply in_app_or in Hin as [Hin | [<- | []]].
    + destruct (Hex e Hin) as [Hn _]. congruence.
    + discriminate Hcl.
  - intros r E _. injection E as <-. exists msg, pre.
    split_and!; auto.
    intros row Hrow. rewrite Hch. unfold compose. rewrite lookup_alter_eq.
    destruct (proj2 (Hdom (characters w) cid) (mk_is_Some _ _ Hrow)) as [row1 ->].
    eexists. split; [reflexivity |]. split; reflexivity.
  - intros p m' Hin. exfalso. apply in_app_or in Hin as [Hin | [E | []]].
    + destruct (Hex _ Hin) as [_ Hn]. exact (Hn p m' eq_refl).
    + unfold failedWrite in E. discriminate E.
Qed.


Lemma upload_requests (images : list (string * ProcessedImage))
  (exs : list Exchange) (e : Exchange) :
  map request exs
    = map (fun entry => StorageUpload (filename (snd entry))) images ->
  In e exs -> exists p, request e = StorageUpload p.
Proof.
  revert images. induction exs as [| e' exs IH]; intros [| entry images] Hmap Hin;
    cbn in *; try contradiction; try discriminate.
  injection Hmap as He Hmap. destruct Hin as [<- | Hin]; eauto.
Qed.

(** A run that throws at the barrier because an upload was refused. *)
Lemma contract_upload_refused (cid : string) (w w' : World)
  (images : list (string * ProcessedImage)) (exs : list Exchange)
  (st : Status) (cause : option string) (at_ : Z)
  (e0 : Exchange) (m0 : string) (row : Character) :
  advances w w'
    ([accepted (DbUpdate cid (StatusPatch st cause at_));
      accepted (DbSelectSingle cid)] ++ exs)
    (alter (apply_patch (StatusPatch st cause at_)) cid) ->
  map request exs
    = map (fun entry => StorageUpload (filename (snd entry))) images ->
  In e0 exs -> error e0 = Some m0 ->
  characters w !! cid = Some row ->
  processContract cid w (Throw ("Storage upload failed: " ++ m0)) w'.
Proof.
  intros (Hcfg & Hlog & Hch & Hup) Hmap Hin0 He0 Hrow.
  unfold processContract. split_and!; [exact Hcfg | |].
  { intros id. rewrite Hch. apply lookup_alter_is_Some. }
  eexists. split_and!; [exact Hlog | | | |].
  - intros Hs. destruct (not_completes_throw _ Hs).
  - intros e Hin Hcl. exfalso. destruct Hin as [<- | [<- | Hin]];
      try discriminate Hcl.
    destruct (upload_requests _ _ _ Hmap Hin) as [p Hp].
    rewrite Hp in Hcl. discriminate Hcl.
  - intros r E. discriminate E.
  - intros p m _.
    destruct (upload_requests _ _ _ Hmap Hin0) as [p0 Hp0].
    exists p0, m0. split_and!.
    + right. right. destruct e0 as [r0 a0]. cbn in *. now subst.
    + reflexivity.
    + intros e Hin. destruct Hin as [<- | [<- | Hin]]; auto.
      destruct (upload_requests _ _ _ Hmap Hin) as [q ->]. auto.
    + exact Hup.
    + eauto.
    + intros row1 row' Hrow1 Hrow'. rewrite Hch, lookup_alter_eq, Hrow1 in Hrow'.
      injection Hrow' as <-. reflexivity.
Qed.

(** A run that completes. *)
Lemma contract_completed (cid : string) (w w' : World)
  (images : list (string * ProcessedImage)) (exs rest : list Exchange)
  (r1 r2 : Request) (answer : option string) (folder : string)
  (data : ResponseData) (at_ : Z) :
  same_config w w' ->
  (forall id, is_Some (characters w' !! id) <-> is_Some (characters w !! id)) ->
  log w' = (log w ++ ([accepted r1; accepted (DbSelectSingle cid)] ++ exs
                       ++ [accepted r2]
                       ++ {| request := StorageList folder; error := answer |}
                            :: rest))%list ->
  (forall e, In e exs -> error e = None) ->
  Forall (fun e => is_cleanup (request e) = true) rest ->
  processContract cid w
    (Normal (respond 200
               (SuccessBody "Aspect ratios processed successfully" data at_))) w'.
Proof.
  intros Hcfg Hdom Hlog Hall Hrest.
  assert (Hdone : completes
            (Normal (respond 200
               (SuccessBody "Aspect ratios processed successfully" data at_))))
    by (exists data, at_; reflexivity).
  unfold processContract. split_and!; [exact Hcfg | exact Hdom |].
  eexists. split_and!; [exact Hlog | | | |].
  - intros _. exists {| request := StorageList folder; error := answer |}.
    split; [| reflexivity].
    cbn. right. right. apply in_or_app. right. right. now left.
  - intros _ _ _. exact Hdone.
  - intros r _ Hn. destruct (Hn Hdone).
  - intros p m Hin. exfalso. cbn in Hin.
    destruct Hin as [E | [E | Hin]]; try discriminate E.
    apply in_app_or in Hin as [Hin | [E | [E | Hin]]]; try discriminate E.
    + apply Hall in Hin. discriminate Hin.
    + rewrite Forall_forall in Hrest. apply list_elem_of_In, Hrest in Hin.
      discriminate Hin.
Qed.


Ltac invert_bind H :=
  let a := fresh "a" in
  let w := fresh "w" in
  let Hm := fresh "Hm" in
  let e := fresh "e" in
  apply bind_inv in H as [(a & w & Hm & H) | (e & Hm & ->)].

Lemma quiet_status_write (cid : string) (p : Patch) (answer : option string)
  (e : Exchange) :
  e = {| request := DbUpdate cid p; error := answer |} ->
  is_cleanup (request e) = false /\
  forall q m, e <> refused (StorageUpload q) m.
Proof. intros ->. split; [reflexivity | discriminate]. Qed.

Lemma quiet_lookup (cid : string) (answer : option string) (e : Exchange) :
  e = {| request := DbSelectSingle cid; error := answer |} ->
  is_cleanup (request e) = false /\
  forall q m, e <> refused (StorageUpload q) m.
Proof. intros ->. split; [reflexivity | discriminate]. Qed.

Lemma quiet_accepted_upload (images : list (string * ProcessedImage))
  (exs : list Exchange) (e : Exchange) :
  map request exs
    = map (fun entry => StorageUpload (filename (snd entry))) images ->
  (forall e', In e' exs -> error e' = None) ->
  In e exs ->
  is_cleanup (request e) = false /\
  forall q m, e <> refused (StorageUpload q) m.
Proof.
  intros Hmap Hall Hin. destruct (upload_requests _ _ _ Hmap Hin) as [p Hp].
  rewrite Hp. split; [reflexivity |].
  intros q m ->. apply Hall in Hin. discriminate Hin.
Qed.

Lemma dom_id (t : gmap string Character) (i : string) :
  is_Some (id t !! i) <-> is_Some (t !! i).
Proof. reflexivity. Qed.

Lemma dom_compose (f g : gmap string Character -> gmap string Character) :
  (forall t i, is_Some (f t !! i) <-> is_Some (t !! i)) ->
  (forall t i, is_Some (g t !! i) <-> is_Some (t !! i)) ->
  forall t i, is_Some ((f ∘ g) t !! i) <-> is_Some (t !! i).
Proof. intros Hf Hg t i. unfold compose. now rewrite Hf, Hg. Qed.

Lemma dom_alter (g : Character -> Character) (k : string)
  (t : gmap string Character) (i : string) :
  is_Some (alter g k t !! i) <-> is_Some (t !! i).
Proof. apply lookup_alter_is_Some. Qed.

Create HintDb dom.

#[local] Hint Resolve dom_id dom_compose dom_alter : dom.

Ltac quiet :=
  let e := fresh "e" in
  let Hq := fresh "Hq" in
  intros e Hq; cbn [In app] in Hq;
  repeat (destruct Hq as [<- | Hq];
          [first [now eapply quiet_status_write | now eapply quiet_lookup] |]);
  try destruct Hq.

Context `{Json}.

Lemma process_run (job : Job) (w : World) (c : completion HttpResponse)
  (w' : World) :
  client_ok w = true ->
  process job w = (c, w') ->
  processContract (JsValue.to_string (characterId job)) w c w'.
Proof.
  intros Hc Hrun. unfold process in Hrun.
  set (cid := JsValue.to_string (characterId job)) in *.
  invert_bind Hrun;
    apply (updateAspectRatioStatus_run _ _ _ _ _ _ Hc) in Hm
      as [(m1 & E1 & A1) | (v1 & E1 & A1)]; try discriminate E1;
    cbn [Js.truthy] in A1.
  2:{ injection E1 as ->.
      eapply contract_thrown; [exact A1 | auto with dom |].
      intros e0 [<- | []]. now eapply quiet_status_write. }
  clear E1 a.
  assert (Hc1 : client_ok w0 = true)
    by (now rewrite (advances_client_ok _ _ _ _ A1)).
  invert_bind Hrun;
    apply (lookup_run _ _ _ _ Hc1) in Hm
      as [(E2 & (row & Hrow) & A2) | (E2 & m2 & A2)]; try discriminate E2;
    injection E2 as ->; cbn [negb] in Hrun;
    pose proof (advances_trans _ _ _ _ _ _ _ A1 A2) as A12;
    assert (Hc2 : client_ok w1 = true)
      by (now rewrite (advances_client_ok _ _ _ _ A12)).
  - (* the character exists *)
    invert_bind Hrun; unfold lift in Hm; injection Hm as Etimeout Ew; subst.
    2:{ eapply contract_thrown; [exact A12 | auto with dom | quiet]. }
    invert_bind Hrun; rewrite downloadImage_eq in Hm;
      injection Hm as Edownload Ew; subst.
    2:{ eapply contract_thrown; [exact A12 | auto with dom | quiet]. }
    destruct (validateImageBuffer a0) as [problem | kind size].
    { (* the bytes are not an image *)
      invert_bind Hrun;
        apply (updateAspectRatioStatus_run _ _ _ _ _ _ Hc2) in Hm
          as [(m3 & E3 & A3) | (v3 & E3 & A3)]; try discriminate E3;
        pose proof (advances_trans _ _ _ _ _ _ _ A12 A3) as A;
        rewrite (advances_now _ _ _ _ A12) in A.
      - rewrite respondError_eq in Hrun. injection Hrun as <- <-.
        rewrite (advances_now _ _ _ _ A).
        apply (contract_returned cid w w2 _ _ 400 ("Invalid image: " ++ problem) A);
          [auto with dom | quiet | reflexivity | discriminate].
      - injection E3 as ->.
        eapply contract_thrown; [exact A | auto with dom | quiet]. }
    invert_bind Hrun; unfold lift in Hm; injection Hm as Emeta Ew; subst.
    2:{ eapply contract_thrown; [exact A12 | auto with dom | quiet]. }
    invert_bind Hrun; unfold read in Hm; injection Hm as Enow Ew; subst;
      try discriminate.
    invert_bind Hrun; unfold lift in Hm; injection Hm as Eprocessed Ew; subst.
    2:{ eapply contract_thrown; [exact A12 | auto with dom | quiet]. }
    invert_bind Hrun; cbv beta in Hm;
      destruct (startUploads_run (processedImages a2) w2 Hc2)
        as (exs & Hlog & Hreq & Houts & Hcfg & Hch & Hupl);
      destruct (startUploads (processedImages a2) w2) as [outs wu];
      cbn [fst snd] in *; injection Hm as Eouts Ew; subst; try discriminate.
    assert (A3 : advances w2 w1 exs id) by (unfold advances; auto).
    pose proof (advances_trans _ _ _ _ _ _ _ A12 A3) as A.
    assert (Hcu : client_ok w1 = true)
      by (now rewrite (advances_client_ok _ _ _ _ A)).
    assert (Hrow0 : exists row0, characters w !! cid = Some row0).
    { destruct A1 as (_ & _ & Hch1 & _). rewrite Hch1 in Hrow.
      apply mk_is_Some, lookup_alter_is_Some in Hrow as [row0 Hrow0]. eauto. }
    destruct Hrow0 as [row0 Hrow0].
    invert_bind Hrun; unfold read in Hm; injection Hm as Eorder Ew; subst;
      try discriminate.
    invert_bind Hrun; unfold lift in Hm; injection Hm as Eall Ew; subst.
    2:{ (* an upload was refused *)
        apply Promise_all_rejects, outcome_rejected in Eall
          as (e0 & m0 & Hin0 & He0 & ->).
        destruct A as (Hcfg' & Hlog' & Hch' & Hupl').
        eapply (contract_upload_refused cid w w' (processedImages a2) exs
                  processing None (now w) e0 m0 row0); auto.
        unfold advances. split_and!; auto. }
    assert (Hall : forall e', In e' exs -> error e' = None).
    { intros e' Hin'. destruct (error e') as [m' |] eqn:He'; [| reflexivity].
      exfalso. eapply (Promise_all_fulfils _ _ _ Eall).
      eapply refused_outcome; eauto.
      rewrite <- (length_map request exs), Hreq, length_map. reflexivity. }
    invert_bind Hrun;
      apply (updateCharacterAspectRatios_run _ _ _ _ _ _ Hcu) in Hm
        as [(m4 & E4 & A4) | (v4 & E4 & A4)]; try discriminate E4;
      pose proof (advances_trans _ _ _ _ _ _ _ A A4) as A'.
    2:{ injection E4 as ->.
        eapply contract_thrown; [exact A' | auto with dom |].
        intros e' Hin'. cbn [In app] in Hin'.
        destruct Hin' as [<- | [<- | Hin']];
          [now eapply quiet_status_write | now eapply quiet_lookup |].
        apply in_app_or in Hin' as [Hin' | [<- | []]];
          [eapply quiet_accepted_upload; eauto | now eapply quiet_status_write]. }
    assert (Hc3 : client_ok w3 = true)
      by (now rewrite (advances_client_ok _ _ _ _ A')).
    destruct (cleanupOldAspectRatioFiles_run cid w3 Hc3)
      as (_ & Hcfg5 & Hch5 & answer & rest & Hlog5 & Hrest).
    invert_bind Hrun; unfold detached in Hm; injection Hm as Edetached Ew;
      subst; try discriminate.
    invert_bind Hrun; unfold read in Hm; injection Hm as Enow Ew; subst;
      try discriminate.
    unfold mret, M_ret in Hrun. injection Hrun as <- <-.
    destruct A' as (Hcfg' & Hlog' & Hch' & _).
    eapply (contract_completed cid w _ (processedImages a2) exs rest _ _
              answer _ _ _).
    + eapply same_config_trans; eauto.
    + intros i. rewrite Hch5, Hch'. revert i. auto with dom.
    + rewrite Hlog5, Hlog', <- !app_assoc. reflexivity.
    + exact Hall.
    + exact Hrest.
  - invert_bind Hrun;
      apply (updateAspectRatioStatus_run _ _ _ _ _ _ Hc2) in Hm
        as [(m3 & E3 & A3) | (v3 & E3 & A3)]; try discriminate E3;
      pose proof (advances_trans _ _ _ _ _ _ _ A12 A3) as A;
      rewrite (advances_now _ _ _ _ A12) in A.
    + rewrite respondError_eq in Hrun. injection Hrun as <- <-.
      rewrite (advances_now _ _ _ _ A).
      apply (contract_returned cid w w2 _ _ 404 "Character not found" A);
        [auto with dom | quiet | reflexivity | discriminate].
    + injection E3 as ->.
      eapply contract_thrown; [exact A | auto with dom | quiet].
Qed.

End Orchestration.

(** ** The handler *)

Section Handler.

Import Sharp ImageProcessor Auth Supabase Process Spec.

Context `{Crypto} `{Json}.

Lemma verifyWebhookSignature_normal (payload signature secret : option string) :
  exists verdict,
    verifyWebhookSignature payload signature secret = Normal verdict.
Proof.
  unfold verifyWebhookSignature, timingSafeEqual.
  destruct (negb (Js.truthy payload) || negb (Js.truthy signature)
            || negb (Js.truthy secret)); [simpl; eauto |].
  destruct payload, signature, secret; simpl; eauto.
  destruct (_ =? _)%nat; simpl; eauto.
Qed.

Lemma parsed_payload (body : string) (data : json) :
  parseWebhookPayload body = ParseOk data ->
  exists fields characterId,
    data = JObj fields /\
    obj_get "characterId" fields = Some characterId /\
    JsValue.truthy (Some characterId) = true.
Proof.
  unfold parseWebhookPayload, mbind, completion_bind, Js.bind.
  destruct (negb (Js.truthy (Some body))); [discriminate |].
  destruct (JSON_parse body) as [payload |]; [| discriminate].
  destruct (JsValue.get_property "characterId" payload) as [cid |] eqn:Eget;
    [| discriminate].
  destruct (JsValue.truthy cid) eqn:Ecid; [| discriminate]. cbn [negb].
  destruct (JsValue.get_property "imageUrl" payload) as [url |]; [| discriminate].
  destruct (negb (JsValue.truthy url)); [discriminate |].
  intros E. injection E as <-.
  destruct payload; cbn in Eget; try discriminate Eget;
    injection Eget as <-; try discriminate Ecid.
  destruct (obj_get "characterId" fields) as [characterId |] eqn:Ef;
    [| discriminate Ecid].
  eauto.
Qed.

(** The first part of the handler never throws and never touches the
    world; it ends in an error response or in a job whose [characterId] is
    truthy. *)
Lemma receive_run (req : HttpRequest) (w : World) :
  exists x,
    receive req w = (Normal x, w) /\
    match x with
    | inl r => exists e, r = respond (statusCode r) (ErrorBody e)
                         /\ statusCode r <> 200
    | inr job => JsValue.truthy (Some (characterId job)) = true
    end.
Proof.
  unfold receive, respondError, mbind, M_bind, read, lift, mret, M_ret.
  destruct (negb (hv_success _)).
  { eexists. split; [reflexivity |]. cbn. eexists. split; [reflexivity | lia]. }
  destruct (rawBodyOf (body req)) as [rawBody |].
  2:{ eexists. split; [reflexivity |]. cbn. eexists. split; [reflexivity | lia]. }
  destruct (negb (Js.truthy (env_WEBHOOK_SECRET w))).
  { eexists. split; [reflexivity |]. cbn. eexists. split; [reflexivity | lia]. }
  destruct (verifyWebhookSignature_normal (Some rawBody)
              (headers req !! "x-webhook-signature") (env_WEBHOOK_SECRET w))
    as [verdict ->].
  destruct (negb verdict).
  { eexists. split; [reflexivity |]. cbn. eexists. split; [reflexivity | lia]. }
  destruct (parseWebhookPayload rawBody) as [data | problem] eqn:Eparse.
  2:{ eexists. split; [reflexivity |]. cbn. eexists. split; [reflexivity | lia]. }
  destruct (parsed_payload _ _ Eparse) as (fields & cid & -> & Hcid & Htruthy).
  cbn [JsValue.get_property]. rewrite Hcid.
  eexists. split; [reflexivity |]. exact Htruthy.
Qed.


Lemma issued_app (w w' : World) (ex : list Exchange) :
  log w' = (log w ++ ex)%list -> issued w w' = ex.
Proof. intros E. unfold issued. rewrite E. apply drop_app_length. Qed.

Lemma issued_same (w : World) : issued w w = [].
Proof. apply issued_app. now rewrite app_nil_r. Qed.


Lemma process_unconfigured (job : Job) (w : World) :
  client_ok w = false ->
  process job w = (Throw "Missing Supabase environment variables", w).
Proof.
  intros Hc. unfold process, mbind, M_bind at 1.
  now rewrite updateAspectRatioStatus_unconfigured.
Qed.

(** The [catch] block: one status write [failed], whose own failure is
    swallowed, then the error response. *)
Lemma onError_run (cid : json) (message : string) (w : World) :
  JsValue.truthy (Some cid) = true ->
  client_ok w = true ->
  exists answer w',
    onError (Some cid) message w =
      (Normal (respond (statusCodeFor message)
                 (ErrorBody (createErrorResponse ("Processing failed: " ++ message)
                               (Some (statusCodeFor message)) (now w)))), w') /\
    advances w w'
      [{| request := failedWrite (JsValue.to_string cid) message w;
          error := answer |}]
      (match answer with
       | None =>
           alter (apply_patch
                    (StatusPatch failed
                       (if Js.truthy (Some message) then Some message else None)
                       (now w)))
                 (JsValue.to_string cid)
       | Some _ => id
       end).
Proof.
  intros Hcid Hc. unfold onError. rewrite Hcid.
  unfold try_catchM, mbind, M_bind.
  rewrite (updateAspectRatioStatus_eq _ failed (Some message) w Hc). cbv zeta.
  destruct (fault w _ _) as [m |].
  - exists (Some m). eexists. split; [reflexivity |].
    unfold advances, same_config. cbn. auto 10.
  - exists None. eexists. split; [reflexivity |].
    unfold advances, same_config. cbn. auto 10.
Qed.

Lemma onError_unconfigured (cid : json) (message : string) (w : World) :
  JsValue.truthy (Some cid) = true ->
  client_ok w = false ->
  onError (Some cid) message w =
    (Normal (respond (statusCodeFor message)
               (ErrorBody (createErrorResponse ("Processing failed: " ++ message)
                             (Some (statusCodeFor message)) (now w)))), w).
Proof.
  intros Hcid Hc. unfold onError. rewrite Hcid.
  unfold try_catchM, mbind, M_bind.
  now rewrite (updateAspectRatioStatus_unconfigured _ failed (Some message) w Hc).
Qed.

Lemma handler_other_method (req : HttpRequest) (w : World) :
  String.eqb (method req) "POST" = false ->
  exists r, handler req w = (Normal r, w) /\ ~ completes (Normal r).
Proof.
  intros Hm. unfold handler.
  destruct (String.eqb (method req) "OPTIONS").
  - eexists. split; [reflexivity |]. intros (d & a & E). discriminate E.
  - rewrite Hm. cbn [negb]. rewrite respondError_eq.
    eexists. split; [reflexivity |]. apply not_completes_error.
Qed.

Lemma handler_post (req : HttpRequest) (w : World) :
  String.eqb (method req) "POST" = true ->
  handler req w =
  match receive req w with
  | (Normal (inl response), w1) => (Normal response, w1)
  | (Normal (inr job), w1) =>
      try_catchM (process job) (onError (Some (characterId job))) w1
  | (Throw message, w1) =>
      (r ← onError None message; mret r) w1
  end.
Proof.
  intros Hm. unfold handler.
  apply String.eqb_eq in Hm as Hm'.
  rewrite Hm'. cbn [String.eqb Ascii.eqb Bool.eqb negb andb].
  unfold try_catchM, mbind, M_bind.
  destruct (receive req w) as [[[response | job] | message] w1]; reflexivity.
Qed.


(** Every run of the handler either leaves the world as it was, or is a run
    of the job body followed, when the body throws, by the [catch] block. *)
Lemma handler_run (req : HttpRequest) (w : World)
  (c : completion HttpResponse) (w' : World) :
  handler req w = (c, w') ->
  (w' = w /\ exists r, c = Normal r /\ ~ completes c) \/
  (exists job c1 w1,
      String.eqb (method req) "POST" = true /\
      receive req w = (Normal (inr job), w) /\
      JsValue.truthy (Some (characterId job)) = true /\
      client_ok w = true /\
      processContract (JsValue.to_string (characterId job)) w c1 w1 /\
      ((exists r, c1 = Normal r /\ c = c1 /\ w' = w1) \/
       (exists message answer,
           c1 = Throw message /\
           c = Normal (respond (statusCodeFor message)
                         (ErrorBody
                            (createErrorResponse ("Processing failed: " ++ message)
                               (Some (statusCodeFor message)) (now w)))) /\
           advances w1 w'
             [{| request := failedWrite (JsValue.to_string (characterId job))
                              message w;
                 error := answer |}]
             (match answer with
              | None =>
                  alter (apply_patch
                           (StatusPatch failed
                              (if Js.truthy (Some message) then Some message
                               else None) (now w)))
                        (JsValue.to_string (characterId job))
              | Some _ => id
              end)))).
Proof.
  intros Hrun.
  destruct (String.eqb (method req) "POST") eqn:Hm.
  2:{ destruct (handler_other_method req w Hm) as (r & E & Hn).
      rewrite E in Hrun. injection Hrun as <- <-. left. eauto. }
  rewrite (handler_post req w Hm) in Hrun.
  destruct (receive_run req w) as ([response | job] & Ereceive & Hx);
    rewrite Ereceive in Hrun.
  { injection Hrun as <- <-. left. split; [reflexivity |].
    eexists. split; [reflexivity |].
    destruct Hx as (e & -> & _). apply not_completes_error. }
  unfold try_catchM in Hrun.
  destruct (client_ok w) eqn:Hc.
  2:{ rewrite (process_unconfigured job w Hc) in Hrun.
      rewrite (onError_unconfigured _ _ w Hx Hc) in Hrun.
      injection Hrun as <- <-. left. split; [reflexivity |].
      eexists. split; [reflexivity |]. apply not_completes_error. }
  destruct (process job w) as [c1 w1] eqn:Hprocess.
  pose proof (process_run job w c1 w1 Hc Hprocess) as Hcontract.
  right. exists job, c1, w1. split_and!; auto.
  destruct c1 as [r | message].
  - injection Hrun as <- <-. left. eauto.
  - right.
    assert (Hc1 : client_ok w1 = true).
    { destruct Hcontract as (Hcfg & _).
      now rewrite (same_config_client_ok _ _ Hcfg). }
    destruct (onError_run (characterId job) message w1 Hx Hc1)
      as (answer & w2 & E & A).
    rewrite E in Hrun. injection Hrun as <- <-.
    assert (Hnow : now w1 = now w)
      by (destruct Hcontract as ((_ & _ & _ & Hn & _) & _); exact Hn).
    unfold failedWrite in *. rewrite Hnow in *.
    exists message, answer. split_and!; auto.
Qed.


Lemma cleanup_iff_completed (req : HttpRequest) (w : World)
  (c : completion HttpResponse) (w' : World) :
  handler req w = (c, w') ->
  ((exists e, In e (issued w w') /\ is_cleanup (request e) = true) ->
   completes c) /\
  (completes c ->
   exists e, In e (issued w w') /\ is_listing (request e) = true).
Proof.
  intros Hrun.
  destruct (handler_run req w c w' Hrun)
    as [(-> & r & -> & Hn)
       | (job & c1 & w1 & _ & _ & _ & _ & Hcontract & Hcases)].
  { rewrite issued_same. split; [intros (e & [] & _) | intros Hs; destruct (Hn Hs)]. }
  destruct Hcontract as (_ & _ & ex & Hlog & Hlisted & Hcleanup & _).
  destruct Hcases as [(r & -> & -> & ->)
                     | (message & answer & -> & -> & (_ & Hlog' & _))].
  - rewrite (issued_app _ _ _ Hlog). split; [| exact Hlisted].
    intros (e & Hin & Hcl). eauto.
  - rewrite Hlog, <- app_assoc in Hlog'. rewrite (issued_app _ _ _ Hlog').
    split.
    + intros (e & Hin & Hcl). exfalso.
      apply in_app_or in Hin as [Hin | [<- | []]]; [| discriminate Hcl].
      exact (not_completes_throw _ (Hcleanup e Hin Hcl)).
    + intros Hs. destruct (not_completes_error _ _ Hs).
Qed.

End Handler.

(** ** Faults of the cleanup do not reach the job *)

Section CleanupFaults.

Import Sharp ImageProcessor Auth Supabase Process Spec.

#[local] Abbreviation SB := same_but_cleanup_faults.

Lemma related_weaken {A : Type} (R : World -> World -> Prop)
  (Q Q' : completion A -> World -> World -> Prop) (m : M A) :
  related R Q m -> (forall c u v, Q c u v -> Q' c u v) -> related R Q' m.
Proof. intros Hm HQ u v HR. destruct (Hm u v HR). split; auto. Qed.

Lemma related_ret {A : Type} (R : World -> World -> Prop) (a : A) :
  related R (fun _ => R) (mret a).
Proof. intros u v HR. split; [reflexivity | exact HR]. Qed.

Lemma related_throw {A : Type} (R : World -> World -> Prop) (message : string) :
  related R (fun _ => R) (@throw A message).
Proof. intros u v HR. split; [reflexivity | exact HR]. Qed.

Lemma related_lift {A : Type} (R : World -> World -> Prop) (c : completion A) :
  related R (fun _ => R) (lift c).
Proof. intros u v HR. split; [reflexivity | exact HR]. Qed.

Lemma related_read {A : Type} (R : World -> World -> Prop) (f : World -> A) :
  (forall u v, R u v -> f v = f u) -> related R (fun _ => R) (read f).
Proof. intros Hf u v HR. cbn. split; [now rewrite (Hf u v HR) | exact HR]. Qed.

Lemma related_bind {A B : Type} (R : World -> World -> Prop)
  (Q : completion A -> World -> World -> Prop)
  (Q' : completion B -> World -> World -> Prop) (m : M A) (k : A -> M B) :
  related R Q m ->
  (forall a, related (Q (Normal a)) Q' (k a)) ->
  (forall e u v, Q (Throw e) u v -> Q' (Throw e) u v) ->
  related R Q' (m ≫= k).
Proof.
  intros Hm Hk Hthrow u v HR. unfold mbind, M_bind.
  destruct (Hm u v HR) as [Efst HQ].
  destruct (m u) as [cu u1], (m v) as [cv v1]. cbn [fst snd] in *. subst cv.
  destruct cu as [a | e].
  - exact (Hk a u1 v1 HQ).
  - cbn. split; [reflexivity | exact (Hthrow e u1 v1 HQ)].
Qed.

Lemma related_try {A : Type} (R : World -> World -> Prop)
  (Q Q' : completion A -> World -> World -> Prop) (m : M A)
  (h : string -> M A) :
  related R Q m ->
  (forall e, related (Q (Throw e)) Q' (h e)) ->
  (forall a u v, Q (Normal a) u v -> Q' (Normal a) u v) ->
  related R Q' (try_catchM m h).
Proof.
  intros Hm Hh Hnormal u v HR. unfold try_catchM.
  destruct (Hm u v HR) as [Efst HQ].
  destruct (m u) as [cu u1], (m v) as [cv v1]. cbn [fst snd] in *. subst cv.
  destruct cu as [a | e].
  - cbn. split; [reflexivity | exact (Hnormal a u1 v1 HQ)].
  - exact (Hh e u1 v1 HQ).
Qed.

Lemma SB_record (r : Request) (answer : option string) (u v : World) :
  SB u v -> SB (record r answer u) (record r answer v).
Proof.
  unfold same_but_cleanup_faults, same_config_but_fault. cbn.
  intros (Hcfg & Hch & Hup & Hlog & Hf). rewrite Hlog. auto.
Qed.

(** A request that is not part of the cleanup is answered alike. *)
Lemma related_call {A : Type} (r : Request) (answer : World -> string + A)
  (effect : World -> World) :
  is_cleanup r = false ->
  (forall u v, SB u v -> answer v = answer u) ->
  (forall u v, SB u v -> SB (effect u) (effect v)) ->
  related SB (fun _ => SB) (call r answer effect).
Proof.
  intros Hr Hanswer Heffect u v HR. unfold call.
  pose proof HR as (Hcfg & Hch & Hup & Hlog & Hf).
  rewrite Hlog, (Hf _ _ Hr), (Hanswer u v HR).
  destruct (match fault u _ r with Some m => inl m | None => answer u end);
    cbn; split; auto using SB_record.
Qed.


Lemma SB_set_characters (f : gmap string Character -> gmap string Character)
  (u v : World) :
  SB u v -> SB (set_characters f u) (set_characters f v).
Proof.
  unfold same_but_cleanup_faults, same_config_but_fault. cbn.
  intros (Hcfg & Hch & Hup & Hlog & Hf). rewrite Hch. auto.
Qed.

Lemma SB_set_uploads (f : list StoredObject -> list StoredObject) (u v : World) :
  SB u v -> SB (set_uploads f u) (set_uploads f v).
Proof.
  unfold same_but_cleanup_faults, same_config_but_fault. cbn.
  intros (Hcfg & Hch & Hup & Hlog & Hf). rewrite Hup. auto.
Qed.

Lemma SB_now (u v : World) : SB u v -> now v = now u.
Proof. intros ((_ & _ & _ & Hn & _) & _). exact Hn. Qed.

Lemma SB_same_record (u v : World) : SB u v -> same_record u v.
Proof. intros HR. split; [apply HR | now apply SB_now]. Qed.

Lemma related_getSupabaseClient : related SB (fun _ => SB) getSupabaseClient.
Proof.
  intros u v HR. unfold getSupabaseClient.
  pose proof HR as ((Hurl & Hkey & _) & _). rewrite Hurl, Hkey.
  destruct (_ || _); cbn; auto.
Qed.

Lemma respects_bind {A B : Type} (m : M A) (k : A -> M B) :
  related SB (fun _ => SB) m ->
  (forall a, related SB (fun _ => SB) (k a)) ->
  related SB (fun _ => SB) (m ≫= k).
Proof. intros Hm Hk. eapply related_bind; eauto. Qed.

Lemma respects_try {A : Type} (m : M A) (h : string -> M A) :
  related SB (fun _ => SB) m ->
  (forall e, related SB (fun _ => SB) (h e)) ->
  related SB (fun _ => SB) (try_catchM m h).
Proof. intros Hm Hh. eapply related_try; eauto. Qed.

Ltac rel :=
  repeat first
    [ apply related_ret
    | apply related_throw
    | apply related_lift
    | apply related_getSupabaseClient
    | apply related_read; intros ? ? ?HSB
    | apply related_call; [reflexivity | intros ? ? ?HSB | intros ? ? ?HSB]
    | apply respects_bind; [| intros ?]
    | apply respects_try; [| intros ?]
    | match goal with
      | |- related _ _ (match ?x with _ => _ end) => destruct x
      | |- related _ _ (if ?x then _ else _) => destruct x
      end ].

Lemma related_updateAspectRatioStatus (cid : string) (st : Status)
  (msg : option string) :
  related SB (fun _ => SB) (updateAspectRatioStatus cid st msg).
Proof.
  unfold updateAspectRatioStatus, from_characters_update. rel.
  - now apply SB_now.
  - destruct HSB as (_ & Hch & _). now rewrite Hch.
  - now apply SB_set_characters.
Qed.

Lemma related_updateCharacterAspectRatios (cid : string)
  (links : gmap string string) (original : string) :
  related SB (fun _ => SB) (updateCharacterAspectRatios cid links original).
Proof.
  unfold updateCharacterAspectRatios, from_characters_update. rel.
  - now apply SB_now.
  - destruct HSB as (_ & Hch & _). now rewrite Hch.
  - now apply SB_set_characters.
Qed.

Lemma related_getCharacterById (cid : string) :
  related SB (fun _ => SB) (getCharacterById cid).
Proof.
  unfold getCharacterById, from_characters_select_single. rel.
  - destruct HSB as (_ & Hch & _). now rewrite Hch.
  - exact HSB.
Qed.

Lemma related_uploadImageToStorage (data : Buffer) (fileName : string) :
  related SB (fun _ => SB) (uploadImageToStorage data fileName).
Proof.
  unfold uploadImageToStorage, storage_upload. rel.
  - destruct HSB as (_ & _ & Hup & _). now rewrite Hup.
  - rewrite (SB_now _ _ HSB). now apply SB_set_uploads.
  - unfold storage_getPublicUrl. destruct HSB as ((Hurl & _) & _).
    now rewrite Hurl.
Qed.

Lemma related_downloadImage (url : string) (timeout : json) :
  related SB (fun _ => SB) (downloadImage url timeout).
Proof.
  unfold downloadImage. rel.
  destruct HSB as ((_ & _ & _ & _ & Hfetch & _) & _). now rewrite Hfetch.
Qed.


Ltac rel_known :=
  first
    [ apply related_updateAspectRatioStatus
    | apply related_updateCharacterAspectRatios
    | apply related_getCharacterById
    | apply related_uploadImageToStorage
    | apply related_downloadImage ].

Ltac rel' :=
  repeat first
    [ rel_known
    | apply related_ret
    | apply related_throw
    | apply related_lift
    | apply related_read; intros ? ? ?HSB
    | apply respects_bind; [| intros ?]
    | apply respects_try; [| intros ?]
    | match goal with
      | |- related _ _ (match ?x with _ => _ end) => destruct x
      | |- related _ _ (if ?x then _ else _) => destruct x
      end ].

Lemma related_startUploads (images : list (string * ProcessedImage)) :
  related SB (fun _ => SB)
    (fun w => let '(o, w') := startUploads images w in (Normal o, w')).
Proof.
  induction images as [| [ratioKey imageData] rest IH]; intros u v HR.
  - cbn. auto.
  - cbn [startUploads].
    destruct (related_uploadImageToStorage (buffer imageData)
                (filename imageData) u v HR) as [E1 HR1].
    destruct (uploadImageToStorage _ _ u) as [cu u1],
             (uploadImageToStorage _ _ v) as [cv v1].
    cbn [fst snd] in *. subst cv.
    destruct (IH u1 v1 HR1) as [E2 HR2].
    destruct (startUploads rest u1) as [ou u2],
             (startUploads rest v1) as [ov v2].
    cbn [fst snd] in *. injection E2 as ->. auto.
Qed.

(** The cleanup only touches the bucket and the log. *)
Lemma cleanup_keeps_record (cid : string) (w : World) :
  same_record w (snd (cleanupOldAspectRatioFiles cid w)).
Proof.
  unfold cleanupOldAspectRatioFiles, try_catchM, mbind, M_bind, same_record.
  rewrite getSupabaseClient_eq. destruct (client_ok w); [| cbn; auto].
  unfold storage_list, storage_remove, call.
  cbn -[Nat.eqb Nat.ltb skipn sort_newest_first omap].
  repeat match goal with
         | |- context [fault w ?n ?r] =>
             destruct (fault w n r);
             cbn -[Nat.eqb Nat.ltb skipn sort_newest_first omap]
         | |- context [if ?c then _ else _] =>
             destruct c; cbn -[Nat.eqb Nat.ltb skipn sort_newest_first omap]
         end; auto.
Qed.

Lemma related_cleanup (cid : string) :
  related SB (fun c u v => Js.is_normal c = true /\ same_record u v)
    (detached (cleanupOldAspectRatioFiles cid)).
Proof.
  intros u v HR. unfold detached. cbn [fst snd]. split; [reflexivity |].
  split; [reflexivity |].
  destruct (cleanup_keeps_record cid u) as [Hu Hnu].
  destruct (cleanup_keeps_record cid v) as [Hv Hnv].
  destruct (SB_same_record u v HR) as [Hc Hn].
  unfold same_record. split; congruence.
Qed.

Context `{Crypto} `{Json}.

Lemma related_receive (req : HttpRequest) :
  related SB (fun _ => SB) (receive req).
Proof.
  unfold receive, respondError. rel'; try exact HSB.
  all: first [ now rewrite (SB_now _ _ HSB)
             | destruct HSB as ((_ & _ & Hsecret & _) & _); now rewrite Hsecret ].
Qed.

Lemma related_onError (cid : option json) (message : string) :
  related SB (fun _ => SB) (onError cid message).
Proof.
  unfold onError, respondError. rel'; now rewrite (SB_now _ _ HSB).
Qed.


Lemma SB_after_body {A : Type} (c : completion A) (u v : World) :
  SB u v -> after_body c u v.
Proof. intros HR. destruct c; [now apply SB_same_record | exact HR]. Qed.

(** Up to the cleanup the two runs of the job body go the same way. *)
Lemma related_process (job : Job) :
  related SB after_body (process job).
Proof.
  unfold process.
  repeat first
    [ eapply related_bind;
        [ first [ rel_known | apply related_lift
                | apply related_read; intros ? ? ?HSB
                | apply related_startUploads
                | apply respects_try; rel' ]
        | intros ?; cbv beta
        | intros ? ? ? ?HSB; exact HSB ]
    | match goal with
      | |- related _ _ (match ?x with _ => _ end) => destruct x
      | |- related _ _ (if ?x then _ else _) => destruct x
      end ];
    try (now apply SB_now);
    try (eapply related_weaken; [apply related_ret | intros; now apply SB_after_body]).
  - intros _. apply related_ret.
  - now destruct HSB as ((_ & _ & _ & _ & _ & Harrival) & _).
  - intros u v HR.
    destruct (related_cleanup (JsValue.to_string (characterId job)) u v HR)
      as [_ [_ [Hch Hn]]].
    unfold mbind, M_bind, detached, read, mret, M_ret in *. cbn [fst snd] in *.
    rewrite Hn. split; [reflexivity | split; assumption].
Qed.


Lemma related_handler (req : HttpRequest) :
  related SB (fun _ => same_record) (handler req).
Proof.
  unfold handler.
  destruct (String.eqb (method req) "OPTIONS").
  { eapply related_weaken; [apply related_ret |].
    intros c u v HR. now apply SB_same_record. }
  destruct (negb (String.eqb (method req) "POST")).
  { eapply related_weaken;
      [unfold respondError; rel'; now rewrite (SB_now _ _ HSB) |].
    intros c u v HR. now apply SB_same_record. }
  eapply related_bind with (Q := fun _ => SB).
  - apply respects_try; [apply related_receive |].
    intros message. apply respects_bind; [apply related_onError |].
    intros r. apply related_ret.
  - intros [response | job].
    + eapply related_weaken; [apply related_ret |].
      intros c u v HR. now apply SB_same_record.
    + eapply related_try with (Q := after_body).
      * apply related_process.
      * intros message. eapply related_weaken; [apply related_onError |].
        intros c u v HR. now apply SB_same_record.
      * intros r u v HR. exact HR.
  - intros message u v HR. now apply SB_same_record.
Qed.

Lemma cleanup_faults_unobservable (req : HttpRequest) (w w2 : World) :
  same_but_cleanup_faults w w2 ->
  fst (handler req w2) = fst (handler req w) /\
  characters (snd (handler req w2)) = characters (snd (handler req w)).
Proof.
  intros HR. destruct (related_handler req w w2 HR) as [E [Hch _]].
  split; assumption.
Qed.

End CleanupFaults.

(** ** The claims about the handler *)

Section Outcomes.

Import Sharp ImageProcessor Auth Supabase Process Spec.

Context `{Crypto} `{Json}.





(** C6, as the code has it: a run makes a request of the cleanup only when
    the job completes, and a completed job has listed the folder; and how
    the backend answers the requests of the cleanup changes neither the
    response nor the table. *)
Theorem cleanup_only_after_completion (req : HttpRequest) (w : World)
  (c : completion HttpResponse) (w' : World) :
  handler req w = (c, w') ->
  ((exists e, In e (issued w w') /\ is_cleanup (request e) = true) ->
   completes c) /\
  (completes c ->
   exists e, In e (issued w w') /\ is_listing (request e) = true) /\
  (forall w2,
      same_but_cleanup_faults w w2 ->
      fst (handler req w2) = c /\
      characters (snd (handler req w2)) = characters w').
Proof.
  intros Hrun.
  destruct (cleanup_iff_completed req w c w' Hrun) as (Honly & Hlisted).
  split_and!; [exact Honly | exact Hlisted |].
  intros w2 Hsame.
  destruct (cleanup_faults_unobservable req w w2 Hsame) as (Hc & Ht).
  rewrite Hrun in Hc, Ht. auto.
Qed.

End Outcomes.

(** ** The platform of [NodeCrypto] and [NodeJson] *)

Section NodePlatform.

Import Auth NodeCrypto.

Lemma sha256_length (data : list Z) : length (sha256 data) = 32%nat.
Proof. reflexivity. Qed.

Lemma string_of_bytes_length (data : list Z) :
  String.length (string_of_bytes data) = length data.
Proof.
  unfold string_of_bytes.
  induction data as [| b rest IH]; [reflexivity |].
  cbn [map string_of_list_ascii String.length]. now rewrite IH.
Qed.

Lemma hmac_length (key message : list Z) : length (hmac key message) = 32%nat.
Proof. unfold hmac. apply sha256_length. Qed.

(** The vectors of FIPS 180-2 and of RFC 4231 (test case 2), and a key
    longer than a block. *)
Lemma sha256_abc :
  hex_encode (string_of_bytes (sha256 (bytes_of_string "abc")))
  = "ba7816bf8f01cfea414140de5dae2223b00361a396177a9cb410ff61f20015ad".
Proof. vm_compute. reflexivity. Qed.

Lemma hmac_sha256_rfc4231 :
  hex_encode (hmac_sha256 "Jefe" "what do ya want for nothing?")
  = "5bdcc146bf60754e6a042426089575c75a003f089d2739839dec58b964ec3843".
Proof. vm_compute. reflexivity. Qed.

Lemma hmac_sha256_long_key :
  hex_encode
    (hmac_sha256
       "kkkkkkkkkkkkkkkkkkkkkkkkkkkkkkkkkkkkkkkkkkkkkkkkkkkkkkkkkkkkkkkkkkkkkk"
       "long key")
  = "774fbc038c668f6bdb0425333c858eb64e52a0a5ad7513e0d25b4b0d3e30e540".
Proof. vm_compute. reflexivity. Qed.

(** The payload of the scenario, as [JSON.parse] reads it. *)
Lemma payload_parsed :
  @JSON_parse NodeJson.json Scenario.payload
  = Normal (JObj [ ("characterId", JStr "c1");
                   ("imageUrl", JStr "https://cdn.example/a.jpg") ]).
Proof. vm_compute. reflexivity. Qed.

End NodePlatform.

#[export] Instance node_crypto_laws : @CryptoLaws NodeCrypto.crypto.
Proof.
  constructor. intros key message. cbn [hmac_sha256 NodeCrypto.crypto].
  rewrite string_of_bytes_length. apply hmac_length.
Qed.

(** ** Runs of the service on that platform *)

Section Runs.

Import Sharp ImageProcessor Auth Supabase Process Spec Scenario.

#[local] Existing Instance NodeCrypto.crypto.
#[local] Existing Instance NodeJson.json.

(** The signature of the trigger, as Node computes it. *)
Lemma trigger_signature :
  generateWebhookSignature payload secret
  = "sha256=1572811372cb8315eda24a994c832fc9da48a536366a335ccdaf7d63d8589719".
Proof. vm_compute. reflexivity. Qed.



(** A presented signature that is the expected digest followed by two
    characters that are no hex digits is accepted: the decoding stops at
    the first pair that is not hex, so the decoded bytes are those of the
    digest. *)
Lemma signature_with_trailing_text_accepted :
  let presented :=
    "sha256=1572811372cb8315eda24a994c832fc9da48a536366a335ccdaf7d63d8589719zz" in
  String.length (Js.strip_prefix "sha256=" presented) = 66%nat /\
  hex_value "z" = None /\
  verifyWebhookSignature (Some payload) (Some presented) (Some secret)
  = Normal true.
Proof. split_and!; vm_compute; reflexivity. Qed.

Lemma verifyWebhookSignature_never_throws_witness :
  (exists verdict,
      verifyWebhookSignature (Some payload) (Some "sha256=abcd") (Some secret)
      = Normal verdict) /\
  verifyWebhookSignature (Some payload) None (Some secret) = Normal false /\
  verifyWebhookSignature (Some payload) (Some "sha256=abcd") (Some secret)
  = Normal false.
Proof.
  destruct (verifyWebhookSignature_never_throws
              (Some payload) (Some "sha256=abcd") (Some secret))
    as (Hnormal & _ & Hlength & _).
  destruct (verifyWebhookSignature_never_throws
              (Some payload) None (Some secret)) as (_ & Hmissing & _).
  split_and!.
  - exact Hnormal.
  - apply Hmissing. right. left. reflexivity.
  - apply (Hlength payload "sha256=abcd" secret eq_refl eq_refl eq_refl).
    vm_compute. discriminate.
Defined.





(** A job that ends [failed] has made no request of the cleanup. *)
Lemma failed_job_skips_cleanup :
  observe (handler trigger (world upload_fault landscape_source rows earlier_variants))
  = (Some (500, Some "Processing failed: Storage upload failed: bucket unavailable"),
     Some (Some failed, Some "Storage upload failed: bucket unavailable"),
     [ accepted (DbUpdate "c1" (StatusPatch processing None timestamp));
       accepted (DbSelectSingle "c1");
       accepted (StorageUpload "characters/c1/aspect-ratios/1x1-1757186938000.jpg");
       refused (StorageUpload "characters/c1/aspect-ratios/16x9-1757186938000.jpg")
         "bucket unavailable";
       accepted (StorageUpload "characters/c1/aspect-ratios/9x16-1757186938000.jpg");
       accepted (DbUpdate "c1"
                   (StatusPatch failed
                      (Some "Storage upload failed: bucket unavailable")
                      timestamp)) ],
     [ "characters/c1/aspect-ratios/1x1-1000.jpg";
       "characters/c1/aspect-ratios/16x9-1000.jpg";
       "characters/c1/aspect-ratios/9x16-1000.jpg";
       "characters/c1/aspect-ratios/1x1-2000.jpg";
       "characters/c1/aspect-ratios/1x1-1757186938000.jpg";
       "characters/c1/aspect-ratios/9x16-1757186938000.jpg" ]) /\
  existsb (fun e => is_cleanup (request e))
    (log (snd (handler trigger
                 (world upload_fault landscape_source rows earlier_variants))))
  = false.
Proof. split; vm_compute; reflexivity. Qed.

Lemma cleanup_only_after_completion_witness :
  let w := world no_fault landscape_source rows earlier_variants in
  let w2 := world cleanup_fault landscape_source rows earlier_variants in
  same_but_cleanup_faults w w2 /\
  fst (handler trigger w2) = fst (handler trigger w) /\
  characters (snd (handler trigger w2)) = characters (snd (handler trigger w)).
Proof.
  intros w w2.
  assert (Hsame : same_but_cleanup_faults w w2).
  { unfold same_but_cleanup_faults, same_config_but_fault.
    split_and!; try reflexivity.
    intros n r Hr. destruct r; try discriminate Hr; reflexivity. }
  split; [exact Hsame |].
  destruct (cleanup_only_after_completion trigger w _ _
              (surjective_pairing (handler trigger w))) as (_ & _ & Hfaults).
  exact (Hfaults w2 Hsame).
Defined.

End Runs.

(** ** lib/imageProcessor.js: which sources can be processed, and how large
    the variants are *)

Section Variants.

Import Sharp ImageProcessor.

Lemma inject_Z_pos (n : Z) : 0 < n -> (0 < inject_Z n)%Q.
Proof. intros Hn. now rewrite <- (Zlt_Qlt 0). Qed.

(** A quotient of integers as a fraction. *)
Lemma Qdiv_inject (n d : Z) :
  0 < d -> (inject_Z n / inject_Z d == n # Z.to_pos d)%Q.
Proof.
  intros Hd. destruct d as [| p | p]; try lia.
  unfold Qeq, Qdiv, Qmult, Qinv, inject_Z. simpl. lia.
Qed.

Lemma to_integer_Z (n : Z) :
  Double.to_integer (Double.Num (inject_Z n)) = Some n.
Proof.
  unfold Double.to_integer. rewrite Qfloor_Z.
  assert (E : Qeq_bool (inject_Z n) (inject_Z n) = true)
    by (apply Qeq_bool_iff; reflexivity).
  now rewrite E.
Qed.

Lemma createPaddedImage_ok (imageBuffer : Buffer) (info : ImageInfo)
  (targetWidth targetHeight : Z) :
  image imageBuffer = Some info ->
  0 < width info < 2 ^ 32 -> 0 < height info < 2 ^ 32 ->
  0 < targetWidth < 2 ^ 32 -> 0 < targetHeight < 2 ^ 32 ->
  height info < 2 * width info * targetHeight ->
  width info < 2 * height info * targetWidth ->
  exists paddedImage,
    createPaddedImage imageBuffer targetWidth targetHeight = Normal paddedImage /\
    Spec.pixelDimensions paddedImage = Some (targetWidth, targetHeight).
Proof.
  intros Himage Hw Hh Htw Hth H1 H2.
  destruct (padGeometry_numbers _ _ _ _ Hw Hh Htw Hth)
    as (nw & nh & Eg & Hnw & Hnh & _ & Hpw & Hph & _).
  specialize (Hpw H1). specialize (Hph H2).
  unfold createPaddedImage, metadata. rewrite Himage.
  cbn [try_catch mbind completion_bind Js.bind]. rewrite Eg.
  cbn [newWidth newHeight top left].
  unfold resize_jpeg, create_composite_jpeg, check_positive, positive_integer,
    integer, metadata.
  rewrite !to_integer_Z, Himage.
  assert (Enw : (0 <? nw) = true) by (apply Z.ltb_lt; lia).
  assert (Enh : (0 <? nh) = true) by (apply Z.ltb_lt; lia).
  assert (Etw : (0 <? targetWidth) = true) by (apply Z.ltb_lt; lia).
  assert (Eth : (0 <? targetHeight) = true) by (apply Z.ltb_lt; lia).
  rewrite Enw, Enh, Etw, Eth.
  cbn [try_catch mbind completion_bind Js.bind image toBuffer_jpeg width height].
  assert (Efw : (nw <=? targetWidth) = true) by (apply Z.leb_le; lia).
  assert (Efh : (nh <=? targetHeight) = true) by (apply Z.leb_le; lia).
  rewrite Efw, Efh. cbn [andb]. eexists. split; reflexivity.
Qed.

Lemma createPaddedImage_refused (imageBuffer : Buffer) (info : ImageInfo)
  (targetWidth targetHeight : Z) :
  image imageBuffer = Some info ->
  0 < width info < 2 ^ 32 -> 0 < height info < 2 ^ 32 ->
  0 < targetWidth < 2 ^ 32 -> 0 < targetHeight < 2 ^ 32 ->
  2 * width info * targetHeight < height info \/
  2 * height info * targetWidth < width info ->
  exists reason,
    createPaddedImage imageBuffer targetWidth targetHeight
    = Throw ("Image processing failed: " ++ reason).
Proof.
  intros Himage Hw Hh Htw Hth Helongated.
  destruct (padGeometry_numbers _ _ _ _ Hw Hh Htw Hth)
    as (nw & nh & Eg & Hnw & Hnh & _ & _ & _ & Hzw & Hzh).
  unfold createPaddedImage, metadata. rewrite Himage.
  cbn [try_catch mbind completion_bind Js.bind]. rewrite Eg.
  cbn [newWidth newHeight top left].
  unfold resize_jpeg, positive_integer, metadata.
  rewrite !to_integer_Z, Himage.
  destruct Helongated as [Htall | Hwide].
  - rewrite (Hzw Htall).
    cbn [Z.ltb Z.compare try_catch mbind completion_bind Js.bind].
    eexists. reflexivity.
  - rewrite (Hzh Hwide). destruct (0 <? nw);
      cbn [Z.ltb Z.compare try_catch mbind completion_bind Js.bind];
      eexists; reflexivity.
Qed.


Lemma round_integer (x : Q) (n : Z) : (x == inject_Z n)%Q -> JsNum.round x = n.
Proof.
  intros E. apply Z.le_antisymm.
  - apply round_le. rewrite E. apply Qle_refl.
  - apply round_ge. rewrite E. apply Qle_refl.
Qed.

Lemma Qdiv_fraction (n a : Z) (b : positive) :
  0 < a -> (inject_Z n / (a # b) == (n * Z.pos b) # Z.to_pos a)%Q.
Proof.
  intros Ha. destruct a as [| p | p]; try lia.
  unfold Qeq, Qdiv, Qmult, Qinv, inject_Z. simpl. lia.
Qed.

(** [fit: 'inside']: the result lies in the requested box and touches it
    on one side at least; it fills the box when the ratios agree. *)
Lemma inside_dimensions_fit (info : ImageInfo) (w h : Z) :
  0 < width info -> 0 < height info -> 0 < w -> 0 < h ->
  1 <= fst (inside_dimensions info w h) <= w /\
  1 <= snd (inside_dimensions info w h) <= h /\
  (fst (inside_dimensions info w h) = w \/ snd (inside_dimensions info w h) = h) /\
  (width info * h = height info * w ->
   inside_dimensions info w h = (w, h)).
Proof.
  intros Hiw Hih Hw Hh. unfold inside_dimensions, JsNum.max.
  destruct info as [iw ih fmt]. cbn [width height fst snd] in *.
  destruct iw as [| qw | qw]; try lia. destruct ih as [| qh | qh]; try lia.
  destruct w as [| pw | pw]; try lia. destruct h as [| ph | ph]; try lia.
  assert (Ehs : (inject_Z (Z.pos qw) / inject_Z (Z.pos pw) == Z.pos qw # pw)%Q)
    by (now rewrite Qdiv_inject).
  assert (Evs : (inject_Z (Z.pos qh) / inject_Z (Z.pos ph) == Z.pos qh # ph)%Q)
    by (now rewrite Qdiv_inject).
  destruct (Qle_bool _ _) eqn:E; cbv iota.
  - apply Qle_bool_iff in E. rewrite Ehs, Evs in E.
    assert (Eh : JsNum.round (inject_Z (Z.pos qh)
                               / (inject_Z (Z.pos qh) / inject_Z (Z.pos ph)))
                 = Z.pos ph).
    { apply round_integer. rewrite Evs, Qdiv_fraction by lia.
      unfold Qeq, inject_Z. simpl. lia. }
    assert (Hle : JsNum.round (inject_Z (Z.pos qw)
                                / (inject_Z (Z.pos qh) / inject_Z (Z.pos ph)))
                  <= Z.pos pw).
    { apply round_le. rewrite Evs, Qdiv_fraction by lia.
      unfold Qle, inject_Z in *. cbn in *. nia. }
    rewrite Eh. split_and!; try lia.
    intros Hsame. f_equal; [| lia].
    assert (Ew : JsNum.round (inject_Z (Z.pos qw)
                               / (inject_Z (Z.pos qh) / inject_Z (Z.pos ph)))
                 = Z.pos pw).
    { apply round_integer. rewrite Evs, Qdiv_fraction by lia.
      unfold Qeq, inject_Z. cbn. nia. }
    rewrite Ew. lia.
  - assert (E' : ~ (Z.pos qw # pw <= Z.pos qh # ph)%Q).
    { intros Hle. rewrite <- Ehs, <- Evs in Hle.
      apply Qle_bool_iff in Hle. congruence. }
    assert (Ew : JsNum.round (inject_Z (Z.pos qw)
                               / (inject_Z (Z.pos qw) / inject_Z (Z.pos pw)))
                 = Z.pos pw).
    { apply round_integer. rewrite Ehs, Qdiv_fraction by lia.
      unfold Qeq, inject_Z. simpl. lia. }
    assert (Hle : JsNum.round (inject_Z (Z.pos qh)
                                / (inject_Z (Z.pos qw) / inject_Z (Z.pos pw)))
                  <= Z.pos ph).
    { apply round_le. rewrite Ehs, Qdiv_fraction by lia.
      unfold Qle, inject_Z in *. cbn in *. nia. }
    rewrite Ew. split_and!; try lia.
    intros Hsame. exfalso. apply E'. unfold Qle. cbn. nia.
Qed.

Lemma resize_inside_jpeg_run (imageBuffer : Buffer) (info : ImageInfo) (w h : Z) :
  image imageBuffer = Some info -> 0 < w -> 0 < h ->
  resize_inside_jpeg imageBuffer w h
  = Normal (toBuffer_jpeg (fst (inside_dimensions info w h))
                          (snd (inside_dimensions info w h))).
Proof.
  intros Himage Hw Hh. unfold resize_inside_jpeg, check_positive, metadata.
  apply Z.ltb_lt in Hw, Hh. rewrite Hw, Hh, Himage.
  cbn [mbind completion_bind Js.bind].
  now destruct (inside_dimensions info w h).
Qed.

Lemma createPaddedImage_throws (imageBuffer : Buffer) (w h : Z) (message : string) :
  createPaddedImage imageBuffer w h = Throw message ->
  exists reason, message = "Image processing failed: " ++ reason.
Proof.
  unfold createPaddedImage, try_catch.
  destruct (_ ≫= _) as [padded | reason]; [discriminate |].
  intros E. injection E as <-. eauto.
Qed.

(** One iteration of the loop: the variant lies in the box of its target,
    and has exactly the target size on the padding branch. *)
Lemma processRatio_dimensions (imageBuffer : Buffer) (info : ImageInfo)
  (characterId : string) (timestamp : Z) (originalRatio : string)
  (processed processed' : list (string * ProcessedImage))
  (ratioKey : string) (dimensions : Dimensions) :
  image imageBuffer = Some info ->
  0 < width info -> 0 < height info ->
  0 < dim_width dimensions -> 0 < dim_height dimensions ->
  processRatio imageBuffer characterId timestamp originalRatio processed
    (ratioKey, dimensions) = Normal processed' ->
  exists variant w h,
    processed' = obj_set (Js.replace ":" "x" ratioKey) variant processed /\
    Spec.pixelDimensions (buffer variant) = Some (w, h) /\
    1 <= w <= dim_width dimensions /\ 1 <= h <= dim_height dimensions /\
    (w = dim_width dimensions \/ h = dim_height dimensions) /\
    (originalRatio <> ratioKey \/
     width info * dim_height dimensions = height info * dim_width dimensions ->
     w = dim_width dimensions /\ h = dim_height dimensions).
Proof.
  intros Himage Hw Hh Htw Hth. unfold processRatio.
  destruct (String.eqb originalRatio ratioKey) eqn:Ekey.
  - rewrite (resize_inside_jpeg_run _ _ _ _ Himage Htw Hth).
    cbn [mbind completion_bind Js.bind]. intros E. injection E as <-.
    destruct (inside_dimensions_fit info _ _ Hw Hh Htw Hth)
      as (Hfw & Hfh & Hside & Hexact).
    set (d := inside_dimensions info (dim_width dimensions)
                (dim_height dimensions)) in *.
    eexists _, (fst d), (snd d). split; [reflexivity |].
    split; [reflexivity |]. split_and!; try lia.
    intros [Hne | Hsame].
    + apply String.eqb_eq in Ekey. contradiction.
    + rewrite (Hexact Hsame). split; reflexivity.
  - destruct (createPaddedImage imageBuffer _ _) as [padded |] eqn:Epad;
      cbn [mbind completion_bind Js.bind]; [| discriminate].
    intros E. injection E as <-.
    apply createPaddedImage_dimensions in Epad.
    eexists _, _, _. split; [reflexivity |].
    split; [exact Epad |]. split_and!; try lia.
Qed.

(** X2: every variant lies in the box of its target and touches it on one side
    at least; the variants of the targets other than the detected ratio
    have exactly the target size, and so has the variant of the detected
    ratio when the source has exactly the ratio of the target. *)
Theorem processAllAspectRatios_dimensions (originalImageBuffer : Buffer)
  (info : ImageInfo) (characterId : string) (timestamp : Z)
  (result : ProcessingResult) :
  image originalImageBuffer = Some info ->
  0 < width info -> 0 < height info ->
  processAllAspectRatios originalImageBuffer characterId timestamp
    = Normal result ->
  originalAspectRatio result = detectAspectRatio (width info) (height info) /\
  forall ratioKey dimensions,
    In (ratioKey, dimensions) ASPECT_RATIO_DIMENSIONS ->
    exists variant w h,
      obj_get (Js.replace ":" "x" ratioKey) (processedImages result)
        = Some variant /\
      Spec.pixelDimensions (buffer variant) = Some (w, h) /\
      1 <= w <= dim_width dimensions /\ 1 <= h <= dim_height dimensions /\
      (w = dim_width dimensions \/ h = dim_height dimensions) /\
      (originalAspectRatio result <> ratioKey \/
       width info * dim_height dimensions = height info * dim_width dimensions ->
       w = dim_width dimensions /\ h = dim_height dimensions).
Proof.
  intros Himage Hw Hh.
  unfold processAllAspectRatios, try_catch, metadata. rewrite Himage.
  cbn [mbind completion_bind Js.bind].
  set (original := detectAspectRatio (width info) (height info)).
  unfold ASPECT_RATIO_DIMENSIONS, processRatios, mbind, completion_bind, Js.bind.
  destruct (processRatio _ _ _ _ [] _) as [p1 |] eqn:E1; [| discriminate].
  destruct (processRatio _ _ _ _ p1 _) as [p2 |] eqn:E2; [| discriminate].
  destruct (processRatio _ _ _ _ p2 _) as [p3 |] eqn:E3; [| discriminate].
  apply (processRatio_dimensions _ info) in E1
    as (v1 & w1 & h1 & -> & H1); cbn [dim_width dim_height]; try lia; auto.
  apply (processRatio_dimensions _ info) in E2
    as (v2 & w2 & h2 & -> & H2); cbn [dim_width dim_height]; try lia; auto.
  apply (processRatio_dimensions _ info) in E3
    as (v3 & w3 & h3 & -> & H3); cbn [dim_width dim_height]; try lia; auto.
  intros E. injection E as <-. cbn [originalAspectRatio processedImages].
  split; [reflexivity |].
  intros ratioKey dimensions [E | [E | [E | []]]]; injection E as <- <-.
  - exists v1, w1, h1. split; [reflexivity | exact H1].
  - exists v2, w2, h2. split; [reflexivity | exact H2].
  - exists v3, w3, h3. split; [reflexivity | exact H3].
Qed.

(** A source with one side more than 1152 times the other is of no
    target ratio. *)
Lemma detectAspectRatio_elongated (w h : Z) :
  0 < w < 2 ^ 32 -> 0 < h < 2 ^ 32 -> 1152 * w < h \/ 1152 * h < w ->
  detectAspectRatio w h = "other".
Proof.
  intros Hw Hh Helongated.
  rewrite (detectAspectRatio_exact w h Hw Hh).
  assert (Hratio : (inject_Z w / inject_Z h <= 1 # 1152)%Q
                   \/ (1152 # 1 <= inject_Z w / inject_Z h)%Q).
  { rewrite Qdiv_inject by lia.
    destruct h as [| ph | ph]; try lia. unfold Qle. cbn. lia. }
  unfold Spec.classify.
  set (x := (inject_Z w / inject_Z h)%Q) in *. clearbody x.
  assert (Eb : Qeq_bool x (311 # 180) = false).
  { destruct (Qeq_bool x (311 # 180)) eqn:Eb; [| reflexivity].
    apply Qeq_bool_iff in Eb. rewrite Eb in Hratio.
    destruct Hratio as [H | H]; unfold Qle in H; cbn in H; lia. }
  rewrite Eb.
  repeat destruct (Qlt_le_dec _ _) as [Hnear | _]; try reflexivity;
    exfalso; revert Hnear; destruct Hratio; abs_cases; lra.
Qed.

Lemma processRatio_ok (imageBuffer : Buffer) (info : ImageInfo)
  (characterId : string) (timestamp : Z) (originalRatio : string)
  (processed : list (string * ProcessedImage))
  (ratioKey : string) (dimensions : Dimensions) :
  image imageBuffer = Some info ->
  0 < width info < 2 ^ 32 -> 0 < height info < 2 ^ 32 ->
  0 < dim_width dimensions < 2 ^ 32 -> 0 < dim_height dimensions < 2 ^ 32 ->
  height info < 2 * width info * dim_height dimensions ->
  width info < 2 * height info * dim_width dimensions ->
  exists processed',
    processRatio imageBuffer characterId timestamp originalRatio processed
      (ratioKey, dimensions) = Normal processed'.
Proof.
  intros Himage Hw Hh Htw Hth H1 H2. unfold processRatio.
  destruct (String.eqb originalRatio ratioKey).
  - rewrite (resize_inside_jpeg_run _ _ _ _ Himage (proj1 Htw) (proj1 Hth)).
    cbn [mbind completion_bind Js.bind]. eauto.
  - destruct (createPaddedImage_ok _ info _ _ Himage Hw Hh Htw Hth H1 H2)
      as (padded & -> & _).
    cbn [mbind completion_bind Js.bind]. eauto.
Qed.

(** X3: a decodable source with sides below [2^32] is processed when
    neither side is 1152 times the other or more, and the run throws when
    one side is more than 1152 times the other: a scaled side of one of the
    padded variants rounds to zero pixels.  At exactly 1152 times the
    rounding of a product decides: 1152 by 1 is processed, 56448 by 49 is
    not. *)
Theorem processAllAspectRatios_succeeds_unless_elongated
  (originalImageBuffer : Buffer) (info : ImageInfo) (characterId : string)
  (timestamp : Z) :
  image originalImageBuffer = Some info ->
  0 < width info < 2 ^ 32 -> 0 < height info < 2 ^ 32 ->
  (height info < 1152 * width info /\ width info < 1152 * height info ->
   exists result,
     processAllAspectRatios originalImageBuffer characterId timestamp
     = Normal result) /\
  (1152 * width info < height info \/ 1152 * height info < width info ->
   exists reason,
     processAllAspectRatios originalImageBuffer characterId timestamp
     = Throw ("Image processing failed: " ++ reason)) /\
  Js.is_normal
    (processAllAspectRatios (Scenario.jpeg 1152 1) "c1" Scenario.timestamp)
  = true /\
  Js.is_normal
    (processAllAspectRatios (Scenario.jpeg 56448 49) "c1" Scenario.timestamp)
  = false.
Proof.
  intros Himage Hw Hh.
  split; [| split; [| split; vm_compute; reflexivity]].
  all: unfold processAllAspectRatios, try_catch, metadata; rewrite Himage;
    cbn [mbind completion_bind Js.bind];
    unfold ASPECT_RATIO_DIMENSIONS, processRatios, mbind, completion_bind, Js.bind.
  - intros [H1 H2].
    destruct (processRatio_ok originalImageBuffer info characterId timestamp
                (detectAspectRatio (width info) (height info)) []
                "1:1" {| dim_width := 1024; dim_height := 1024 |})
      as (p1 & ->); cbn [dim_width dim_height]; try lia; auto.
    destruct (processRatio_ok originalImageBuffer info characterId timestamp
                (detectAspectRatio (width info) (height info)) p1
                "16:9" {| dim_width := 1024; dim_height := 576 |})
      as (p2 & ->); cbn [dim_width dim_height]; try lia; auto.
    destruct (processRatio_ok originalImageBuffer info characterId timestamp
                (detectAspectRatio (width info) (height info)) p2
                "9:16" {| dim_width := 576; dim_height := 1024 |})
      as (p3 & ->); cbn [dim_width dim_height]; try lia; auto.
    eauto.
  - intros Helongated.
    rewrite (detectAspectRatio_elongated _ _ Hw Hh Helongated).
    unfold processRatio.
    cbn [String.eqb Ascii.eqb Bool.eqb dim_width dim_height mbind
           completion_bind Js.bind].
    destruct (createPaddedImage originalImageBuffer 1024 1024)
      as [b1 | m1] eqn:E1.
    2:{ apply createPaddedImage_throws in E1 as [reason ->]. eauto. }
    destruct (createPaddedImage originalImageBuffer 1024 576)
      as [b2 | m2] eqn:E2.
    2:{ apply createPaddedImage_throws in E2 as [reason ->]. eauto. }
    destruct (createPaddedImage originalImageBuffer 576 1024)
      as [b3 | m3] eqn:E3.
    2:{ apply createPaddedImage_throws in E3 as [reason ->]. eauto. }
    exfalso. destruct Helongated as [Htall | Hwide].
    + destruct (createPaddedImage_refused originalImageBuffer info 1024 576)
        as [reason E]; auto; try lia. congruence.
    + destruct (createPaddedImage_refused originalImageBuffer info 576 1024)
        as [reason E]; auto; try lia. congruence.
Qed.

Lemma round_ge_half (x : Q) (n : Z) :
  (inject_Z n - (1 # 2) <= x)%Q -> n <= JsNum.round x.
Proof.
  intros Hx. unfold JsNum.round.
  assert (Hle : (inject_Z n <= x + (1 # 2))%Q).
  { apply (Qplus_le_l _ _ (1 # 2)) in Hx.
    setoid_replace (inject_Z n - (1 # 2) + (1 # 2))%Q with (inject_Z n)
      using relation Qeq in Hx by ring.
    exact Hx. }
  apply Qfloor_resp_le in Hle. now rewrite Qfloor_Z in Hle.
Qed.

(** Lower bounds for [fit: 'inside'], from bounds on the ratio of the
    source. *)
Lemma inside_dimensions_lower (info : ImageInfo) (w h nw nh : Z) :
  0 < width info -> 0 < height info -> 0 < w -> 0 < h ->
  nw <= w -> nh <= h ->
  (2 * nw - 1) * height info <= 2 * width info * h ->
  (2 * nh - 1) * width info <= 2 * height info * w ->
  nw <= fst (inside_dimensions info w h) /\
  nh <= snd (inside_dimensions info w h).
Proof.
  intros Hiw Hih Hw Hh Hnw Hnh Hlow Hhigh.
  unfold inside_dimensions, JsNum.max.
  destruct info as [iw ih fmt]. cbn [width height fst snd] in *.
  destruct iw as [| qw | qw]; try lia. destruct ih as [| qh | qh]; try lia.
  destruct w as [| pw | pw]; try lia. destruct h as [| ph | ph]; try lia.
  assert (Ehs : (inject_Z (Z.pos qw) / inject_Z (Z.pos pw) == Z.pos qw # pw)%Q)
    by (now rewrite Qdiv_inject).
  assert (Evs : (inject_Z (Z.pos qh) / inject_Z (Z.pos ph) == Z.pos qh # ph)%Q)
    by (now rewrite Qdiv_inject).
  assert (Hwidth : nw <= JsNum.round (inject_Z (Z.pos qw)
                              / (inject_Z (Z.pos qh) / inject_Z (Z.pos ph)))).
  { apply round_ge_half. rewrite Evs, Qdiv_fraction by lia.
    unfold Qle, Qminus, Qplus, Qopp, inject_Z. cbn. nia. }
  assert (Hheight : nh <= JsNum.round (inject_Z (Z.pos qh)
                               / (inject_Z (Z.pos qw) / inject_Z (Z.pos pw)))).
  { apply round_ge_half. rewrite Ehs, Qdiv_fraction by lia.
    unfold Qle, Qminus, Qplus, Qopp, inject_Z. cbn. nia. }
  assert (Eh : JsNum.round (inject_Z (Z.pos qh)
                             / (inject_Z (Z.pos qh) / inject_Z (Z.pos ph)))
               = Z.pos ph).
  { apply round_integer. rewrite Evs, Qdiv_fraction by lia.
    unfold Qeq, inject_Z. simpl. lia. }
  assert (Ew : JsNum.round (inject_Z (Z.pos qw)
                             / (inject_Z (Z.pos qw) / inject_Z (Z.pos pw)))
               = Z.pos pw).
  { apply round_integer. rewrite Ehs, Qdiv_fraction by lia.
    unfold Qeq, inject_Z. simpl. lia. }
  destruct (Qle_bool _ _); cbv iota; lia.
Qed.

(** What the detected ratio says about the sides of the source. *)
Lemma detectAspectRatio_sides (w h : Z) :
  0 < w < 2 ^ 32 -> 0 < h < 2 ^ 32 ->
  match detectAspectRatio w h with
  | "1:1" => 19 * h < 20 * w < 21 * h
  | "16:9" => 311 * h <= 180 * w < 329 * h
  | "9:16" => 41 * h < 80 * w < 49 * h
  | _ => True
  end.
Proof.
  intros Hw Hh. rewrite (detectAspectRatio_exact w h Hw Hh).
  assert (Hratio : (inject_Z w / inject_Z h == w # Z.to_pos h)%Q)
    by (apply Qdiv_inject; lia).
  unfold Spec.classify.
  set (x := (inject_Z w / inject_Z h)%Q) in *. clearbody x.
  destruct h as [| ph | ph]; try lia. cbn [Z.to_pos] in Hratio.
  assert (Hsides : forall a b : positive,
            ((Z.pos a # b) - (5 # 100) < x)%Q ->
            (x < (Z.pos a # b) + (5 # 100))%Q ->
            (100 * Z.pos a - 5 * Z.pos b) * Z.pos ph < 100 * Z.pos b * w
            /\ 100 * Z.pos b * w
               < (100 * Z.pos a + 5 * Z.pos b) * Z.pos ph).
  { intros a b Hlow Hhigh. rewrite Hratio in Hlow, Hhigh.
    unfold Qlt, Qminus, Qplus, Qopp in Hlow, Hhigh. cbn in Hlow, Hhigh.
    nia. }
  destruct (Qeq_bool _ _) eqn:Eb.
  { apply Qeq_bool_iff in Eb.
    assert (Eb' := Qeq_trans _ _ _ (Qeq_sym _ _ Hratio) Eb).
    unfold Qeq in Eb'. cbn in Eb'. lia. }
  destruct (Qlt_le_dec _ _) as [H1 | _].
  { cbn [Spec.key]. destruct (Hsides 1%positive 1%positive); [| | lia];
      revert H1; abs_cases; lra. }
  destruct (Qlt_le_dec _ _) as [H2 | _].
  { cbn [Spec.key]. destruct (Hsides 16%positive 9%positive); [| | lia];
      revert H2; abs_cases; lra. }
  destruct (Qlt_le_dec _ _) as [H3 | _]; [| exact I].
  cbn [Spec.key]. destruct (Hsides 9%positive 16%positive); [| | lia];
    revert H3; abs_cases; lra.
Qed.

Lemma processRatio_cases (imageBuffer : Buffer) (info : ImageInfo)
  (characterId : string) (timestamp : Z) (originalRatio : string)
  (processed processed' : list (string * ProcessedImage))
  (ratioKey : string) (dimensions : Dimensions) :
  image imageBuffer = Some info ->
  0 < dim_width dimensions -> 0 < dim_height dimensions ->
  processRatio imageBuffer characterId timestamp originalRatio processed
    (ratioKey, dimensions) = Normal processed' ->
  exists variant,
    processed' = obj_set (Js.replace ":" "x" ratioKey) variant processed /\
    ((originalRatio = ratioKey /\
      Spec.pixelDimensions (buffer variant)
      = Some (inside_dimensions info (dim_width dimensions)
                (dim_height dimensions))) \/
     Spec.pixelDimensions (buffer variant)
     = Some (dim_width dimensions, dim_height dimensions)).
Proof.
  intros Himage Htw Hth. unfold processRatio.
  destruct (String.eqb originalRatio ratioKey) eqn:Ekey.
  - rewrite (resize_inside_jpeg_run _ _ _ _ Himage Htw Hth).
    cbn [mbind completion_bind Js.bind]. intros E. injection E as <-.
    eexists. split; [reflexivity |]. left.
    apply String.eqb_eq in Ekey. split; [exact Ekey |].
    reflexivity.
  - destruct (createPaddedImage imageBuffer _ _) as [padded |] eqn:Epad;
      cbn [mbind completion_bind Js.bind]; [| discriminate].
    intros E. injection E as <-.
    apply createPaddedImage_dimensions in Epad.
    eexists. split; [reflexivity |]. now right.
Qed.

(** X4: how far the variant of the detected ratio can fall short of its
    target: for every source with sides below [2^32] the 1x1 variant is at
    least 973 by 975, the 16x9 variant at least 995 by 560 and the 9x16
    variant at least 525 by 940, and none exceeds its target. *)
Theorem processAllAspectRatios_shortfall (originalImageBuffer : Buffer)
  (info : ImageInfo) (characterId : string) (timestamp : Z)
  (result : ProcessingResult) :
  image originalImageBuffer = Some info ->
  0 < width info < 2 ^ 32 -> 0 < height info < 2 ^ 32 ->
  processAllAspectRatios originalImageBuffer characterId timestamp
    = Normal result ->
  exists w1 h1 w2 h2 w3 h3,
    map (fun entry => (fst entry, Spec.pixelDimensions (buffer (snd entry))))
        (processedImages result)
    = [ ("1x1", Some (w1, h1)); ("16x9", Some (w2, h2));
        ("9x16", Some (w3, h3)) ] /\
    973 <= w1 <= 1024 /\ 975 <= h1 <= 1024 /\
    995 <= w2 <= 1024 /\ 560 <= h2 <= 576 /\
    525 <= w3 <= 576 /\ 940 <= h3 <= 1024.
Proof.
  intros Himage Hw Hh.
  unfold processAllAspectRatios, try_catch, metadata. rewrite Himage.
  cbn [mbind completion_bind Js.bind].
  pose proof (detectAspectRatio_sides _ _ Hw Hh) as Hsides.
  set (original := detectAspectRatio (width info) (height info)) in *.
  unfold ASPECT_RATIO_DIMENSIONS, processRatios, mbind, completion_bind, Js.bind.
  destruct (processRatio _ _ _ _ [] _) as [p1 |] eqn:E1; [| discriminate].
  destruct (processRatio _ _ _ _ p1 _) as [p2 |] eqn:E2; [| discriminate].
  destruct (processRatio _ _ _ _ p2 _) as [p3 |] eqn:E3; [| discriminate].
  apply (processRatio_cases _ info) in E1 as (v1 & -> & H1);
    cbn [dim_width dim_height] in *; try lia; auto.
  apply (processRatio_cases _ info) in E2 as (v2 & -> & H2);
    cbn [dim_width dim_height] in *; try lia; auto.
  apply (processRatio_cases _ info) in E3 as (v3 & -> & H3);
    cbn [dim_width dim_height] in *; try lia; auto.
  intros E. injection E as <-. cbn [processedImages].
  assert (B1 : exists w h, Spec.pixelDimensions (buffer v1) = Some (w, h)
                           /\ 973 <= w <= 1024 /\ 975 <= h <= 1024).
  { destruct H1 as [[Ekey ->] | ->]; [| exists 1024, 1024; split; [reflexivity | lia]].
    rewrite Ekey in Hsides.
    destruct (inside_dimensions_fit info 1024 1024) as (Hfw & Hfh & _); try lia.
    destruct (inside_dimensions_lower info 1024 1024 973 975); try lia.
    destruct (inside_dimensions info 1024 1024) as [w h]. cbn [fst snd] in *.
    exists w, h. split; [reflexivity | lia]. }
  assert (B2 : exists w h, Spec.pixelDimensions (buffer v2) = Some (w, h)
                           /\ 995 <= w <= 1024 /\ 560 <= h <= 576).
  { destruct H2 as [[Ekey ->] | ->]; [| exists 1024, 576; split; [reflexivity | lia]].
    rewrite Ekey in Hsides.
    destruct (inside_dimensions_fit info 1024 576) as (Hfw & Hfh & _); try lia.
    destruct (inside_dimensions_lower info 1024 576 995 560); try lia.
    destruct (inside_dimensions info 1024 576) as [w h]. cbn [fst snd] in *.
    exists w, h. split; [reflexivity | lia]. }
  assert (B3 : exists w h, Spec.pixelDimensions (buffer v3) = Some (w, h)
                           /\ 525 <= w <= 576 /\ 940 <= h <= 1024).
  { destruct H3 as [[Ekey ->] | ->]; [| exists 576, 1024; split; [reflexivity | lia]].
    rewrite Ekey in Hsides.
    destruct (inside_dimensions_fit info 576 1024) as (Hfw & Hfh & _); try lia.
    destruct (inside_dimensions_lower info 576 1024 525 940); try lia.
    destruct (inside_dimensions info 576 1024) as [w h]. cbn [fst snd] in *.
    exists w, h. split; [reflexivity | lia]. }
  destruct B1 as (w1 & h1 & D1 & B1), B2 as (w2 & h2 & D2 & B2),
    B3 as (w3 & h3 & D3 & B3).
  exists w1, h1, w2, h2, w3, h3.
  split; [| lia].
  cbn. now rewrite D1, D2, D3.
Qed.

End Variants.

(** ** lib/imageProcessor.js: validation looks at the leading bytes only *)

Section Validation.

Import Sharp ImageProcessor.

Lemma detectFormat_leading (data : list Z) :
  detectFormat data signatures = detectFormat (firstn 4 data) signatures.
Proof.
  destruct data as [| d0 [| d1 [| d2 [| d3 rest]]]]; reflexivity.
Qed.

(** X5: the verdict on a buffer is decided by its first four bytes: two
    buffers that agree there are both refused with the same error or both
    accepted with the same format, whatever follows; an accepted buffer is
    not empty, and its size is reported as it is. *)
Theorem validateImageBuffer_leading_bytes (a b : Buffer) :
  firstn 4 (bytes a) = firstn 4 (bytes b) ->
  match validateImageBuffer a, validateImageBuffer b with
  | Invalid error, Invalid error' => error = error'
  | Valid format size, Valid format' size' =>
      format = format' /\
      In format ["jpeg"; "png"; "webp"; "gif"] /\
      size = Z.of_nat (length (bytes a)) /\ size' = Z.of_nat (length (bytes b)) /\
      0 < size /\ 0 < size'
  | _, _ => False
  end.
Proof.
  intros Hsame. unfold validateImageBuffer.
  rewrite (detectFormat_leading (bytes a)), (detectFormat_leading (bytes b)).
  rewrite <- Hsame.
  assert (Ha : (length (bytes a) =? 0)%nat = (length (bytes b) =? 0)%nat).
  { destruct (bytes a) as [| x xs], (bytes b) as [| y ys];
      try reflexivity; discriminate Hsame. }
  rewrite <- Ha.
  destruct (length (bytes a) =? 0)%nat eqn:Ea; [reflexivity |].
  assert (Hb : (length (bytes b) =? 0)%nat = false) by congruence.
  apply Nat.eqb_neq in Ea, Hb.
  destruct (String.eqb _ "unknown") eqn:Eu; [reflexivity |].
  split_and!; try reflexivity; try lia.
  clear - Eu. unfold detectFormat, signatures in *.
  repeat match goal with
         | |- context [if ?c then _ else _] => destruct c
         | H : context [if ?c then _ else _] |- _ => destruct c
         end; cbn; auto 6.
  discriminate Eu.
Qed.

End Validation.

(** ** lib/auth.js: headers, payload, and the optional prefix *)

Section Requests.

Import Auth.

Context `{Crypto} `{Json}.

(** X6: header validation succeeds exactly when the content type mentions
    [application/json] and the signature header is present and not empty;
    each failed check contributes its own message, and success means no
    message. *)
Theorem validateWebhookHeaders_checks (headers : gmap string string) :
  let validation := validateWebhookHeaders headers in
  let typed := exists value, headers !! "content-type" = Some value /\
                             Js.includes "application/json" value = true in
  let signed := exists value, headers !! "x-webhook-signature" = Some value /\
                              value <> "" in
  (hv_success validation = true <-> typed /\ signed) /\
  (hv_success validation = true <-> hv_errors validation = []) /\
  (In "Missing or invalid Content-Type header" (hv_errors validation)
   <-> ~ typed) /\
  (In "Missing X-Webhook-Signature header" (hv_errors validation)
   <-> ~ signed).
Proof.
  cbv zeta. unfold validateWebhookHeaders.
  destruct (headers !! "content-type") as [ct |];
    [destruct (Js.includes "application/json" ct) eqn:Ect |];
    (destruct (headers !! "x-webhook-signature") as [[| c sg] |]);
    cbn [negb Js.truthy app length Nat.eqb hv_success hv_errors In];
    split_and!; split;
    try (intros; exfalso; discriminate);
    try (intros [E | [E | []]]; discriminate E);
    try (intros [E | []]; discriminate E);
    try (intros []; fail);
    try tauto;
    try (intros _; split; eexists; split; eauto; discriminate);
    try (intros [_ (v & E & Hv)]; try discriminate E;
         injection E as <-; now destruct Hv);
    try (intros [(v & E & Hv) _]; try discriminate E;
         injection E as <-; congruence);
    try (intros _ (v & E & Hv); try discriminate E;
         injection E as <-; first [congruence | now destruct Hv]);
    try (intros Hn; exfalso; apply Hn; eexists; split; eauto; discriminate).
Qed.

(** X7: a body is accepted exactly when it is not empty and parses to an
    object whose [characterId] and [imageUrl] are truthy; the data handed
    on is the parsed value.  Everything else is reported as an error, never
    thrown, with one of five messages: an empty body, the message of the
    parser, the message of the property access when the body parses to
    [null], and the missing field, [characterId] first; a parsed value
    that is no object misses [characterId]. *)
Theorem parseWebhookPayload_accepts (body : string) :
  (forall data,
      parseWebhookPayload body = ParseOk data <->
      body <> "" /\ JSON_parse body = Normal data /\
      exists fields characterId imageUrl,
        data = JObj fields /\
        obj_get "characterId" fields = Some characterId /\
        JsValue.truthy (Some characterId) = true /\
        obj_get "imageUrl" fields = Some imageUrl /\
        JsValue.truthy (Some imageUrl) = true) /\
  (body = "" -> parseWebhookPayload body = ParseError "Empty request body") /\
  (forall message,
      body <> "" -> JSON_parse body = Throw message ->
      parseWebhookPayload body = ParseError message) /\
  (body <> "" -> JSON_parse body = Normal JNull ->
   parseWebhookPayload body
   = ParseError "Cannot read properties of null (reading 'characterId')") /\
  (forall data,
      body <> "" -> JSON_parse body = Normal data -> data <> JNull ->
      (forall fields, data = JObj fields ->
                      JsValue.truthy (obj_get "characterId" fields) = false) ->
      parseWebhookPayload body = ParseError "Missing characterId in payload") /\
  (forall fields,
      body <> "" -> JSON_parse body = Normal (JObj fields) ->
      JsValue.truthy (obj_get "characterId" fields) = true ->
      JsValue.truthy (obj_get "imageUrl" fields) = false ->
      parseWebhookPayload body = ParseError "Missing imageUrl in payload") /\
  (forall message,
      parseWebhookPayload body = ParseError message ->
      (body = "" /\ message = "Empty request body")
      \/ (body <> "" /\ JSON_parse body = Throw message)
      \/ (JSON_parse body = Normal JNull /\
          message = "Cannot read properties of null (reading 'characterId')")
      \/ message = "Missing characterId in payload"
      \/ message = "Missing imageUrl in payload").
Proof.
  unfold parseWebhookPayload, mbind, completion_bind, Js.bind.
  split_and!.
  - intros data. destruct body as [| c rest]; cbn [Js.truthy negb].
    { split; [discriminate | intros [Hne _]; now destruct Hne]. }
    destruct (JSON_parse (String c rest)) as [payload | message].
    2:{ split; [discriminate | intros (_ & E & _); discriminate E]. }
    destruct payload as [| b | q | s | items | fields];
      cbn [JsValue.get_property JsValue.truthy negb];
      try (split; [discriminate
                  | intros (_ & E & fields & ? & ? & -> & _); discriminate E]).
    destruct (obj_get "characterId" fields) as [cid |] eqn:Ecid.
    2:{ cbn [JsValue.truthy negb]. split; [discriminate |].
        intros (_ & E & fields' & ? & ? & -> & E' & _).
        injection E as <-. congruence. }
    destruct (JsValue.truthy (Some cid)) eqn:Hcid; cbn [negb].
    2:{ split; [discriminate |].
        intros (_ & E & fields' & x & ? & -> & E' & Ht & _).
        injection E as <-. exfalso. assert (x = cid) by congruence. subst x.
        change (JsValue.truthy (Some cid) = true) in Ht. congruence. }
    destruct (obj_get "imageUrl" fields) as [url |] eqn:Eurl.
    2:{ cbn [JsValue.truthy negb]. split; [discriminate |].
        intros (_ & E & fields' & ? & ? & -> & _ & _ & E' & _).
        injection E as <-. congruence. }
    destruct (JsValue.truthy (Some url)) eqn:Hurl; cbn [negb].
    2:{ split; [discriminate |].
        intros (_ & E & fields' & ? & y & -> & _ & _ & E' & Ht).
        injection E as <-. exfalso. assert (y = url) by congruence. subst y.
        change (JsValue.truthy (Some url) = true) in Ht. congruence. }
    split.
    + intros E. injection E as <-. split; [discriminate |].
      split; [reflexivity |]. exists fields, cid, url. auto.
    + intros (_ & E & _). now injection E as <-.
  - intros ->. reflexivity.
  - intros message Hne ->. destruct body; [now destruct Hne | reflexivity].
  - intros Hne ->. destruct body; [now destruct Hne | reflexivity].
  - intros data Hne -> Hnull Hcid. destruct body; [now destruct Hne |].
    cbn [Js.truthy negb].
    destruct data as [| b | q | s | items | fields];
      try reflexivity; [now destruct Hnull |].
    cbn [JsValue.get_property]. now rewrite (Hcid fields eq_refl).
  - intros fields Hne -> Hcid Hurl. destruct body; [now destruct Hne |].
    cbn [Js.truthy negb JsValue.get_property]. now rewrite Hcid, Hurl.
  - intros message. destruct body as [| c rest]; cbn [Js.truthy negb].
    { intros [= <-]. now left. }
    destruct (JSON_parse (String c rest)) as [payload | thrown].
    2:{ intros [= <-]. right. left. split; [discriminate | reflexivity]. }
    destruct payload as [| b | q | s | items | fields];
      cbn [JsValue.get_property JsValue.truthy negb];
      try (intros [= <-]; auto 6; fail).
    destruct (JsValue.truthy (obj_get "characterId" fields));
      cbn [negb]; [| intros [= <-]; auto 6].
    destruct (JsValue.truthy (obj_get "imageUrl" fields));
      cbn [negb]; [discriminate | intros [= <-]; auto 6].
Qed.

(** X8: the prefix [sha256=] is optional: a signature presented without it
    gets the verdict it gets with it. *)
Theorem verifyWebhookSignature_prefix_optional (payload signature secret : string) :
  signature <> "" ->
  String.prefix "sha256=" signature = false ->
  verifyWebhookSignature (Some payload) (Some ("sha256=" ++ signature))
    (Some secret)
  = verifyWebhookSignature (Some payload) (Some signature) (Some secret).
Proof.
  intros Hne Hprefix. rewrite !verifyWebhookSignature_decoded.
  rewrite strip_generated_prefix.
  unfold Js.strip_prefix at 1. rewrite Hprefix.
  apply String.eqb_neq in Hne. rewrite Hne. reflexivity.
Qed.

Lemma hex_digit_lower (n : N) :
  (n < 16)%N -> In (hex_digit n) (list_ascii_of_string "0123456789abcdef").
Proof.
  intros Hn.
  assert (Hcases : In n (map N.of_nat (seq 0 16))).
  { rewrite <- (N2Nat.id n). apply in_map, in_seq. lia. }
  cbn in Hcases.
  repeat (destruct Hcases as [<- | Hcases]; [cbn; tauto |]).
  destruct Hcases.
Qed.

Lemma hex_encode_digits (data : string) :
  String.length (hex_encode data) = (2 * String.length data)%nat /\
  Forall (fun c => In c (list_ascii_of_string "0123456789abcdef"))
         (list_ascii_of_string (hex_encode data)).
Proof.
  induction data as [| c rest [IHlen IHall]]; [split; [reflexivity | constructor] |].
  cbn [hex_encode String.length list_ascii_of_string].
  pose proof (N_ascii_bounded c) as Hc.
  split; [rewrite IHlen; lia |].
  apply Forall_cons_2; [| apply Forall_cons_2; [| exact IHall]].
  - apply hex_digit_lower. apply N.Div0.div_lt_upper_bound. lia.
  - apply hex_digit_lower. apply N.mod_lt. lia.
Qed.

Context `{!CryptoLaws}.

(** X9: a generated signature is the prefix [sha256=] followed by 64
    lower-case hex digits. *)
Theorem generateWebhookSignature_format (payload secret : string) :
  exists digits,
    generateWebhookSignature payload secret = "sha256=" ++ digits /\
    String.length digits = 64%nat /\
    Forall (fun c => In c (list_ascii_of_string "0123456789abcdef"))
           (list_ascii_of_string digits).
Proof.
  exists (createHmac_sha256_hex secret payload). split; [reflexivity |].
  unfold createHmac_sha256_hex.
  destruct (hex_encode_digits (hmac_sha256 secret payload)) as [Hlen Hall].
  split; [| exact Hall]. now rewrite Hlen, hmac_sha256_length.
Qed.

End Requests.

(** ** lib/supabase.js: what the helpers do to the bucket *)

Section Bucket.

Import Sharp ImageProcessor Supabase Spec.

(** X10: an upload never replaces or removes a stored object.  When it returns,
    the name was free, the object is stored last under that name with the
    given bytes, and the result carries the name and its public URL; when
    it throws, the bucket is as it was and the message says why. *)
Theorem uploadImageToStorage_adds_one (imageBuffer : Buffer) (fileName : string)
  (w : World) :
  let run := uploadImageToStorage imageBuffer fileName w in
  characters (snd run) = characters w /\
  match fst run with
  | Normal result =>
      object_exists fileName (uploads w) = false /\
      uploads (snd run)
      = (uploads w ++ [{| path := fileName; created_at := now w;
                          content := imageBuffer |}])%list /\
      up_path result = fileName /\
      publicUrl result
      = default "" (env_SUPABASE_URL w)
          ++ "/storage/v1/object/public/uploads/" ++ fileName
  | Throw message =>
      uploads (snd run) = uploads w /\
      (message = "Missing Supabase environment variables" \/
       exists reason, message = "Storage upload failed: " ++ reason)
  end.
Proof.
  cbv zeta. unfold uploadImageToStorage, try_catchM, mbind, M_bind.
  rewrite getSupabaseClient_eq.
  destruct (client_ok w); [| cbn; auto].
  unfold storage_upload, call.
  destruct (fault w _ _) as [m |]; [cbn; eauto |].
  destruct (object_exists fileName (uploads w)) eqn:Eexists; [cbn; eauto |].
  cbn. auto.
Qed.

End Bucket.

(** ** lib/supabase.js: the table *)

Section Table.

Import Sharp ImageProcessor Supabase Spec Behaviour.

Lemma client_ok_run (w : World) :
  client_ok w = true -> getSupabaseClient w = (Normal tt, w).
Proof.
  unfold client_ok, getSupabaseClient. intros Hc.
  apply andb_true_iff in Hc as [-> ->]. reflexivity.
Qed.

(** X11: with the backend answering, a status write never throws and touches
    only the row of its character.  For a known character the row read
    back by [getCharacterById] has the written status and time, and the
    written error text when that is a non-empty string, the earlier error
    text otherwise; the other columns are untouched.  For an unknown
    character the write succeeds without creating a row, and the read that
    follows throws. *)
Theorem updateAspectRatioStatus_read_back (characterId : string)
  (status : Status) (errorMessage : option string) (w : World) :
  client_ok w = true ->
  healthy w ->
  exists returned w1,
    updateAspectRatioStatus characterId status errorMessage w
    = (Normal returned, w1) /\
    uploads w1 = uploads w /\
    (forall other, other <> characterId ->
                   characters w1 !! other = characters w !! other) /\
    match characters w !! characterId with
    | Some row =>
        exists row',
          returned = Some row' /\
          fst (getCharacterById characterId w1) = Normal row' /\
          aspect_ratio_status row' = Some status /\
          updated_at row' = now w /\
          aspect_ratio_error row'
          = (if Js.truthy errorMessage then errorMessage
             else aspect_ratio_error row) /\
          urls row' = urls row /\
          original_aspect_ratio row' = original_aspect_ratio row
    | None =>
        returned = None /\ characters w1 = characters w /\
        fst (getCharacterById characterId w1)
        = Throw ("Failed to get character: "
                   ++ "JSON object requested, multiple (or no) rows returned")
    end.
Proof.
  intros Hc Hhealthy.
  unfold updateAspectRatioStatus, try_catchM.
  unfold mbind at 1, M_bind. rewrite (client_ok_run w Hc).
  cbv [mbind M_bind read from_characters_update call mret M_ret].
  rewrite Hhealthy.
  set (patch := StatusPatch status _ (now w)).
  set (w1 := set_characters _ _).
  assert (Hc1 : client_ok w1 = true) by exact Hc.
  assert (Hh1 : forall n r, fault w1 n r = None) by exact Hhealthy.
  assert (Hread : getCharacterById characterId w1
                  = match characters w1 !! characterId with
                    | Some row =>
                        (Normal row,
                         record (DbSelectSingle characterId) None w1)
                    | None =>
                        (Throw ("Failed to get character: " ++
                                "JSON object requested, multiple (or no) rows returned"),
                         record (DbSelectSingle characterId)
                           (Some "JSON object requested, multiple (or no) rows returned")
                           w1)
                    end).
  { unfold getCharacterById, try_catchM.
    unfold mbind at 1, M_bind. rewrite (client_ok_run w1 Hc1).
    cbv [mbind M_bind from_characters_select_single call mret M_ret throw].
    rewrite Hh1. destruct (characters w1 !! characterId); reflexivity. }
  assert (Hrows : characters w1
                  = alter (apply_patch patch) characterId (characters w))
    by reflexivity.
  destruct (characters w !! characterId) as [row |] eqn:Hrow.
  - exists (Some (apply_patch patch row)), w1.
    split; [reflexivity |]. split; [reflexivity |].
    split.
    { intros other Hother. rewrite Hrows. now apply lookup_alter_ne. }
    exists (apply_patch patch row).
    split; [reflexivity |].
    split.
    { rewrite Hread, Hrows, lookup_alter_eq, Hrow. reflexivity. }
    subst patch. cbn.
    split_and!; try reflexivity.
    destruct errorMessage as [[| c text] |]; reflexivity.
  - exists None, w1.
    split; [reflexivity |]. split; [reflexivity |].
    assert (Hsame : characters w1 = characters w).
    { rewrite Hrows. apply map_eq. intros i.
      destruct (decide (i = characterId)) as [-> | Hne].
      - rewrite lookup_alter_eq, Hrow. reflexivity.
      - now apply lookup_alter_ne. }
    split.
    { intros other _. now rewrite Hsame. }
    split; [reflexivity |]. split; [exact Hsame |].
    rewrite Hread, Hsame, Hrow. reflexivity.
Qed.

End Table.

Section Cleanup.

Import Sharp ImageProcessor Supabase Spec Behaviour.

Lemma prefix_drop (p s : string) :
  String.prefix p s = true -> p ++ Js.drop (String.length p) s = s.
Proof.
  revert s. induction p as [| c p IH]; intros s Hp; [reflexivity |].
  destruct s as [| d s]; [discriminate Hp |].
  cbn [String.prefix] in Hp. destruct (ascii_dec c d) as [-> |]; [| discriminate].
  cbn [String.length Js.drop].
  change (String d p ++ Js.drop (String.length p) s)
    with (String d (p ++ Js.drop (String.length p) s)).
  now rewrite IH.
Qed.

Lemma append_assoc (a b c : string) : (a ++ b) ++ c = a ++ b ++ c.
Proof.
  induction a as [| x a IH]; [reflexivity |].
  change (String x ((a ++ b) ++ c) = String x (a ++ b ++ c)). now rewrite IH.
Qed.

(** An entry of a listing names an object of the folder. *)
Lemma entry_in_path (folder : string) (o : StoredObject) (f : FileObject) :
  entry_in folder o = Some f ->
  path o = folder ++ "/" ++ name f /\ file_created_at f = created_at o.
Proof.
  unfold entry_in.
  destruct (String.prefix (folder ++ "/") (path o)) eqn:Hp; [| discriminate].
  destruct (Js.includes "/" _); [discriminate |].
  intros E. injection E as <-. cbn [name file_created_at].
  split; [| reflexivity].
  now rewrite <- append_assoc, (prefix_drop _ _ Hp).
Qed.

Lemma entry_in_of_path (folder : string) (o o' : StoredObject) :
  path o = path o' -> is_Some (entry_in folder o) -> is_Some (entry_in folder o').
Proof.
  unfold entry_in. intros ->.
  destruct (String.prefix _ _); [| intros [? E]; discriminate E].
  destruct (Js.includes _ _); [intros [? E]; discriminate E | eauto].
Qed.

Lemma insert_newest_first_perm (f : FileObject) (sorted : list FileObject) :
  insert_newest_first f sorted ≡ₚ f :: sorted.
Proof.
  induction sorted as [| g rest IH]; [reflexivity |].
  cbn [insert_newest_first].
  destruct (file_created_at g <? file_created_at f); [reflexivity |].
  rewrite IH. apply perm_swap.
Qed.

Lemma sort_newest_first_perm (files : list FileObject) :
  sort_newest_first files ≡ₚ files.
Proof.
  unfold sort_newest_first.
  assert (G : forall acc, fold_left (fun sorted f => insert_newest_first f sorted)
                            files acc ≡ₚ files ++ acc).
  { induction files as [| f rest IH]; intros acc; [reflexivity |].
    cbn [fold_left]. rewrite IH, insert_newest_first_perm.
    symmetry. apply Permutation_middle. }
  rewrite G. now rewrite app_nil_r.
Qed.

Lemma insert_newest_first_descending (f : FileObject) (sorted : list FileObject) :
  descending sorted -> descending (insert_newest_first f sorted).
Proof.
  induction sorted as [| g rest IH]; intros Hs.
  { cbn. split; [constructor | exact I]. }
  cbn [insert_newest_first]. destruct Hs as [Hg Hrest].
  destruct (file_created_at g <? file_created_at f) eqn:E.
  - apply Z.ltb_lt in E. cbn [descending]. split_and!; auto.
    constructor; [lia |].
    eapply Forall_impl; [exact Hg |]. cbn. intros x Hx. lia.
  - apply Z.ltb_ge in E. cbn [descending]. split; [| now apply IH].
    rewrite insert_newest_first_perm. constructor; [exact E | exact Hg].
Qed.

Lemma sort_newest_first_descending (files : list FileObject) :
  descending (sort_newest_first files).
Proof.
  unfold sort_newest_first.
  assert (G : forall acc, descending acc ->
                descending (fold_left (fun sorted f => insert_newest_first f sorted)
                              files acc)).
  { induction files as [| f rest IH]; intros acc Hacc; [exact Hacc |].
    cbn [fold_left]. apply IH. now apply insert_newest_first_descending. }
  apply G. exact I.
Qed.

Lemma descending_app (newer older : list FileObject) :
  descending (newer ++ older) ->
  forall f g, In f newer -> In g older -> file_created_at g <= file_created_at f.
Proof.
  induction newer as [| x newer IH]; intros Hs f g Hf Hg; [destruct Hf |].
  cbn [app descending] in Hs. destruct Hs as [Hx Hrest].
  destruct Hf as [<- | Hf]; [| now apply IH].
  rewrite Forall_forall in Hx. apply Hx.
  apply list_elem_of_In. apply in_or_app. now right.
Qed.

Lemma insert_by_name_perm (f : FileObject) (sorted : list FileObject) :
  insert_by_name f sorted ≡ₚ f :: sorted.
Proof.
  induction sorted as [| g rest IH]; [reflexivity |].
  cbn [insert_by_name].
  destruct (String.leb (name f) (name g)); [reflexivity |].
  rewrite IH. apply perm_swap.
Qed.

Lemma sort_by_name_perm (files : list FileObject) :
  sort_by_name files ≡ₚ files.
Proof.
  induction files as [| f rest IH]; [reflexivity |].
  cbn [sort_by_name fold_right]. fold (sort_by_name rest).
  now rewrite insert_by_name_perm, IH.
Qed.

(** The page holds listed files only, and all of them when they are at
    most 100. *)
Lemma first_page_listed (files : list FileObject) (f : FileObject) :
  In f (first_page files) -> In f files.
Proof.
  unfold first_page. intros Hin.
  apply list_elem_of_In. rewrite <- (sort_by_name_perm files).
  apply list_elem_of_In.
  rewrite <- (firstn_skipn 100 (sort_by_name files)).
  apply in_or_app. now left.
Qed.

Lemma first_page_length (files : list FileObject) :
  length (first_page files) = Nat.min 100 (length files).
Proof.
  unfold first_page.
  now rewrite length_firstn, (Permutation_length (sort_by_name_perm files)).
Qed.

Lemma first_page_all (files : list FileObject) :
  (length files <= 100)%nat -> first_page files ≡ₚ files.
Proof.
  intros Hle. unfold first_page. rewrite firstn_all2.
  - apply sort_by_name_perm.
  - now rewrite (Permutation_length (sort_by_name_perm files)).
Qed.

(** What a run of the cleanup leaves in the bucket: either everything, or
    everything but the files of the page beyond the third newest. *)
Lemma cleanup_bucket (cid : string) (w : World) :
  let run := cleanupOldAspectRatioFiles cid w in
  let files := first_page (listing (variantsFolder cid) (uploads w)) in
  let paths := map (fun file => variantsFolder cid ++ "/" ++ name file)
                   (skipn 3 (sort_newest_first files)) in
  let kept := filter (fun o => negb (existsb (String.eqb (path o)) paths))
                     (uploads w) in
  fst run = Normal tt /\
  characters (snd run) = characters w /\
  (uploads (snd run) = uploads w \/ uploads (snd run) = kept) /\
  ((length files <= 3)%nat -> uploads (snd run) = uploads w) /\
  (client_ok w = true ->
   (forall n r, is_cleanup r = true -> fault w n r = None) ->
   (3 < length files)%nat -> uploads (snd run) = kept).
Proof.
  cbv zeta.
  unfold cleanupOldAspectRatioFiles, try_catchM, mbind, M_bind.
  rewrite getSupabaseClient_eq.
  destruct (client_ok w) eqn:Hc.
  2:{ cbn. split_and!; auto. intros E. discriminate E. }
  unfold storage_list, storage_remove, call, listing, variantsFolder.
  cbn -[Nat.eqb Nat.ltb skipn sort_newest_first first_page omap filter].
  set (folder := "characters/" ++ cid ++ "/aspect-ratios").
  set (files := first_page (omap (entry_in folder) (uploads w))).
  destruct (fault w (length (log w)) (StorageList folder)) as [m |] eqn:Hlist;
    cbn -[Nat.eqb Nat.ltb skipn sort_newest_first first_page omap filter].
  { split_and!; auto. intros _ Hok _. rewrite Hok in Hlist by reflexivity.
    discriminate Hlist. }
  destruct (length files =? 0)%nat eqn:Hempty;
    cbn -[Nat.eqb Nat.ltb skipn sort_newest_first first_page omap filter].
  { apply Nat.eqb_eq in Hempty. split_and!; auto. lia. }
  rewrite length_map, length_skipn.
  rewrite (Permutation_length (sort_newest_first_perm files)).
  destruct (0 <? length files - 3)%nat eqn:Hmore;
    cbn -[Nat.eqb Nat.ltb skipn sort_newest_first first_page omap filter].
  2:{ apply Nat.ltb_ge in Hmore. split_and!; auto. lia. }
  apply Nat.ltb_lt in Hmore.
  match goal with |- context [fault w ?n ?r] =>
    destruct (fault w n r) as [m |] eqn:Hremove end;
    cbn -[Nat.eqb Nat.ltb skipn sort_newest_first first_page omap filter].
  - split_and!; auto.
    intros _ Hok _. rewrite Hok in Hremove by reflexivity. discriminate Hremove.
  - split_and!; auto. lia.
Qed.

Lemma in_skipn {A : Type} (n : nat) (l : list A) (x : A) :
  In x (skipn n l) -> In x l.
Proof.
  intros Hin. rewrite <- (firstn_skipn n l). apply in_or_app. now right.
Qed.

(** A path that the cleanup asks to remove is the path of a listed file. *)
Lemma removed_path_listed (folder : string) (objects : list StoredObject)
  (p : string) :
  In p (map (fun file => folder ++ "/" ++ name file)
            (skipn 3 (sort_newest_first
                        (first_page (listing folder objects))))) ->
  exists o f, In o objects /\ entry_in folder o = Some f /\ path o = p /\
              In f (skipn 3 (sort_newest_first
                               (first_page (listing folder objects)))).
Proof.
  intros Hin. apply in_map_iff in Hin as (f & <- & Hf).
  assert (Hlisted : f ∈ listing folder objects).
  { apply list_elem_of_In, first_page_listed, list_elem_of_In.
    rewrite <- (sort_newest_first_perm (first_page (listing folder objects))).
    apply list_elem_of_In. apply (in_skipn 3). exact Hf. }
  apply list_elem_of_omap in Hlisted as (o & Ho & Hentry).
  exists o, f. split_and!; auto.
  - now apply list_elem_of_In.
  - now apply entry_in_path in Hentry as [-> _].
Qed.

Lemma kept_iff (p : string) (paths : list string) :
  Is_true (negb (existsb (String.eqb p) paths)) <-> ~ In p paths.
Proof.
  rewrite negb_True, Is_true_true, existsb_exists. split.
  - intros Hn Hin. apply Hn. exists p. split; [exact Hin | apply String.eqb_refl].
  - intros Hn (q & Hin & E). apply String.eqb_eq in E. now subst q.
Qed.

(** X12: the cleanup never throws, leaves the table alone, adds nothing to the
    bucket, and removes nothing outside the listing of the folder of the
    character; with at most three files listed it removes nothing. *)
Theorem cleanupOldAspectRatioFiles_contained (characterId : string) (w : World) :
  let run := cleanupOldAspectRatioFiles characterId w in
  let folder := variantsFolder characterId in
  fst run = Normal tt /\
  characters (snd run) = characters w /\
  (forall o, In o (uploads (snd run)) -> In o (uploads w)) /\
  (forall o, In o (uploads w) -> entry_in folder o = None ->
             In o (uploads (snd run))) /\
  ((length (listing folder (uploads w)) <= 3)%nat ->
   uploads (snd run) = uploads w).
Proof.
  cbv zeta.
  destruct (cleanup_bucket characterId w)
    as (Hnormal & Htable & [Hsame | Hkept] & Hfew & _).
  { rewrite Hsame. split_and!; auto. }
  assert (Hpage : (length (listing (variantsFolder characterId) (uploads w)) <= 3)%nat ->
                  uploads (snd (cleanupOldAspectRatioFiles characterId w))
                  = uploads w).
  { intros Hle. apply Hfew. rewrite first_page_length. lia. }
  - split_and!; auto.
    + rewrite Hkept. intros o Ho.
      apply list_elem_of_In, list_elem_of_filter in Ho as [_ Ho].
      now apply list_elem_of_In.
    + rewrite Hkept. intros o Ho Houtside.
      apply list_elem_of_In, list_elem_of_filter.
      split; [| now apply list_elem_of_In].
      apply kept_iff. intros Hin.
      apply removed_path_listed in Hin as (o' & f & _ & Hentry & Hpath & _).
      destruct (entry_in_of_path (variantsFolder characterId) o' o Hpath)
        as [g Hg]; [eauto | congruence].
Qed.

Lemma slash_cancel (folder a b : string) :
  folder ++ "/" ++ a = folder ++ "/" ++ b -> a = b.
Proof.
  intros E. apply append_cancel_l in E. now injection E.
Qed.

(** Distinct paths give distinct names in a listing. *)
Lemma listing_names_NoDup (folder : string) (objects : list StoredObject) :
  NoDup (map path objects) -> NoDup (map name (listing folder objects)).
Proof.
  unfold listing. induction objects as [| o rest IH]; intros Hnd.
  { constructor. }
  cbn [map] in Hnd. apply NoDup_cons in Hnd as [Hfresh Hrest].
  cbn [omap list_omap].
  destruct (entry_in folder o) as [f |] eqn:Hentry; [| now apply IH].
  cbn [map]. apply NoDup_cons. split; [| now apply IH].
  intros Hin. apply Hfresh.
  apply list_elem_of_In, in_map_iff in Hin as (f' & Hname & Hf').
  apply list_elem_of_In, list_elem_of_omap in Hf' as (o' & Ho' & Hentry').
  apply entry_in_path in Hentry as [Hp _].
  apply entry_in_path in Hentry' as [Hp' _].
  apply list_elem_of_In, in_map_iff. exists o'.
  split; [| now apply list_elem_of_In]. congruence.
Qed.

Lemma same_name_same_file (files : list FileObject) (f g : FileObject) :
  NoDup (map name files) -> In f files -> In g files -> name f = name g -> f = g.
Proof.
  induction files as [| x rest IH]; intros Hnd Hf Hg Hname; [destruct Hf |].
  cbn [map] in Hnd. apply NoDup_cons in Hnd as [Hfresh Hrest].
  destruct Hf as [<- | Hf], Hg as [<- | Hg]; auto.
  - exfalso. apply Hfresh. apply list_elem_of_In, in_map_iff. eauto.
  - exfalso. apply Hfresh. apply list_elem_of_In, in_map_iff. eauto.
Qed.

Lemma same_path_same_object (objects : list StoredObject) (a b : StoredObject) :
  NoDup (map path objects) -> In a objects -> In b objects ->
  path a = path b -> a = b.
Proof.
  induction objects as [| x rest IH]; intros Hnd Ha Hb Hpath; [destruct Ha |].
  cbn [map] in Hnd. apply NoDup_cons in Hnd as [Hfresh Hrest].
  destruct Ha as [<- | Ha], Hb as [<- | Hb]; auto.
  - exfalso. apply Hfresh. apply list_elem_of_In, in_map_iff. eauto.
  - exfalso. apply Hfresh. apply list_elem_of_In, in_map_iff. eauto.
Qed.

(** The listing after a removal by name. *)
Lemma listing_kept (folder : string) (objects : list StoredObject)
  (gone : list FileObject) :
  listing folder
    (filter (fun o => negb (existsb (String.eqb (path o))
                              (map (fun file => folder ++ "/" ++ name file) gone)))
            objects)
  = filter (fun f => name f ∉ map name gone) (listing folder objects).
Proof.
  unfold listing. induction objects as [| o rest IH]; [reflexivity |].
  rewrite filter_cons. cbn [omap list_omap].
  destruct (decide _) as [Hkeep | Hdrop].
  - cbn [omap list_omap]. rewrite IH.
    destruct (entry_in folder o) as [f |] eqn:Hentry; [| reflexivity].
    rewrite filter_cons_True; [reflexivity |].
    apply kept_iff in Hkeep. intros Hin. apply Hkeep.
    apply list_elem_of_In, in_map_iff in Hin as (g & Hname & Hg).
    apply entry_in_path in Hentry as [-> _].
    apply in_map_iff. exists g. split; [now rewrite Hname | exact Hg].
  - rewrite IH.
    destruct (entry_in folder o) as [f |] eqn:Hentry; [| reflexivity].
    rewrite filter_cons_False; [reflexivity |].
    intros Hout. apply Hdrop, kept_iff. intros Hin. apply Hout.
    apply in_map_iff in Hin as (g & Hpath & Hg).
    apply entry_in_path in Hentry as [Hp _]. rewrite Hp in Hpath.
    apply slash_cancel in Hpath. apply list_elem_of_In, in_map_iff. eauto.
Qed.

Lemma filter_all {A : Type} (P : A -> Prop) `{forall x, Decision (P x)}
  (l : list A) :
  (forall x, In x l -> P x) -> filter P l = l.
Proof.
  induction l as [| x l IH]; intros Hall; [reflexivity |].
  rewrite filter_cons_True by (apply Hall; now left).
  f_equal. apply IH. intros y Hy. apply Hall. now right.
Qed.

Lemma filter_none {A : Type} (P : A -> Prop) `{forall x, Decision (P x)}
  (l : list A) :
  (forall x, In x l -> ~ P x) -> filter P l = [].
Proof.
  induction l as [| x l IH]; intros Hnone; [reflexivity |].
  rewrite filter_cons_False by (apply Hnone; now left).
  apply IH. intros y Hy. apply Hnone. now right.
Qed.

(** Removing by name the files beyond the third of a list without
    duplicate names leaves the first three. *)
Lemma filter_newest (files : list FileObject) :
  NoDup (map name files) ->
  filter (fun f => name f ∉ map name (skipn 3 files)) files
  = firstn 3 files.
Proof.
  intros Hnd.
  pose proof (firstn_skipn 3 files) as Hsplit.
  set (newer := firstn 3 files) in *. set (older := skipn 3 files) in *.
  rewrite <- Hsplit, map_app in Hnd.
  apply NoDup_app in Hnd as (_ & Hdisjoint & _).
  transitivity (filter (fun f => name f ∉ map name older) (newer ++ older)%list).
  { now rewrite Hsplit. }
  rewrite filter_app, filter_all, filter_none; [apply app_nil_r | |].
  - intros g Hg Hout. apply Hout. apply list_elem_of_In. now apply in_map.
  - intros f Hf Hin. apply (Hdisjoint (name f)).
    + apply list_elem_of_In. now apply in_map.
    + exact Hin.
Qed.

(** X13: with a storage that answers the requests of the cleanup, a bucket
    without two objects of one path and at most 100 files in the folder
    (one page of the listing), the cleanup leaves the three newest files
    of the folder: as many as there were, up to three, and no removed
    object is newer than one that stays in the folder. *)
Theorem cleanupOldAspectRatioFiles_keeps_newest (characterId : string)
  (w : World) :
  client_ok w = true ->
  (forall n r, is_cleanup r = true -> fault w n r = None) ->
  NoDup (map path (uploads w)) ->
  (length (listing (variantsFolder characterId) (uploads w)) <= 100)%nat ->
  let run := cleanupOldAspectRatioFiles characterId w in
  let folder := variantsFolder characterId in
  length (listing folder (uploads (snd run)))
  = Nat.min 3 (length (listing folder (uploads w))) /\
  forall kept removed,
    In kept (uploads (snd run)) -> is_Some (entry_in folder kept) ->
    In removed (uploads w) -> ~ In removed (uploads (snd run)) ->
    created_at removed <= created_at kept.
Proof.
  intros Hc Hok Hnd Hpage. cbv zeta.
  destruct (cleanup_bucket characterId w) as (_ & _ & _ & Hfew & Hmany).
  set (folder := variantsFolder characterId) in *.
  set (files := listing folder (uploads w)) in *.
  assert (Hall : first_page files ≡ₚ files) by now apply first_page_all.
  rewrite (Permutation_length Hall) in Hfew, Hmany.
  destruct (Nat.le_gt_cases (length files) 3) as [Hle | Hgt].
  { rewrite (Hfew Hle). fold files. split; [lia |].
    intros kept removed _ _ Hin Hout. contradiction. }
  rewrite (Hmany Hc Hok Hgt). clear Hfew Hmany.
  set (sorted := sort_newest_first (first_page files)).
  assert (Hperm : sorted ≡ₚ files).
  { unfold sorted. now rewrite sort_newest_first_perm. }
  assert (Hnames : NoDup (map name sorted)).
  { rewrite (Permutation_map name Hperm). now apply listing_names_NoDup. }
  assert (Hlisting :
            listing folder
              (filter (fun o => negb (existsb (String.eqb (path o))
                         (map (fun file => folder ++ "/" ++ name file)
                              (skipn 3 sorted)))) (uploads w))
            ≡ₚ firstn 3 sorted).
  { rewrite listing_kept. fold files. rewrite <- Hperm.
    now rewrite filter_newest. }
  split.
  - rewrite (Permutation_length Hlisting), length_firstn.
    now rewrite (Permutation_length Hperm).
  - intros kept removed Hkept [f Hf] Hremoved Hgone.
    assert (Hnewer : In f (firstn 3 sorted)).
    { apply list_elem_of_In. rewrite <- Hlisting.
      apply list_elem_of_omap. exists kept. split; [| exact Hf].
      now apply list_elem_of_In. }
    assert (Hdropped : In (path removed)
                         (map (fun file => folder ++ "/" ++ name file)
                              (skipn 3 sorted))).
    { destruct (in_dec string_dec (path removed)
                  (map (fun file => folder ++ "/" ++ name file)
                       (skipn 3 sorted))) as [Hin | Hout]; [exact Hin |].
      exfalso. apply Hgone. apply list_elem_of_In, list_elem_of_filter.
      split; [now apply kept_iff | now apply list_elem_of_In]. }
    apply removed_path_listed in Hdropped
      as (o & g & Ho & Hg & Hpath & Holder).
    assert (o = removed) by (eapply same_path_same_object; eauto). subst o.
    apply entry_in_path in Hf as [_ <-]. apply entry_in_path in Hg as [_ <-].
    apply (descending_app (firstn 3 sorted) (skipn 3 sorted)); auto.
    rewrite firstn_skipn. apply sort_newest_first_descending.
Qed.

End Cleanup.

(** ** api/process.js: the responses of the handler *)

Section Responses.

Import Sharp ImageProcessor Auth Supabase Process Spec Behaviour.

Context `{Crypto} `{Json}.

Lemma statusCodeFor_range (message : string) :
  In (statusCodeFor message) [400; 404; 408; 413; 500].
Proof.
  unfold statusCodeFor.
  repeat match goal with |- context [if ?c then _ else _] => destruct c end;
    cbn; auto 10.
Qed.

(** The responses of the first part of the handler. *)
Lemma receive_response (req : HttpRequest) (w w' : World) (r : HttpResponse) :
  receive req w = (Normal (inl r), w') ->
  exists status message,
    r = respond status (ErrorBody (createErrorResponse message None (now w))) /\
    In status [400; 401; 500].
Proof.
  unfold receive, respondError, mbind, M_bind, read, lift, mret, M_ret.
  destruct (negb (hv_success _)).
  { intros E. injection E as <- <-. eexists _, _. split; [reflexivity |].
    cbn. auto. }
  destruct (rawBodyOf (body req)) as [rawBody |].
  2:{ intros E. injection E as <- <-. eexists _, _. split; [reflexivity |].
      cbn. auto. }
  destruct (negb (Js.truthy (env_WEBHOOK_SECRET w))).
  { intros E. injection E as <- <-. eexists _, _. split; [reflexivity |].
    cbn. auto. }
  destruct (verifyWebhookSignature _ _ _) as [verified | m]; [| discriminate].
  destruct (negb verified).
  { intros E. injection E as <- <-. eexists _, _. split; [reflexivity |].
    cbn. auto. }
  destruct (parseWebhookPayload rawBody) as [data | problem].
  2:{ intros E. injection E as <- <-. eexists _, _. split; [reflexivity |].
      cbn. auto. }
  destruct (JsValue.get_property "characterId" data); [| discriminate].
  destruct (JsValue.get_property "imageUrl" data); [| discriminate].
  destruct (JsValue.get_property "options" data); discriminate.
Qed.

(** What the first part of the handler has checked when it hands over a
    job. *)
Lemma receive_job (req : HttpRequest) (w w' : World) (job : Job) :
  receive req w = (Normal (inr job), w') ->
  hv_success (validateWebhookHeaders (headers req)) = true /\
  exists raw data,
    rawBodyOf (body req) = Some raw /\
    Js.truthy (env_WEBHOOK_SECRET w) = true /\
    verifyWebhookSignature (Some raw) (headers req !! "x-webhook-signature")
      (env_WEBHOOK_SECRET w) = Normal true /\
    parseWebhookPayload raw = ParseOk data /\
    JsValue.get_property "characterId" data = Normal (Some (characterId job)).
Proof.
  unfold receive, respondError, mbind, M_bind, read, lift, mret, M_ret.
  destruct (hv_success _); cbn [negb]; [| discriminate].
  destruct (rawBodyOf (body req)) as [rawBody |]; [| discriminate].
  destruct (Js.truthy (env_WEBHOOK_SECRET w)) eqn:Hsecret; cbn [negb];
    [| discriminate].
  destruct (verifyWebhookSignature _ _ _) as [[|] | m] eqn:Hverified;
    cbn [negb]; try discriminate.
  destruct (parseWebhookPayload rawBody) as [data | problem] eqn:Eparse;
    [| discriminate].
  destruct (parsed_payload _ _ Eparse) as (fields & cid & -> & Hcid & _).
  cbn [JsValue.get_property]. rewrite Hcid.
  intros E. injection E as <- <-. cbn [characterId default].
  split; [reflexivity |]. eexists _, _. split_and!; eauto.
  cbn [JsValue.get_property]. now rewrite Hcid.
Qed.

Ltac step H :=
  let E := fresh "E" in
  apply bind_inv in H as [(? & ? & _ & H) | (? & _ & E)]; [| discriminate E].

(** The job body answers with the success, or with the 404 and 400 of its
    two early returns. *)
Lemma process_shape (job : Job) (w w' : World) (r : HttpResponse) :
  process job w = (Normal r, w') ->
  (exists status message at_,
      r = respond status (ErrorBody (createErrorResponse message None at_)) /\
      In status [400; 404]) \/
  (exists data at_,
      r = respond 200
            (SuccessBody "Aspect ratios processed successfully" data at_)).
Proof.
  intros Hrun. unfold process in Hrun.
  step Hrun. step Hrun.
  match type of Hrun with context [if negb ?b then _ else _] => destruct b end;
    cbn [negb] in Hrun.
  - step Hrun. step Hrun.
    destruct (validateImageBuffer _).
    + step Hrun. rewrite respondError_eq in Hrun. injection Hrun as <- _.
      left. eexists _, _, _. split; [reflexivity |]. cbn. auto.
    + do 9 step Hrun. unfold mret, M_ret in Hrun. injection Hrun as <- _.
      right. eauto.
  - step Hrun. rewrite respondError_eq in Hrun. injection Hrun as <- _.
    left. eexists _, _, _. split; [reflexivity |]. cbn. auto.
Qed.

(** The response of the [catch] block. *)
Lemma onError_response (cid : json) (message : string) (w : World) :
  JsValue.truthy (Some cid) = true ->
  fst (onError (Some cid) message w)
  = Normal (respond (statusCodeFor message)
              (ErrorBody (createErrorResponse ("Processing failed: " ++ message)
                            (Some (statusCodeFor message)) (now w)))).
Proof.
  intros Hcid. destruct (client_ok w) eqn:Hc.
  - destruct (onError_run cid message w Hcid Hc) as (answer & w' & -> & _).
    reflexivity.
  - now rewrite (onError_unconfigured cid message w Hcid Hc).
Qed.

(** The four kinds of response: the preflight answer, an error returned
    inside the [try] block, an error of the method check or of the [catch]
    block, and the success. *)
Lemma handler_response (req : HttpRequest) (w : World) :
  exists r,
    fst (handler req w) = Normal r /\
    ((String.eqb (method req) "OPTIONS" = true /\
      statusCode r = 200 /\ responseBody r = NoBody) \/
     (exists status message,
         r = respond status
               (ErrorBody (createErrorResponse message None (now w))) /\
         In status [400; 401; 404; 500]) \/
     (exists status message,
         r = respond status
               (ErrorBody (createErrorResponse message (Some status) (now w))) /\
         In status [400; 404; 405; 408; 413; 500]) \/
     (exists data at_,
         r = respond 200
               (SuccessBody "Aspect ratios processed successfully" data at_))).
Proof.
  destruct (String.eqb (method req) "OPTIONS") eqn:Hoptions.
  { unfold handler. rewrite Hoptions. eexists. split; [reflexivity |].
    left. auto. }
  destruct (String.eqb (method req) "POST") eqn:Hpost.
  2:{ unfold handler. rewrite Hoptions, Hpost. cbn [negb].
      rewrite respondError_eq. eexists. split; [reflexivity |].
      right. right. left. eexists _, _. split; [reflexivity |]. cbn. auto. }
  rewrite (handler_post req w Hpost).
  destruct (receive_run req w) as ([response | job] & Ereceive & Hx);
    rewrite Ereceive.
  { apply receive_response in Ereceive as (status & message & -> & Hstatus).
    eexists. split; [reflexivity |]. right. left. exists status, message.
    split; [reflexivity |]. cbn in *. tauto. }
  unfold try_catchM.
  destruct (process job w) as [[r | message] w1] eqn:Hprocess.
  - exists r. split; [reflexivity |].
    destruct (process_shape _ _ _ _ Hprocess)
      as [(status & message & at_ & -> & Hstatus) | (data & at_ & ->)].
    2:{ right. right. right. eauto. }
    right. left.
    destruct (client_ok w) eqn:Hc.
    2:{ rewrite (process_unconfigured job w Hc) in Hprocess. discriminate. }
    destruct (process_run job w _ _ Hc Hprocess)
      as (_ & _ & ex & _ & _ & _ & Hfailed & _).
    destruct (Hfailed _ eq_refl (not_completes_error _ _))
      as (msg & pre & E & _).
    cbn [statusCode respond] in E. injection E as -> ->.
    exists status, msg. split; [reflexivity |]. cbn in *. tauto.
  - pose proof (onError_response (characterId job) message w1 Hx) as E.
    destruct (onError (Some (characterId job)) message w1) as [c w2].
    cbn [fst] in *. subst c.
    assert (Hnow : now w1 = now w).
    { destruct (client_ok w) eqn:Hc.
      - destruct (process_run job w _ _ Hc Hprocess)
          as ((_ & _ & _ & Hnow & _) & _). exact Hnow.
      - rewrite (process_unconfigured job w Hc) in Hprocess.
        now injection Hprocess as _ <-. }
    rewrite Hnow. eexists. split; [reflexivity |].
    right. right. left. eexists _, _. split; [reflexivity |].
    pose proof (statusCodeFor_range message) as Hrange. cbn in *. tauto.
Qed.

(** X14: the handler never throws: every request is answered, with one of
    eight status codes, and with 200 only for the preflight request and for
    a completed job. *)
Theorem handler_always_responds (req : HttpRequest) (w : World) :
  exists r,
    fst (handler req w) = Normal r /\
    In (statusCode r) [200; 400; 401; 404; 405; 408; 413; 500] /\
    (statusCode r = 200 <->
     method req = "OPTIONS" \/ completes (Normal r)).
Proof.
  destruct (handler_response req w) as (r & Hr & Hkind). exists r.
  split; [exact Hr |].
  destruct (String.eqb (method req) "OPTIONS") eqn:Hoptions.
  { unfold handler in Hr. rewrite Hoptions in Hr. injection Hr as <-.
    apply String.eqb_eq in Hoptions. cbn. split; [auto | tauto]. }
  assert (Hmethod : method req <> "OPTIONS") by now apply String.eqb_neq.
  destruct Hkind as [(E & _) | [(status & message & -> & Hstatus)
                    | [(status & message & -> & Hstatus) | (data & at_ & ->)]]].
  - discriminate E.
  - cbn in *. split; [tauto |]. split.
    + intros ->. exfalso. intuition discriminate.
    + intros [E | (d & a & E)]; [contradiction | discriminate E].
  - cbn in *. split; [tauto |]. split.
    + intros ->. exfalso. intuition discriminate.
    + intros [E | (d & a & E)]; [contradiction | discriminate E].
  - cbn. split; [auto |]. split; [| reflexivity].
    intros _. right. exists data, at_. reflexivity.
Qed.

(** X15: the envelope of an error: its timestamp is the time of the request;
    its [statusCode] field is the status of the response when the error
    comes from the method check or from the [catch] block, and 400 when it
    is returned inside the [try] block, whatever the status of the response
    (400, 401, 404 or 500); a 401 always carries 400. *)
Theorem handler_error_envelope (req : HttpRequest) (w : World)
  (r : HttpResponse) (e : ErrorResponse) :
  fst (handler req w) = Normal r ->
  responseBody r = ErrorBody e ->
  er_timestamp e = now w /\
  (er_statusCode e = statusCode r \/
   er_statusCode e = 400 /\ In (statusCode r) [401; 404; 500]) /\
  (statusCode r = 401 -> er_statusCode e = 400).
Proof.
  intros Hr He.
  destruct (handler_response req w) as (r' & Hr' & Hkind).
  rewrite Hr in Hr'. injection Hr' as <-.
  destruct Hkind as [(_ & _ & E) | [(status & message & -> & Hstatus)
                    | [(status & message & -> & Hstatus) | (data & at_ & ->)]]].
  - congruence.
  - cbn in He. injection He as <-. cbn in *.
    split; [reflexivity |]. split; [| auto].
    destruct Hstatus as [<- | Hstatus]; [now left | right; tauto].
  - cbn in He. injection He as <-. cbn in *.
    split; [reflexivity |]. split; [now left |].
    intros ->. exfalso. intuition discriminate.
  - discriminate He.
Qed.

(** X16: a request changes nothing, and reaches the backend with nothing,
    unless it is a POST with valid headers whose body carries the signature
    of the configured secret and parses to a payload. *)
Theorem handler_acts_only_when_verified (req : HttpRequest) (w : World)
  (c : completion HttpResponse) (w' : World) :
  handler req w = (c, w') ->
  w' = w \/
  (method req = "POST" /\
   hv_success (validateWebhookHeaders (headers req)) = true /\
   exists raw data,
     rawBodyOf (body req) = Some raw /\
     Js.truthy (env_WEBHOOK_SECRET w) = true /\
     verifyWebhookSignature (Some raw) (headers req !! "x-webhook-signature")
       (env_WEBHOOK_SECRET w) = Normal true /\
     parseWebhookPayload raw = ParseOk data).
Proof.
  intros Hrun.
  destruct (handler_run req w c w' Hrun)
    as [(-> & _) | (job & c1 & w1 & Hpost & Hreceive & _)]; [now left |].
  right. apply String.eqb_eq in Hpost.
  apply receive_job in Hreceive
    as (Hheaders & raw & data & Hraw & Hsecret & Hverified & Hparsed & _).
  split_and!; eauto 10.
Qed.

(** X17: without the settings of the backend a verified request is answered
    with 500 and the reason, and nothing is recorded anywhere. *)
Theorem handler_unconfigured (req : HttpRequest) (w : World) (job : Job) :
  method req = "POST" ->
  receive req w = (Normal (inr job), w) ->
  client_ok w = false ->
  handler req w
  = (Normal (respond 500
               (ErrorBody
                  (createErrorResponse
                     "Processing failed: Missing Supabase environment variables"
                     (Some 500) (now w)))), w).
Proof.
  intros Hpost Hreceive Hc.
  assert (Hx : JsValue.truthy (Some (characterId job)) = true).
  { destruct (receive_run req w) as (x & E & Hx).
    rewrite Hreceive in E. injection E as <-. exact Hx. }
  rewrite handler_post by (rewrite Hpost; reflexivity).
  rewrite Hreceive. unfold try_catchM.
  rewrite (process_unconfigured job w Hc).
  now rewrite (onError_unconfigured _ _ w Hx Hc).
Qed.

End Responses.

Section Completion.

Import Sharp ImageProcessor Auth Supabase Process Spec Behaviour.

Context `{Crypto} `{Json}.

Ltac unbind H a w1 Hm :=
  let e := fresh "e" in
  apply bind_inv in H as [(a & w1 & Hm & H) | (e & Hm & ->)];
  [| exfalso; eapply not_completes_throw; eassumption].

(** The three uploads of a run whose barrier fulfils. *)
Lemma accepted_uploads (w : World) (b1 b2 b3 : Buffer) (n1 n2 n3 : string)
  (exs : list Exchange) :
  map request exs = [StorageUpload n1; StorageUpload n2; StorageUpload n3] ->
  (forall e, In e exs -> error e = None) ->
  exs = [accepted (StorageUpload n1); accepted (StorageUpload n2);
         accepted (StorageUpload n3)] /\
  zip_with (uploadOutcome w)
    [ ("1x1", {| buffer := b1; filename := n1 |});
      ("16x9", {| buffer := b2; filename := n2 |});
      ("9x16", {| buffer := b3; filename := n3 |}) ] exs
  = [ ("1x1", Normal {| up_path := n1; publicUrl := storage_getPublicUrl n1 w |});
      ("16x9", Normal {| up_path := n2; publicUrl := storage_getPublicUrl n2 w |});
      ("9x16", Normal {| up_path := n3; publicUrl := storage_getPublicUrl n3 w |}) ].
Proof.
  intros Hreq Hall.
  destruct exs as [| [r1 a1] [| [r2 a2] [| [r3 a3] [| e4 rest]]]];
    try discriminate Hreq.
  cbn in Hreq. injection Hreq as -> -> ->.
  assert (E1 := Hall _ (or_introl eq_refl)).
  assert (E2 := Hall _ (or_intror (or_introl eq_refl))).
  assert (E3 := Hall _ (or_intror (or_intror (or_introl eq_refl)))).
  cbn in E1, E2, E3. subst a1 a2 a3. split; reflexivity.
Qed.

Lemma collected_links (a b c : string) :
  let links : gmap string string :=
    <["9x16" := c]> (<["16x9" := b]> (<["1x1" := a]> ∅)) in
  links !! "1x1" = Some a /\ links !! "16x9" = Some b /\ links !! "9x16" = Some c.
Proof.
  cbv zeta. split_and!.
  - rewrite !lookup_insert_ne by discriminate. apply lookup_insert_eq.
  - rewrite lookup_insert_ne by discriminate. apply lookup_insert_eq.
  - apply lookup_insert_eq.
Qed.

(** A run of the job body that completes: the row was there, the variants
    were produced and stored under the names of the run, and the table ends
    with the record update applied on top of the status write. *)
Lemma process_completed (job : Job) (w : World) (c : completion HttpResponse)
  (w' : World) :
  client_ok w = true ->
  process job w = (c, w') ->
  completes c ->
  let cid := JsValue.to_string (characterId job) in
  let link key := storage_getPublicUrl (variant_filename cid key (now w)) w in
  exists row data original,
    characters w !! cid = Some row /\
    c = Normal (respond 200
                  (SuccessBody "Aspect ratios processed successfully" data (now w))) /\
    rd_characterId data = cid /\
    rd_originalAspectRatio data = original /\
    rd_aspectRatioUrls data
    = <["9x16" := link "9x16"]> (<["16x9" := link "16x9"]>
        (<["1x1" := link "1x1"]> ∅)) /\
    rd_processedCount data = 3 /\
    characters w'
    = alter (apply_patch
               (AspectRatiosPatch (Some (link "1x1")) (Some (link "16x9"))
                  (Some (link "9x16")) original (now w))) cid
        (alter (apply_patch (StatusPatch processing None (now w))) cid
           (characters w)) /\
    forall key, In key ["1x1"; "16x9"; "9x16"] ->
      In (accepted (StorageUpload (variant_filename cid key (now w))))
         (issued w w').
Proof.
  intros Hc Hrun Hdone. cbv zeta. unfold process in Hrun.
  set (cid := JsValue.to_string (characterId job)) in *.
  unbind Hrun v1 w1 Hm1.
  apply (updateAspectRatioStatus_run _ _ _ _ _ _ Hc) in Hm1
    as [(m1 & E1 & A1) | (v1' & _ & A1)]; [discriminate E1 |].
  cbn [Js.truthy] in A1.
  assert (Hc1 : client_ok w1 = true)
    by (now rewrite (advances_client_ok _ _ _ _ A1)).
  unbind Hrun found w2 Hm2.
  apply (lookup_run _ _ _ _ Hc1) in Hm2
    as [(E2 & (row1 & Hrow1) & A2) | (E2 & m2 & A2)];
    injection E2 as ->; cbn [negb] in Hrun.
  2:{ exfalso. unbind Hrun v3 w3 Hm3. rewrite respondError_eq in Hrun.
      injection Hrun as <- _. exact (not_completes_error _ _ Hdone). }
  pose proof (advances_trans _ _ _ _ _ _ _ A1 A2) as A12.
  assert (Hc2 : client_ok w2 = true)
    by (now rewrite (advances_client_ok _ _ _ _ A12)).
  assert (Hrow : exists row, characters w !! cid = Some row).
  { destruct A1 as (_ & _ & Hch1 & _). rewrite Hch1 in Hrow1.
    apply mk_is_Some, lookup_alter_is_Some in Hrow1 as [row Hrow]. eauto. }
  destruct Hrow as [row Hrow].
  unbind Hrun wait w3 Hm3. unfold lift in Hm3. injection Hm3 as _ <-.
  unbind Hrun imageBuffer w4 Hm4. rewrite downloadImage_eq in Hm4.
  injection Hm4 as _ <-.
  destruct (validateImageBuffer imageBuffer) as [problem | kind size].
  { exfalso. unbind Hrun v5 w5 Hm5. rewrite respondError_eq in Hrun.
    injection Hrun as <- _. exact (not_completes_error _ _ Hdone). }
  unbind Hrun meta w5 Hm5. unfold lift in Hm5. injection Hm5 as _ <-.
  unbind Hrun stamp w6 Hm6. unfold read in Hm6.
  injection Hm6 as <- <-.
  unbind Hrun produced w7 Hm7. unfold lift in Hm7. injection Hm7 as Hresult <-.
  rewrite (advances_now _ _ _ _ A12) in Hresult.
  destruct (processAllAspectRatios_shape _ _ _ _ Hresult)
    as (b1 & b2 & b3 & Himages).
  unbind Hrun outs w8 Hm8. cbv beta in Hm8.
  destruct (startUploads_run (processedImages produced) w2 Hc2)
    as (exs & Hlog & Hreq & Houts & Hcfg & Hch & Hupl).
  destruct (startUploads (processedImages produced) w2) as [outs' wu].
  cbn [fst snd] in *. injection Hm8 as <- <-. subst outs'.
  assert (A3 : advances w2 wu exs id) by (unfold advances; auto).
  pose proof (advances_trans _ _ _ _ _ _ _ A12 A3) as A.
  assert (Hcu : client_ok wu = true)
    by (now rewrite (advances_client_ok _ _ _ _ A)).
  unbind Hrun settle w9 Hm9. unfold read in Hm9. injection Hm9 as <- <-.
  unbind Hrun settled w10 Hm10. unfold lift in Hm10.
  injection Hm10 as Eall <-.
  assert (Hall : forall e', In e' exs -> error e' = None).
  { intros e' Hin'. destruct (error e') as [m' |] eqn:He'; [| reflexivity].
    exfalso. eapply (Promise_all_fulfils _ _ _ Eall).
    eapply refused_outcome; eauto.
    rewrite <- (length_map request exs), Hreq, length_map. reflexivity. }
  rewrite Himages in Hreq, Hrun. cbn [map snd filename] in Hreq.
  destruct (accepted_uploads w2 b1 b2 b3 _ _ _ exs Hreq Hall) as [-> Hzip].
  rewrite Hzip in Hrun. clear Hzip.
  cbn [collectUrls publicUrl] in Hrun.
  unbind Hrun v11 w11 Hm11.
  apply (updateCharacterAspectRatios_run _ _ _ _ _ _ Hcu) in Hm11
    as [(m4 & E4 & A4) | (v4 & _ & A4)]; [discriminate E4 |].
  pose proof (advances_trans _ _ _ _ _ _ _ A A4) as A'.
  assert (Hc3 : client_ok w11 = true)
    by (now rewrite (advances_client_ok _ _ _ _ A')).
  destruct (cleanupOldAspectRatioFiles_run cid w11 Hc3)
    as (_ & Hcfg5 & Hch5 & answer & rest & Hlog5 & Hrest).
  unbind Hrun v12 w12 Hm12. unfold detached in Hm12. injection Hm12 as _ <-.
  unbind Hrun at_ w13 Hm13. unfold read in Hm13. injection Hm13 as <- <-.
  unfold mret, M_ret in Hrun. injection Hrun as <- <-.
  assert (Hurl : forall p, storage_getPublicUrl p w2 = storage_getPublicUrl p w).
  { intros p. unfold storage_getPublicUrl.
    destruct A12 as ((-> & _) & _). reflexivity. }
  assert (Hnow : now (snd (cleanupOldAspectRatioFiles cid w11)) = now w).
  { destruct Hcfg5 as (_ & _ & _ & -> & _). exact (advances_now _ _ _ _ A'). }
  assert (Hnowu : now wu = now w) by exact (advances_now _ _ _ _ A).
  destruct A' as (_ & Hlog' & Hch' & _).
  exists row. eexists. exists (originalAspectRatio produced).
  split; [exact Hrow |]. rewrite Hnow.
  split; [reflexivity |]. cbn [rd_characterId rd_originalAspectRatio
                                 rd_aspectRatioUrls rd_processedCount].
  rewrite !Hurl. cbn [length Z.of_nat].
  split_and!; try reflexivity.
  - rewrite Hch5, Hch'. unfold compose. cbn [id].
    match goal with |- context [AspectRatiosPatch (?m !! _)] =>
      destruct (collected_links _ _ _ : _ /\ m !! "16x9" = _ /\ _)
        as (-> & -> & ->) end.
    rewrite !Hurl, Hnowu. reflexivity.
  - intros key Hkey.
    erewrite issued_app by (rewrite Hlog5, Hlog', <- app_assoc; reflexivity).
    cbn [app In]. cbn in Hkey.
    destruct Hkey as [<- | [<- | [<- | []]]]; auto 10.
Qed.

(** X18: a request answered with success has done its work: the row of the
    character existed and is now [completed], its three URL columns are the
    public URLs of the variants named after the character and the time of
    the run, which were uploaded during the run and are the URLs of the
    response; the detected ratio is recorded; and an error recorded by an
    earlier run is still there. *)
Theorem handler_completed_record (req : HttpRequest) (w : World)
  (c : completion HttpResponse) (w' : World) :
  handler req w = (c, w') ->
  completes c ->
  exists job row row' data,
    let cid := JsValue.to_string (characterId job) in
    let link key := storage_getPublicUrl (variant_filename cid key (now w)) w in
    receive req w = (Normal (inr job), w) /\
    c = Normal (respond 200
                  (SuccessBody "Aspect ratios processed successfully" data
                     (now w))) /\
    characters w !! cid = Some row /\
    characters w' !! cid = Some row' /\
    aspect_ratio_status row' = Some completed /\
    urls row' = (Some (link "1x1"), Some (link "16x9"), Some (link "9x16")) /\
    original_aspect_ratio row' = Some (rd_originalAspectRatio data) /\
    aspect_ratio_error row' = aspect_ratio_error row /\
    updated_at row' = now w /\
    rd_characterId data = cid /\
    rd_aspectRatioUrls data
    = <["9x16" := link "9x16"]> (<["16x9" := link "16x9"]>
        (<["1x1" := link "1x1"]> ∅)) /\
    rd_processedCount data = 3 /\
    forall key, In key ["1x1"; "16x9"; "9x16"] ->
      In (accepted (StorageUpload (variant_filename cid key (now w))))
         (issued w w').
Proof.
  intros Hrun Hdone.
  destruct (String.eqb (method req) "POST") eqn:Hpost.
  2:{ destruct (handler_other_method req w Hpost) as (r & E & Hn).
      rewrite E in Hrun. injection Hrun as <- _. contradiction. }
  rewrite (handler_post req w Hpost) in Hrun.
  destruct (receive_run req w) as ([response | job] & Ereceive & Hx);
    rewrite Ereceive in Hrun.
  { injection Hrun as <- _. destruct Hx as (e & Er & _). rewrite Er in Hdone.
    destruct (not_completes_error _ _ Hdone). }
  unfold try_catchM in Hrun.
  destruct (client_ok w) eqn:Hc.
  2:{ rewrite (process_unconfigured job w Hc) in Hrun.
      rewrite (onError_unconfigured _ _ w Hx Hc) in Hrun.
      injection Hrun as <- _. destruct (not_completes_error _ _ Hdone). }
  destruct (process job w) as [[r | message] w1] eqn:Hprocess.
  2:{ pose proof (onError_response (characterId job) message w1 Hx) as E.
      rewrite Hrun in E. cbn [fst] in E. subst c.
      destruct (not_completes_error _ _ Hdone). }
  injection Hrun as <- <-.
  destruct (process_completed job w _ _ Hc Hprocess Hdone)
    as (row & data & original & Hrow & E & Hid & Horiginal & Hlinks & Hcount
        & Htable & Huploads).
  exists job, row. eexists. exists data. cbv zeta.
  split; [exact Ereceive |]. split; [exact E |]. split; [exact Hrow |].
  rewrite Htable, !lookup_alter_eq, Hrow. cbn [fmap option_fmap option_map].
  split; [reflexivity |]. cbn. rewrite Horiginal.
  split_and!; auto.
Qed.

End Completion.

Section Paths.

Import Sharp ImageProcessor Auth Supabase Process Spec Behaviour.

Context `{Crypto} `{Json}.

Lemma alter_missing (f : Character -> Character) (k : string)
  (t : gmap string Character) :
  t !! k = None -> alter f k t = t.
Proof.
  intros Hk. apply map_eq. intros i. destruct (decide (i = k)) as [-> | Hne].
  - now rewrite lookup_alter_eq, Hk.
  - now rewrite lookup_alter_ne.
Qed.

(** X19: a verified request for a character that has no row is answered with
    404 on a backend that refuses nothing: the two status writes match no
    row, the table and the bucket stay as they were, and neither a download
    nor an upload is attempted. *)
Theorem handler_unknown_character (req : HttpRequest) (w : World) (job : Job) :
  method req = "POST" ->
  receive req w = (Normal (inr job), w) ->
  client_ok w = true ->
  healthy w ->
  characters w !! JsValue.to_string (characterId job) = None ->
  let cid := JsValue.to_string (characterId job) in
  exists w',
    handler req w
    = (Normal (respond 404
                 (ErrorBody (createErrorResponse "Character not found" None
                               (now w)))), w') /\
    characters w' = characters w /\
    uploads w' = uploads w /\
    issued w w'
    = [ accepted (DbUpdate cid (StatusPatch processing None (now w)));
        refused (DbSelectSingle cid)
          "JSON object requested, multiple (or no) rows returned";
        accepted (DbUpdate cid
                    (StatusPatch failed (Some "Character not found") (now w))) ].
Proof.
  intros Hpost Hreceive Hc Hhealthy Hrow. cbv zeta.
  set (cid := JsValue.to_string (characterId job)) in *.
  rewrite handler_post by (rewrite Hpost; reflexivity).
  rewrite Hreceive. unfold try_catchM, process. fold cid.
  unfold mbind at 1, M_bind at 1.
  rewrite (updateAspectRatioStatus_eq cid processing None w Hc). cbv zeta.
  rewrite Hhealthy.
  unfold mbind at 1, M_bind at 1, try_catchM.
  unfold mbind at 1, M_bind at 1.
  rewrite getCharacterById_eq by exact Hc.
  cbn [fault set_characters record log characters].
  rewrite Hhealthy, lookup_alter_eq, Hrow. cbn [fmap option_fmap option_map].
  unfold mret at 1, M_ret at 1. cbn [negb].
  unfold mbind at 1, M_bind at 1.
  rewrite updateAspectRatioStatus_eq by exact Hc.
  cbv zeta. cbn [fault set_characters record log characters now].
  rewrite Hhealthy. rewrite respondError_eq.
  cbn [now set_characters record].
  eexists. split; [reflexivity |].
  cbn [characters uploads set_characters record].
  split; [now rewrite !alter_missing by (rewrite ?alter_missing; assumption) |].
  split; [reflexivity |].
  unfold issued. cbn [log set_characters record].
  rewrite <- !app_assoc. now rewrite drop_app_length.
Qed.

(** The first two steps of the job body on a backend that refuses nothing,
    for a character that has a row. *)
Ltac begin_job Hc Hhealthy Hrow :=
  unfold try_catchM, process;
  unfold mbind at 1, M_bind at 1;
  rewrite (updateAspectRatioStatus_eq _ processing None _ Hc); cbv zeta;
  rewrite Hhealthy;
  unfold mbind at 1, M_bind at 1, try_catchM;
  unfold mbind at 1, M_bind at 1;
  rewrite getCharacterById_eq by exact Hc;
  cbn [fault set_characters record log characters];
  rewrite Hhealthy, lookup_alter_eq, Hrow; cbn [fmap option_fmap option_map];
  unfold mret at 1, M_ret at 1; cbn [negb].

(** The [catch] block on such a backend. *)
Lemma onError_healthy (cid : json) (message : string) (w : World) :
  JsValue.truthy (Some cid) = true ->
  client_ok w = true ->
  healthy w ->
  onError (Some cid) message w
  = (Normal (respond (statusCodeFor message)
               (ErrorBody (createErrorResponse ("Processing failed: " ++ message)
                             (Some (statusCodeFor message)) (now w)))),
     set_characters
       (alter (apply_patch
                 (StatusPatch failed
                    (if Js.truthy (Some message) then Some message else None)
                    (now w))) (JsValue.to_string cid))
       (record (failedWrite (JsValue.to_string cid) message w) None w)).
Proof.
  intros Hcid Hc Hhealthy. unfold onError. rewrite Hcid.
  unfold try_catchM, mbind, M_bind.
  rewrite (updateAspectRatioStatus_eq _ failed (Some message) w Hc). cbv zeta.
  rewrite Hhealthy. reflexivity.
Qed.

(** X20: a payload whose [options] is [null] never gets as far as the download:
    reading [options.timeout] throws, the job is marked failed with the
    message of that error, and, as the message mentions the word timeout,
    the response is a 408. *)
Theorem handler_null_options (req : HttpRequest) (w : World) (job : Job)
  (row : Character) :
  method req = "POST" ->
  receive req w = (Normal (inr job), w) ->
  client_ok w = true ->
  healthy w ->
  characters w !! JsValue.to_string (characterId job) = Some row ->
  options job = JNull ->
  let cid := JsValue.to_string (characterId job) in
  let cause := "Cannot read properties of null (reading 'timeout')" in
  exists w' row',
    handler req w
    = (Normal (respond 408
                 (ErrorBody (createErrorResponse ("Processing failed: " ++ cause)
                               (Some 408) (now w)))), w') /\
    characters w' !! cid = Some row' /\
    aspect_ratio_status row' = Some failed /\
    aspect_ratio_error row' = Some cause /\
    uploads w' = uploads w /\
    issued w w'
    = [ accepted (DbUpdate cid (StatusPatch processing None (now w)));
        accepted (DbSelectSingle cid);
        accepted (DbUpdate cid (StatusPatch failed (Some cause) (now w))) ].
Proof.
  intros Hpost Hreceive Hc Hhealthy Hrow Hoptions. cbv zeta.
  assert (Hx : JsValue.truthy (Some (characterId job)) = true).
  { destruct (receive_run req w) as (x & E & Hx).
    rewrite Hreceive in E. injection E as <-. exact Hx. }
  rewrite handler_post by (rewrite Hpost; reflexivity).
  rewrite Hreceive. begin_job Hc Hhealthy Hrow.
  rewrite Hoptions. unfold mbind at 1, M_bind at 1, lift.
  cbn [JsValue.get_property].
  rewrite onError_healthy; [| exact Hx | exact Hc | exact Hhealthy].
  eexists _, _. split; [reflexivity |].
  cbn [characters uploads set_characters record now].
  rewrite !lookup_alter_eq, Hrow. cbn [fmap option_fmap option_map].
  split; [reflexivity |]. split; [reflexivity |]. split; [reflexivity |].
  split; [reflexivity |].
  unfold issued, failedWrite. cbn [log set_characters record now].
  rewrite <- !app_assoc. now rewrite drop_app_length.
Qed.

Lemma options_timeout (value : json) :
  value <> JNull ->
  exists timeout, JsValue.get_property "timeout" value = Normal timeout.
Proof. destruct value; cbn; eauto. intros Hn. now destruct Hn. Qed.

(** X21: a source that answers the download with a status outside 200..299
    fails the job: nothing is uploaded, the row is marked failed with the
    status line as the cause, and the status of the response is chosen from
    the words of that cause. *)
Theorem handler_download_refused (req : HttpRequest) (w : World) (job : Job)
  (row : Character) (response : Response) :
  method req = "POST" ->
  receive req w = (Normal (inr job), w) ->
  client_ok w = true ->
  healthy w ->
  characters w !! JsValue.to_string (characterId job) = Some row ->
  options job <> JNull ->
  (forall url timeout, fetch w url timeout = FetchResolved response) ->
  response_ok response = false ->
  let cid := JsValue.to_string (characterId job) in
  let cause := "HTTP " ++ JsNum.to_string (res_status response) ++ ": "
                 ++ res_statusText response in
  exists w' row',
    handler req w
    = (Normal (respond (statusCodeFor cause)
                 (ErrorBody (createErrorResponse ("Processing failed: " ++ cause)
                               (Some (statusCodeFor cause)) (now w)))), w') /\
    characters w' !! cid = Some row' /\
    aspect_ratio_status row' = Some failed /\
    aspect_ratio_error row' = Some cause /\
    urls row' = urls row /\
    uploads w' = uploads w /\
    issued w w'
    = [ accepted (DbUpdate cid (StatusPatch processing None (now w)));
        accepted (DbSelectSingle cid);
        accepted (DbUpdate cid (StatusPatch failed (Some cause) (now w))) ].
Proof.
  intros Hpost Hreceive Hc Hhealthy Hrow Hoptions Hfetch Hok. cbv zeta.
  assert (Hx : JsValue.truthy (Some (characterId job)) = true).
  { destruct (receive_run req w) as (x & E & Hx).
    rewrite Hreceive in E. injection E as <-. exact Hx. }
  destruct (options_timeout _ Hoptions) as [timeout Htimeout].
  rewrite handler_post by (rewrite Hpost; reflexivity).
  rewrite Hreceive. begin_job Hc Hhealthy Hrow.
  rewrite Htimeout. unfold mbind at 1, M_bind at 1, lift.
  unfold mbind at 1, M_bind at 1. rewrite downloadImage_eq.
  cbn [fetch set_characters record]. rewrite Hfetch, Hok. cbn [negb].
  rewrite onError_healthy; [| exact Hx | exact Hc | exact Hhealthy].
  eexists _, _. split; [reflexivity |].
  cbn [characters uploads set_characters record now].
  rewrite !lookup_alter_eq, Hrow. cbn [fmap option_fmap option_map].
  split; [reflexivity |]. split; [reflexivity |]. split; [reflexivity |].
  split; [reflexivity |]. split; [reflexivity |].
  unfold issued, failedWrite. cbn [log set_characters record now].
  rewrite <- !app_assoc. now rewrite drop_app_length.
Qed.

(** X22: downloaded bytes that are no image of a known format fail the job
    with 400: nothing is uploaded, and the row is marked failed with the
    verdict of the validation as the cause. *)
Theorem handler_invalid_image (req : HttpRequest) (w : World) (job : Job)
  (row : Character) (response : Response) (problem : string) :
  method req = "POST" ->
  receive req w = (Normal (inr job), w) ->
  client_ok w = true ->
  healthy w ->
  characters w !! JsValue.to_string (characterId job) = Some row ->
  options job <> JNull ->
  (forall url timeout, fetch w url timeout = FetchResolved response) ->
  response_ok response = true ->
  validateImageBuffer (res_body response) = Invalid problem ->
  let cid := JsValue.to_string (characterId job) in
  let cause := "Invalid image: " ++ problem in
  exists w' row',
    handler req w
    = (Normal (respond 400
                 (ErrorBody (createErrorResponse cause None (now w)))), w') /\
    characters w' !! cid = Some row' /\
    aspect_ratio_status row' = Some failed /\
    aspect_ratio_error row' = Some cause /\
    urls row' = urls row /\
    uploads w' = uploads w /\
    issued w w'
    = [ accepted (DbUpdate cid (StatusPatch processing None (now w)));
        accepted (DbSelectSingle cid);
        accepted (DbUpdate cid (StatusPatch failed (Some cause) (now w))) ].
Proof.
  intros Hpost Hreceive Hc Hhealthy Hrow Hoptions Hfetch Hok Hinvalid. cbv zeta.
  destruct (options_timeout _ Hoptions) as [timeout Htimeout].
  rewrite handler_post by (rewrite Hpost; reflexivity).
  rewrite Hreceive. begin_job Hc Hhealthy Hrow.
  rewrite Htimeout. unfold mbind at 1, M_bind at 1, lift.
  unfold mbind at 1, M_bind at 1. rewrite downloadImage_eq.
  cbn [fetch set_characters record]. rewrite Hfetch, Hok. cbn [negb].
  rewrite Hinvalid.
  unfold mbind at 1, M_bind at 1.
  rewrite updateAspectRatioStatus_eq by exact Hc.
  cbv zeta. cbn [fault set_characters record log characters now].
  rewrite Hhealthy. rewrite respondError_eq.
  cbn [now set_characters record].
  eexists _, _. split; [reflexivity |].
  cbn [characters uploads set_characters record now].
  rewrite !lookup_alter_eq, Hrow. cbn [fmap option_fmap option_map].
  split; [reflexivity |]. split; [reflexivity |]. split; [reflexivity |].
  split; [reflexivity |]. split; [reflexivity |].
  unfold issued. cbn [log set_characters record now].
  rewrite <- !app_assoc. now rewrite drop_app_length.
Qed.

End Paths.

(** ** api/health.js *)

Section HealthCheck.

Import Auth Supabase Spec Health.

(** The rounded megabytes stay under 900 exactly up to 899.5 MiB. *)
Lemma megabytes_under_900 (bytes : Z) :
  (megabytes bytes <? 900) = true <-> bytes < 943194112.
Proof.
  unfold megabytes, JsNum.round, Qfloor, Qdiv, Qmult, Qplus, Qinv, inject_Z.
  cbn [Qnum Qden]. rewrite Z.ltb_lt.
  cbv [Pos.mul Pos.add Pos.succ].
  split; intros Hlt.
  - destruct (Z_lt_le_dec bytes 943194112) as [Hb | Hb]; [exact Hb | exfalso].
    assert (900 <= (bytes * 1 * 1 * 2 + 1 * 1048576) `div` 2097152)
      by (apply Z.div_le_lower_bound; lia).
    lia.
  - apply Z.div_lt_upper_bound; lia.
Qed.

Lemma missing_none (w : World) :
  filter (fun varName => negb (Js.truthy (env w varName))) requiredEnvVars = []
  <-> forall varName, In varName requiredEnvVars ->
        Js.truthy (env w varName) = true.
Proof.
  unfold requiredEnvVars. split.
  - intros Hnone varName Hin.
    destruct (Js.truthy (env w varName)) eqn:Et; [reflexivity | exfalso].
    assert (Hm : varName ∈ filter (fun v => negb (Js.truthy (env w v)))
                   ["SUPABASE_URL"; "SUPABASE_SERVICE_ROLE_KEY"; "WEBHOOK_SECRET"]).
    { apply list_elem_of_filter. split; [now rewrite Et | now apply list_elem_of_In]. }
    rewrite Hnone in Hm. inversion Hm.
  - intros Hall.
    rewrite !filter_cons, filter_nil.
    rewrite !Hall by (cbn; tauto). reflexivity.
Qed.

Lemma missing_variables (w : World) :
  filter (fun varName => negb (Js.truthy (env w varName))) requiredEnvVars
  = ((if Js.truthy (env_SUPABASE_URL w) then [] else ["SUPABASE_URL"])
     ++ (if Js.truthy (env_SUPABASE_SERVICE_ROLE_KEY w)
         then [] else ["SUPABASE_SERVICE_ROLE_KEY"])
     ++ (if Js.truthy (env_WEBHOOK_SECRET w) then [] else ["WEBHOOK_SECRET"]))%list.
Proof.
  unfold requiredEnvVars.
  rewrite !filter_cons, filter_nil.
  change (env w "SUPABASE_URL") with (env_SUPABASE_URL w).
  change (env w "SUPABASE_SERVICE_ROLE_KEY") with (env_SUPABASE_SERVICE_ROLE_KEY w).
  change (env w "WEBHOOK_SECRET") with (env_WEBHOOK_SECRET w).
  destruct (Js.truthy (env_SUPABASE_URL w)),
    (Js.truthy (env_SUPABASE_SERVICE_ROLE_KEY w)),
    (Js.truthy (env_WEBHOOK_SECRET w)); reflexivity.
Qed.

Lemma probe_run (host : Host) (w : World) :
  try_catchM (_ ← probeSupabase host; mret None)
             (fun message => mret (Some message)) w
  = (Normal
       (if negb (Js.truthy (env_SUPABASE_URL w))
           || negb (Js.truthy (env_SUPABASE_SERVICE_ROLE_KEY w))
        then Some "Missing Supabase environment variables"
        else match probe host with
             | Some message =>
                 if Js.includes count_column_missing message
                 then None else Some message
             | None => None
             end), w).
Proof.
  cbv [mbind M_bind read mret M_ret try_catchM probeSupabase
         getSupabaseClient throw].
  destruct (negb _ || negb _); [reflexivity |].
  destruct (probe host) as [message |]; [| reflexivity].
  now destruct (Js.includes count_column_missing message).
Qed.

Lemma handler_get (host : Host) (req : Process.HttpRequest) (w : World) :
  Process.method req = "GET" ->
  exists response data,
    handler host req w = (Normal response, w)
    /\ responseBody response = SuccessBody "Health check completed" data (now w)
    /\ statusCode response
       = (if String.eqb (status data) "unhealthy" then 503 else 200)
    /\ status data
       = (if negb (Js.truthy (env_SUPABASE_URL w))
             || negb (Js.truthy (env_SUPABASE_SERVICE_ROLE_KEY w))
             || negb (Js.truthy (env_WEBHOOK_SECRET w))
             || match probe host with
                | Some message => negb (Js.includes count_column_missing message)
                | None => false
                end
             || match sharp host with Normal _ => false | Throw _ => true end
          then "unhealthy"
          else if megabytes (heapUsed (memoryUsage host)) <? 900
               then "healthy" else "warning")
    /\ timestamp data = now w /\ service data = "aspect-ratio-service".
Proof.
  intros Hget. unfold handler. rewrite Hget.
  change (String.eqb "GET" "OPTIONS") with false.
  change (String.eqb "GET" "GET") with true.
  cbv beta iota. cbn [negb].
  unfold mbind at 1 2 3 4, M_bind, read. rewrite probe_run.
  cbv [mbind M_bind read mret M_ret].
  do 2 eexists. split; [reflexivity |]. split; [reflexivity |].
  cbn [statusCode respond status env_status supabase_status sharp_status
       memory_status heapUsed timestamp service].
  rewrite missing_variables.
  destruct (Js.truthy (env_SUPABASE_URL w)),
    (Js.truthy (env_SUPABASE_SERVICE_ROLE_KEY w)),
    (Js.truthy (env_WEBHOOK_SECRET w));
    (destruct (probe host) as [message |];
     [destruct (Js.includes count_column_missing message) |]);
    destruct (sharp host);
    destruct (megabytes (heapUsed (memoryUsage host)) <? 900);
    split_and!; reflexivity.
Qed.

(** X23: A [GET] is always answered with the success envelope; the status is 503
    exactly when a required variable is unset or empty, the probe reports an
    error other than the missing [count] column, or the image library
    fails; heap use from 899.5 MiB on only turns a healthy verdict into a
    warning, still with status 200. *)
Theorem health_verdict (host : Host) (req : Process.HttpRequest) (w : World)
  (Hget : Process.method req = "GET") :
  let failing :=
    (exists varName, In varName requiredEnvVars
                     /\ Js.truthy (env w varName) = false)
    \/ (exists message, probe host = Some message
                        /\ Js.includes count_column_missing message = false)
    \/ (exists message, sharp host = Throw message) in
  exists response data,
    handler host req w = (Normal response, w)
    /\ responseBody response = SuccessBody "Health check completed" data (now w)
    /\ (statusCode response = 200 \/ statusCode response = 503)
    /\ (statusCode response = 503 <-> failing)
    /\ (status data = "unhealthy" <-> failing)
    /\ (status data = "warning"
        <-> ~ failing /\ 943194112 <= heapUsed (memoryUsage host))
    /\ (status data = "healthy"
        <-> ~ failing /\ heapUsed (memoryUsage host) < 943194112).
Proof.
  intros failing.
  destruct (handler_get host req w Hget)
    as (response & data & Hrun & Hbody & Hcode & Hstatus & _).
  exists response, data. split; [exact Hrun |]. split; [exact Hbody |].
  assert (Hfailing :
    failing <->
    negb (Js.truthy (env_SUPABASE_URL w))
    || negb (Js.truthy (env_SUPABASE_SERVICE_ROLE_KEY w))
    || negb (Js.truthy (env_WEBHOOK_SECRET w))
    || match probe host with
       | Some message => negb (Js.includes count_column_missing message)
       | None => false
       end
    || match sharp host with Normal _ => false | Throw _ => true end = true).
  { unfold failing, requiredEnvVars. rewrite !orb_true_iff, !negb_true_iff.
    split.
    - intros [(varName & Hin & Hfalse) | [(message & -> & Hno) | (message & ->)]].
      + cbn in Hin. destruct Hin as [<- | [<- | [<- | []]]]; tauto.
      + rewrite Hno. tauto.
      + tauto.
    - intros [[[[Hu | Hk] | Hs] | Hp] | Hsh].
      + left. exists "SUPABASE_URL". cbn. tauto.
      + left. exists "SUPABASE_SERVICE_ROLE_KEY". cbn. tauto.
      + left. exists "WEBHOOK_SECRET". cbn. tauto.
      + right. left. destruct (probe host) as [message |]; [| discriminate].
        exists message. split; [reflexivity |]. now apply negb_true_iff.
      + right. right. destruct (sharp host) as [| message]; [discriminate |].
        now exists message. }
  pose proof (megabytes_under_900 (heapUsed (memoryUsage host))) as Hmem.
  rewrite Hcode, Hstatus.
  destruct (_ || _) eqn:Eb.
  - assert failing by now apply Hfailing.
    cbn. split_and!; try tauto; split; try tauto; discriminate.
  - assert (~ failing) by (rewrite Hfailing; discriminate).
    destruct (megabytes _ <? 900) eqn:Em; cbn.
    + assert (heapUsed (memoryUsage host) < 943194112) by now apply Hmem.
      split_and!; try tauto; split; try tauto; try discriminate; try lia.
    + assert (943194112 <= heapUsed (memoryUsage host)).
      { destruct (Z_lt_le_dec (heapUsed (memoryUsage host)) 943194112) as [Hl | Hl];
          [apply Hmem in Hl; congruence | exact Hl]. }
      split_and!; try tauto; split; try tauto; try discriminate; try lia.
Qed.

(** X24: the health endpoint never throws and changes nothing: the preflight is
    answered 200 without a body, with the CORS headers that name [GET],
    [POST] and [OPTIONS]; every method other than [OPTIONS] and [GET],
    [POST] included, is answered 405 with an error envelope that repeats the
    405; a [GET] is answered 200 or 503 with the success envelope. *)
Theorem health_always_responds (host : Host) (req : Process.HttpRequest)
  (w : World) :
  exists response,
    handler host req w = (Normal response, w)
    /\ In (statusCode response) [200; 405; 503]
    /\ (statusCode response = 405
        <-> Process.method req <> "OPTIONS" /\ Process.method req <> "GET")
    /\ match responseBody response with
       | NoBody =>
           Process.method req = "OPTIONS" /\ statusCode response = 200
           /\ responseHeaders response
              = [ ("Access-Control-Allow-Origin", "*");
                  ("Access-Control-Allow-Methods", "GET, POST, OPTIONS");
                  ("Access-Control-Allow-Headers", "Content-Type, Authorization") ]
       | ErrorBody e =>
           statusCode response = 405 /\ er_error e = "Method not allowed"
           /\ er_statusCode e = 405 /\ er_timestamp e = now w
       | SuccessBody message data at_ =>
           Process.method req = "GET" /\ message = "Health check completed"
           /\ at_ = now w /\ timestamp data = now w
           /\ service data = "aspect-ratio-service"
       end.
Proof.
  destruct (String.eqb (Process.method req) "OPTIONS") eqn:Eo.
  - apply String.eqb_eq in Eo. unfold handler. rewrite Eo.
    change (String.eqb "OPTIONS" "OPTIONS") with true. cbv iota.
    eexists. split; [reflexivity |]. cbn [statusCode responseBody responseHeaders].
    split_and!; try tauto; try reflexivity; try exact Eo.
    + cbn. tauto.
    + split; [discriminate | tauto].
  - pose proof Eo as Hno. apply String.eqb_neq in Hno.
    destruct (String.eqb (Process.method req) "GET") eqn:Eg.
    + apply String.eqb_eq in Eg.
      destruct (handler_get host req w Eg)
        as (response & data & Hrun & Hbody & Hcode & _ & Hat).
      exists response. split; [exact Hrun |]. rewrite Hbody, Hcode.
      destruct (String.eqb (status data) "unhealthy"); cbn;
        (split_and!; try tauto; try reflexivity; try apply Hat;
         split; [discriminate | tauto]).
    + pose proof Eg as Hng. apply String.eqb_neq in Hng.
      unfold handler. rewrite Eo, Eg. cbn [negb].
      cbv [mbind M_bind read mret M_ret].
      eexists. split; [reflexivity |].
      cbn [statusCode responseBody responseHeaders respond].
      split_and!; try tauto; try reflexivity. cbn. tauto.
Qed.

End HealthCheck.

(** ** The properties at concrete runs *)

Section Instances.

Import Sharp ImageProcessor Auth Supabase Process Spec Behaviour Scenario Cases.

#[local] Existing Instance NodeCrypto.crypto.
#[local] Existing Instance NodeJson.json.


Lemma processAllAspectRatios_dimensions_witness :
  exists result variant,
    processAllAspectRatios (jpeg 800 801) "c1" timestamp = Normal result /\
    originalAspectRatio result = "1:1" /\
    obj_get "16x9" (processedImages result) = Some variant /\
    Spec.pixelDimensions (buffer variant) = Some (1024, 576).
Proof.
  assert (Hrun : exists result,
             processAllAspectRatios (jpeg 800 801) "c1" timestamp = Normal result)
    by (eexists; vm_compute; reflexivity).
  destruct Hrun as [result Hrun].
  destruct (processAllAspectRatios_dimensions (jpeg 800 801)
              {| width := 800; height := 801; format := "jpeg" |} "c1" timestamp
              result eq_refl) as [Horiginal Hall]; [cbn; lia .. | exact Hrun |].
  destruct (Hall "16:9" {| dim_width := 1024; dim_height := 576 |})
    as (variant & w & h & Hget & Hdim & _ & _ & _ & Hexact).
  { cbn. tauto. }
  exists result, variant. split; [exact Hrun |].
  split; [rewrite Horiginal; vm_compute; reflexivity |].
  split; [exact Hget |].
  destruct Hexact as [-> ->]; [| exact Hdim].
  left. rewrite Horiginal. vm_compute. discriminate.
Defined.

Lemma processAllAspectRatios_succeeds_unless_elongated_witness :
  (exists result,
      processAllAspectRatios (jpeg 1151 1) "c1" timestamp = Normal result) /\
  (exists reason,
      processAllAspectRatios (jpeg 1153 1) "c1" timestamp
      = Throw ("Image processing failed: " ++ reason)).
Proof.
  destruct (processAllAspectRatios_succeeds_unless_elongated (jpeg 1151 1)
              {| width := 1151; height := 1; format := "jpeg" |} "c1" timestamp
              eq_refl) as (Hprocessed & _); [cbn; lia .. |].
  destruct (processAllAspectRatios_succeeds_unless_elongated (jpeg 1153 1)
              {| width := 1153; height := 1; format := "jpeg" |} "c1" timestamp
              eq_refl) as (_ & Hrefused & _); [cbn; lia .. |].
  split; [apply Hprocessed | apply Hrefused]; cbn; lia.
Defined.

Lemma processAllAspectRatios_shortfall_witness :
  exists result w1 h1 w2 h2 w3 h3,
    processAllAspectRatios (jpeg 1000 1049) "c1" timestamp = Normal result /\
    map (fun entry => (fst entry, Spec.pixelDimensions (buffer (snd entry))))
        (processedImages result)
    = [ ("1x1", Some (w1, h1)); ("16x9", Some (w2, h2));
        ("9x16", Some (w3, h3)) ] /\
    973 <= w1 /\ 975 <= h1 /\ 995 <= w2 /\ 560 <= h2 /\ 525 <= w3 /\ 940 <= h3.
Proof.
  assert (Hrun : exists result,
             processAllAspectRatios (jpeg 1000 1049) "c1" timestamp
             = Normal result)
    by (eexists; vm_compute; reflexivity).
  destruct Hrun as [result Hrun].
  destruct (processAllAspectRatios_shortfall (jpeg 1000 1049)
              {| width := 1000; height := 1049; format := "jpeg" |} "c1"
              timestamp result eq_refl)
    as (w1 & h1 & w2 & h2 & w3 & h3 & Hmap & H1 & H2 & H3 & H4 & H5 & H6);
    [cbn; lia .. | exact Hrun |].
  exists result, w1, h1, w2, h2, w3, h3.
  split_and!; [exact Hrun | exact Hmap | apply H1 | apply H2 | apply H3
              | apply H4 | apply H5 | apply H6].
Defined.

Lemma validateImageBuffer_leading_bytes_witness :
  match validateImageBuffer (jpeg 640 480),
        validateImageBuffer {| bytes := [255; 216; 255; 224; 0; 16];
                               image := None |} with
  | Invalid error, Invalid error' => error = error'
  | Valid format size, Valid format' size' =>
      format = format' /\
      In format ["jpeg"; "png"; "webp"; "gif"] /\
      size = 4 /\ size' = 6 /\ 0 < size /\ 0 < size'
  | _, _ => False
  end.
Proof.
  apply (validateImageBuffer_leading_bytes (jpeg 640 480)
           {| bytes := [255; 216; 255; 224; 0; 16]; image := None |}).
  reflexivity.
Defined.

Lemma verifyWebhookSignature_prefix_optional_witness :
  verifyWebhookSignature (Some payload)
    (Some ("sha256="
             ++ "1572811372cb8315eda24a994c832fc9da48a536366a335ccdaf7d63d8589719"))
    (Some secret)
  = verifyWebhookSignature (Some payload)
      (Some "1572811372cb8315eda24a994c832fc9da48a536366a335ccdaf7d63d8589719")
      (Some secret).
Proof.
  apply verifyWebhookSignature_prefix_optional; [discriminate | reflexivity].
Defined.

Lemma generateWebhookSignature_format_witness :
  exists digits,
    generateWebhookSignature payload secret = "sha256=" ++ digits /\
    String.length digits = 64%nat.
Proof.
  destruct (generateWebhookSignature_format payload secret)
    as (digits & Hsignature & Hlength & _).
  exists digits. split; [exact Hsignature | exact Hlength].
Defined.

Lemma updateAspectRatioStatus_read_back_witness :
  let w := world no_fault landscape_source rows [] in
  exists returned w1 row',
    updateAspectRatioStatus "c1" failed (Some "") w = (Normal returned, w1) /\
    fst (getCharacterById "c1" w1) = Normal row' /\
    aspect_ratio_status row' = Some failed /\
    aspect_ratio_error row' = None.
Proof.
  intros w.
  destruct (updateAspectRatioStatus_read_back "c1" failed (Some "") w)
    as (returned & w1 & Hrun & _ & _ & Hrow).
  - reflexivity.
  - intros n r. reflexivity.
  - change (characters w !! "c1") with (Some character) in Hrow.
    destruct Hrow as (row' & _ & Hread & Hstatus & _ & Herror & _).
    exists returned, w1, row'.
    split; [exact Hrun |]. split; [exact Hread |].
    split; [exact Hstatus | exact Herror].
Defined.

Lemma cleanupOldAspectRatioFiles_keeps_newest_witness :
  let w := world no_fault landscape_source rows earlier_variants in
  let run := cleanupOldAspectRatioFiles "c1" w in
  length (listing (variantsFolder "c1") (uploads (snd run))) = 3%nat /\
  forall kept removed,
    In kept (uploads (snd run)) ->
    is_Some (entry_in (variantsFolder "c1") kept) ->
    In removed (uploads w) -> ~ In removed (uploads (snd run)) ->
    created_at removed <= created_at kept.
Proof.
  intros w run.
  destruct (cleanupOldAspectRatioFiles_keeps_newest "c1" w) as [Hlength Hnewest].
  - reflexivity.
  - intros n r _. reflexivity.
  - vm_compute. repeat (apply NoDup_cons_2; [ | ]).
    all: try apply NoDup_nil_2.
    all: rewrite ?list_elem_of_In; cbn; intuition discriminate.
  - vm_compute. lia.
  - split; [exact Hlength | exact Hnewest].
Defined.

Lemma handler_error_envelope_witness :
  let w := world no_fault landscape_source rows [] in
  exists r e,
    fst (handler forged w) = Normal r /\
    responseBody r = ErrorBody e /\
    statusCode r = 401 /\ er_statusCode e = 400 /\ er_timestamp e = now w.
Proof.
  intros w.
  assert (Hrun : exists e,
             fst (handler forged w) = Normal (respond 401 (ErrorBody e)))
    by (eexists; vm_compute; reflexivity).
  destruct Hrun as [e Hrun].
  destruct (handler_error_envelope forged w _ e Hrun eq_refl)
    as (Hat & _ & Hcode).
  exists (respond 401 (ErrorBody e)), e.
  split_and!; [exact Hrun | reflexivity | reflexivity | | exact Hat].
  apply Hcode. reflexivity.
Defined.

Lemma handler_acts_only_when_verified_witness :
  let w := world no_fault landscape_source rows [] in
  snd (handler forged w) = w.
Proof.
  intros w.
  destruct (handler_acts_only_when_verified forged w _ _
              (surjective_pairing (handler forged w)))
    as [Hsame | (_ & _ & raw & data & Hraw & _ & Hverified & _)].
  - exact Hsame.
  - exfalso. injection Hraw as <-.
    assert (Hforged :
      verifyWebhookSignature (Some payload)
        (headers forged !! "x-webhook-signature") (env_WEBHOOK_SECRET w)
      = Normal false) by (vm_compute; reflexivity).
    rewrite Hforged in Hverified. discriminate Hverified.
Defined.

Lemma handler_unconfigured_witness :
  handler trigger unconfigured
  = (Normal (respond 500
               (ErrorBody
                  (createErrorResponse
                     "Processing failed: Missing Supabase environment variables"
                     (Some 500) timestamp))), unconfigured).
Proof.
  apply (handler_unconfigured trigger unconfigured job).
  - reflexivity.
  - vm_compute. reflexivity.
  - reflexivity.
Defined.

Lemma handler_completed_record_witness :
  let w := world no_fault landscape_source rows [] in
  exists row',
    characters (snd (handler trigger w)) !! "c1" = Some row' /\
    aspect_ratio_status row' = Some completed /\
    aspect_ratio_16x9_url row'
    = Some ("https://db.example/storage/v1/object/public/uploads/"
              ++ "characters/c1/aspect-ratios/16x9-1757186938000.jpg") /\
    original_aspect_ratio row' = Some "16:9".
Proof.
  intros w.
  assert (Hdone : completes (fst (handler trigger w)))
    by (do 2 eexists; vm_compute; reflexivity).
  destruct (handler_completed_record trigger w _ _
              (surjective_pairing (handler trigger w)) Hdone)
    as (job' & row & row' & data & Hreceive & Hc & Hrow & Hrow' & Hstatus
        & Hurls & Horiginal & _).
  assert (Ejob : job' = job).
  { assert (E : receive trigger w = (Normal (inr job), w))
      by (vm_compute; reflexivity).
    rewrite E in Hreceive. injection Hreceive as Ejob. symmetry. exact Ejob. }
  subst job'.
  exists row'. split; [exact Hrow' |]. split; [exact Hstatus |].
  split.
  - unfold urls in Hurls. injection Hurls as _ -> _. vm_compute. reflexivity.
  - rewrite Horiginal.
    assert (E : exists at_ data',
               fst (handler trigger w)
               = Normal (respond 200
                           (SuccessBody "Aspect ratios processed successfully"
                              data' at_))
               /\ rd_originalAspectRatio data' = "16:9")
      by (do 2 eexists; split; vm_compute; reflexivity).
    destruct E as (at_ & data' & E & Edata).
    rewrite E in Hc. injection Hc as -> _. rewrite Edata. reflexivity.
Defined.

Lemma handler_unknown_character_witness :
  let w := world no_fault landscape_source ∅ [] in
  exists w',
    handler trigger w
    = (Normal (respond 404
                 (ErrorBody (createErrorResponse "Character not found" None
                               timestamp))), w') /\
    characters w' = ∅ /\ uploads w' = [] /\
    length (issued w w') = 3%nat.
Proof.
  intros w.
  destruct (handler_unknown_character trigger w job)
    as (w' & Hrun & Hrows & Hobjects & Hissued).
  - reflexivity.
  - vm_compute. reflexivity.
  - reflexivity.
  - intros n r. reflexivity.
  - reflexivity.
  - exists w'. split; [exact Hrun |]. split; [exact Hrows |].
    split; [exact Hobjects |]. rewrite Hissued. reflexivity.
Defined.

Lemma handler_null_options_witness :
  let w := world no_fault landscape_source rows [] in
  exists w' row',
    fst (handler nulled w)
    = Normal (respond 408
                (ErrorBody
                   (createErrorResponse
                      "Processing failed: Cannot read properties of null (reading 'timeout')"
                      (Some 408) timestamp))) /\
    characters w' !! "c1" = Some row' /\
    aspect_ratio_status row' = Some failed /\
    uploads w' = [].
Proof.
  intros w.
  destruct (handler_null_options nulled w nulled_job character)
    as (w' & row' & Hrun & Hrow' & Hstatus & _ & Hobjects & _).
  - reflexivity.
  - vm_compute. reflexivity.
  - reflexivity.
  - intros n r. reflexivity.
  - reflexivity.
  - reflexivity.
  - exists w', row'. rewrite Hrun.
    split; [reflexivity |]. split; [exact Hrow' |].
    split; [exact Hstatus | exact Hobjects].
Defined.

Lemma handler_download_refused_witness :
  let w := world no_fault (FetchResolved gone) rows [] in
  exists w' row',
    fst (handler trigger w)
    = Normal (respond 404
                (ErrorBody
                   (createErrorResponse "Processing failed: HTTP 404: Not Found"
                      (Some 404) timestamp))) /\
    characters w' !! "c1" = Some row' /\
    aspect_ratio_status row' = Some failed /\
    aspect_ratio_error row' = Some "HTTP 404: Not Found".
Proof.
  intros w.
  destruct (handler_download_refused trigger w job character gone)
    as (w' & row' & Hrun & Hrow' & Hstatus & Herror & _).
  - reflexivity.
  - vm_compute. reflexivity.
  - reflexivity.
  - intros n r. reflexivity.
  - reflexivity.
  - discriminate.
  - intros url timeout. reflexivity.
  - reflexivity.
  - exists w', row'. rewrite Hrun.
    split; [vm_compute; reflexivity |]. split; [exact Hrow' |].
    split; [exact Hstatus |]. rewrite Herror. vm_compute. reflexivity.
Defined.

Lemma handler_invalid_image_witness :
  let w := world no_fault (FetchResolved page) rows [] in
  exists w' row',
    fst (handler trigger w)
    = Normal (respond 400
                (ErrorBody
                   (createErrorResponse
                      "Invalid image: Unrecognized image format" None
                      timestamp))) /\
    characters w' !! "c1" = Some row' /\
    aspect_ratio_status row' = Some failed /\
    uploads w' = [].
Proof.
  intros w.
  destruct (handler_invalid_image trigger w job character page
              "Unrecognized image format")
    as (w' & row' & Hrun & Hrow' & Hstatus & _ & _ & Hobjects & _).
  - reflexivity.
  - vm_compute. reflexivity.
  - reflexivity.
  - intros n r. reflexivity.
  - reflexivity.
  - discriminate.
  - intros url timeout. reflexivity.
  - reflexivity.
  - reflexivity.
  - exists w', row'. rewrite Hrun.
    split; [reflexivity |]. split; [exact Hrow' |].
    split; [exact Hstatus | exact Hobjects].
Defined.

Lemma health_verdict_witness :
  let w := world no_fault landscape_source rows [] in
  exists response data,
    Health.handler busy check w = (Normal response, w) /\
    Health.responseBody response
    = Health.SuccessBody "Health check completed" data timestamp /\
    Health.statusCode response = 200 /\
    Health.status data = "warning".
Proof.
  intros w.
  destruct (health_verdict busy check w eq_refl)
    as (response & data & Hrun & Hbody & [Hcode | Hcode] & Hdown & _ & Hwarning & _).
  - exists response, data. split; [exact Hrun |]. split; [exact Hbody |].
    split; [exact Hcode |]. apply Hwarning. split; [| cbn; lia].
    intros [(varName & Hin & Hunset) | [(message & Hprobe & _) | (message & Hsharp)]].
    + cbn in Hin. destruct Hin as [<- | [<- | [<- | []]]]; discriminate Hunset.
    + discriminate Hprobe.
    + discriminate Hsharp.
  - exfalso. apply Hdown in Hcode.
    destruct Hcode
      as [(varName & Hin & Hunset) | [(message & Hprobe & _) | (message & Hsharp)]].
    + cbn in Hin. destruct Hin as [<- | [<- | [<- | []]]]; discriminate Hunset.
    + discriminate Hprobe.
    + discriminate Hsharp.
Defined.

End Instances.

